(** * World map generator: the generation pipeline

    A shallow embedding of the map generation pipeline
    ([src/app/utils/mapgen]): point sampling, mesh construction, terrain,
    climate, hydrology, biome assignment and rasterisation, followed by the
    properties of the pipeline that the specification states.

    Numbers.  A JavaScript [number] is modelled by [num]: an exact rational,
    or one of the IEEE special values NaN, +Infinity, -Infinity.  Arithmetic
    on finite values is exact and signed zeros are not modelled.  Rounding
    is modelled in two places: the [Float32Array] of [generateElevation]
    keeps its entries in single precision ([Num.fround]) beside trackers
    that keep the doubles, and the blend of two colours rounds each
    operation to a double ([Num.double]) before [Math.round].  Elsewhere
    the operations and the typed arrays keep the values as they are
    computed.  The special values follow the IEEE rules, because the code
    relies on them ([Infinity] as the initial value of a minimum,
    [x / 0]).

    Arrays.  Typed arrays and arrays are lists.  A read outside the array
    is [undefined] in JavaScript; a numeric use of [undefined] behaves as
    [NaN], and that is what [getNum] returns.  A store outside a typed
    array is ignored, as stdpp's list insert does.

    The host.  [Math.sqrt], [Math.pow], [Math.cos], [Math.sin], [Math.log],
    the simplex-noise package, Delaunator and FlatQueue are not part of the
    repository; they are the fields of [Host].  [Math.random] is the ambient
    source of randomness: an infinite sequence of draws, with the number of
    draws made so far threaded through the code that draws. *)

From Stdlib Require Import QArith Qround Qabs Qpower ZArith Lia Lqa String Ascii
  List.
From Stdlib Require HexadecimalString HexadecimalZ.
From stdpp Require Import base option list.
Import ListNotations.

Open Scope Q_scope.

(** ** Numbers *)

Inductive num : Type :=
| NaN
| NegInf
| PosInf
| Fin (q : Q).

Declare Scope num_scope.
Delimit Scope num_scope with num.
Bind Scope num_scope with num.

Module Num.

Definition sign (a : num) : Z :=
  match a with
  | NaN => 0
  | NegInf => -1
  | PosInf => 1
  | Fin q => Z.sgn (Qnum q)
  end.

Definition inf_of_sign (s : Z) : num :=
  match s with
  | Zpos _ => PosInf
  | Zneg _ => NegInf
  | Z0 => NaN
  end.

Definition add (a b : num) : num :=
  match a, b with
  | NaN, _ | _, NaN => NaN
  | PosInf, NegInf | NegInf, PosInf => NaN
  | PosInf, _ | _, PosInf => PosInf
  | NegInf, _ | _, NegInf => NegInf
  | Fin x, Fin y => Fin (x + y)
  end.

Definition neg (a : num) : num :=
  match a with
  | NaN => NaN
  | NegInf => PosInf
  | PosInf => NegInf
  | Fin x => Fin (- x)
  end.

Definition sub (a b : num) : num :=
  match a, b with
  | NaN, _ | _, NaN => NaN
  | PosInf, PosInf | NegInf, NegInf => NaN
  | PosInf, _ | _, NegInf => PosInf
  | NegInf, _ | _, PosInf => NegInf
  | Fin x, Fin y => Fin (x - y)
  end.

Definition mul (a b : num) : num :=
  match a, b with
  | NaN, _ | _, NaN => NaN
  | Fin x, Fin y => Fin (x * y)
  | _, _ => inf_of_sign (sign a * sign b)
  end.

(** [x / 0] is an infinity of the sign of [x], and [0 / 0] is NaN. *)
Definition div (a b : num) : num :=
  match a, b with
  | NaN, _ | _, NaN => NaN
  | Fin x, Fin y => if Qeq_bool y 0 then inf_of_sign (sign a) else Fin (x / y)
  | Fin _, _ => Fin 0
  | _, Fin y => inf_of_sign (sign a * (if Qeq_bool y 0 then 1 else sign b))
  | _, _ => NaN
  end.

Definition Qlt_bool (x y : Q) : bool := negb (Qle_bool y x).

(** Comparisons: every comparison with NaN is false. *)
Definition ltb (a b : num) : bool :=
  match a, b with
  | NaN, _ | _, NaN => false
  | _, NegInf | PosInf, _ => false
  | NegInf, _ | _, PosInf => true
  | Fin x, Fin y => Qlt_bool x y
  end.

Definition leb (a b : num) : bool :=
  match a, b with
  | NaN, _ | _, NaN => false
  | NegInf, _ | _, PosInf => true
  | _, NegInf | PosInf, _ => false
  | Fin x, Fin y => Qle_bool x y
  end.

Definition gtb (a b : num) : bool := ltb b a.
Definition geb (a b : num) : bool := leb b a.

(** [Math.min] and [Math.max]: NaN as soon as one argument is NaN. *)
Definition min (a b : num) : num :=
  match a, b with
  | NaN, _ | _, NaN => NaN
  | _, _ => if ltb b a then b else a
  end.

Definition max (a b : num) : num :=
  match a, b with
  | NaN, _ | _, NaN => NaN
  | _, _ => if ltb a b then b else a
  end.

Definition abs (a : num) : num :=
  match a with
  | NaN => NaN
  | NegInf | PosInf => PosInf
  | Fin x => Fin (Qabs x)
  end.

Definition floor (a : num) : num :=
  match a with
  | Fin x => Fin (inject_Z (Qfloor x))
  | _ => a
  end.

Definition ceil (a : num) : num :=
  match a with
  | Fin x => Fin (inject_Z (Qceiling x))
  | _ => a
  end.

(** The remainder [a % b] on integral values, with the sign of the
    dividend; NaN elsewhere (the code takes it of a floor and 1024). *)
Definition rem (a b : num) : num :=
  match a, b with
  | Fin x, Fin y =>
      if Qeq_bool y 0 then NaN
      else Fin (inject_Z (Z.rem (Qfloor x) (Qfloor y)))
  | _, _ => NaN
  end.

Definition of_Z (z : Z) : num := Fin (inject_Z z).
Definition of_nat (n : nat) : num := of_Z (Z.of_nat n).

(** The array index a number denotes, if it is a non-negative integer. *)
Definition to_index (a : num) : option nat :=
  match a with
  | Fin x =>
      if Qeq_bool x (inject_Z (Qfloor x)) && (0 <=? Qfloor x)%Z
      then Some (Z.to_nat (Qfloor x)) else None
  | _ => None
  end.

Definition is_finite (a : num) : Prop := exists q, a = Fin q.

(** The same number with its fraction in lowest terms. *)
Definition normal (a : num) : num :=
  match a with
  | Fin q => Fin (Qred q)
  | _ => a
  end.

Definition pow2 (e : Z) : Q := 2 ^ e.

(** The exponent [e] with [2 ^ e <= |q| < 2 ^ (e + 1)], for [q] not 0. *)
Definition binade (q : Q) : Z :=
  let e := (Z.log2 (Z.abs (Qnum q)) - Z.log2 (Zpos (Qden q)))%Z in
  if Qle_bool (pow2 e) (Qabs q) then e else (e - 1)%Z.

(** The nearest integer, a tie to the even one. *)
Definition roundEven (m : Q) : Z :=
  let f := Qfloor m in
  match Qcompare (m - inject_Z f) (1 # 2) with
  | Lt => f
  | Gt => (f + 1)%Z
  | Eq => if Z.even f then f else (f + 1)%Z
  end.

(** Rounding to a binary floating-point format with [prec] significant
    bits and exponents from [emin] to [emax]: to the nearest number of the
    format, a tie to the one whose last bit is 0; a result beyond the
    largest number of the format is an infinity, and the numbers below
    [2 ^ emin] are the subnormal ones. *)
Definition roundBinary (prec emin emax : Z) (q : Q) : num :=
  if Qeq_bool q 0 then Fin 0
  else
    let ulp := pow2 (Z.max (binade q) emin - (prec - 1)) in
    let r := Qred (inject_Z (roundEven (q / ulp)) * ulp) in
    if Qle_bool (pow2 (emax + 1)) (Qabs r)
    then (if Qle_bool 0 q then PosInf else NegInf)
    else Fin r.

(** [Math.fround]: the value that a store into a [Float32Array] keeps. *)
Definition fround (a : num) : num :=
  match a with
  | Fin q => roundBinary 24 (-126) 127 q
  | _ => a
  end.

(** The result of an operation on doubles. *)
Definition double (a : num) : num :=
  match a with
  | Fin q => roundBinary 53 (-1022) 1023 q
  | _ => a
  end.

End Num.

Infix "+" := Num.add : num_scope.
Infix "-" := Num.sub : num_scope.
Infix "*" := Num.mul : num_scope.
Infix "/" := Num.div : num_scope.
Infix "<?" := Num.ltb : num_scope.
Infix "<=?" := Num.leb : num_scope.
Infix ">?" := Num.gtb : num_scope.
Infix ">=?" := Num.geb : num_scope.

(** A decimal literal of the source, [lit n d] = n/d. *)
Definition lit (n : Z) (d : positive) : num := Fin (n # d).
Definition int (z : Z) : num := Fin (inject_Z z).

(** ** Arrays *)

(** [arr[i]] in a numeric context. *)
Definition getNum (arr : list num) (i : nat) : num := default NaN (arr !! i).

(** [arr[i]] for an index held in a signed integer ([-1] is never a valid
    index). *)
Definition zlookup {A} (arr : list A) (i : Z) : option A :=
  if (i <? 0)%Z then None else arr !! Z.to_nat i.

Definition zgetNum (arr : list num) (i : Z) : num := default NaN (zlookup arr i).

(** A byte of a [Uint8Array] used as a flag: [undefined] is falsy. *)
Definition flag (arr : list bool) (i : nat) : bool := default false (arr !! i).
Definition zflag (arr : list bool) (i : Z) : bool := default false (zlookup arr i).

(** A store into a typed array at a signed index. *)
Definition zinsert {A} (i : Z) (v : A) (arr : list A) : list A :=
  if (i <? 0)%Z then arr else <[Z.to_nat i := v]> arr.

(** ** Errors *)

Inductive JsError : Type :=
| Error (message : string)
| RangeError (message : string)
| TypeError (message : string).

Definition message_of (e : JsError) : string :=
  match e with
  | Error m | RangeError m | TypeError m => m
  end.

(** The outcome of a call: it returns, it throws, or it runs for ever. *)
Inductive Outcome (A : Type) : Type :=
| Returns (a : A)
| Throws (e : JsError)
| Diverges.
Arguments Returns {A} a.
Arguments Throws {A} e.
Arguments Diverges {A}.

#[global] Instance Outcome_ret : MRet Outcome := fun A a => Returns a.
#[global] Instance Outcome_bind : MBind Outcome := fun A B k o =>
  match o with
  | Returns a => k a
  | Throws e => Throws e
  | Diverges => Diverges
  end.

(** ** Seeded randomness ([random.ts]) *)

Module Random.

Definition toInt32 (z : Z) : Z := ((z + 2 ^ 31) mod 2 ^ 32 - 2 ^ 31)%Z.
Definition toUint32 (z : Z) : Z := (z mod 2 ^ 32)%Z.

(** [a << n] on 32-bit integers. *)
Definition shl32 (a : Z) (n : Z) : Z := toInt32 (Z.shiftl (toInt32 a) n).
(** [a >>> n]: the unsigned shift. *)
Definition shru32 (a : Z) (n : Z) : Z := Z.shiftr (toUint32 a) n.
Definition xor32 (a b : Z) : Z := toInt32 (Z.lxor (toInt32 a) (toInt32 b)).

Definition charCode (c : ascii) : Z := Z.of_nat (nat_of_ascii c).

Fixpoint hashSeed_from (hash : Z) (seed : string) : Z :=
  match seed with
  | EmptyString => hash
  | String c rest =>
      hashSeed_from (toInt32 (shl32 hash 5 - hash + charCode c)) rest
  end.

Definition hashSeed (seed : string) : Z := hashSeed_from 0 seed.

(** One call of the closure returned by [createRNG]: the value returned
    and the new state. *)
Definition xorshift (state : Z) : Z :=
  let s1 := xor32 state (shl32 state 13) in
  let s2 := xor32 s1 (shru32 s1 17) in
  xor32 s2 (shl32 s2 5).

Definition rngValue (state : Z) : num :=
  Fin ((toUint32 state mod 2147483647)%Z # 2147483647).

Definition rngNext (state : Z) : num * Z :=
  let state' := xorshift state in (rngValue state', state').

Definition createRNG (seed : string) : Z := hashSeed seed.

(** The sequence of values the closure of [createRNG seed] returns. *)
Definition rngState (state : Z) (n : nat) : Z := Nat.iter (S n) xorshift state.

Definition rngStream (seed : string) (n : nat) : num :=
  rngValue (rngState (createRNG seed) n).

End Random.

(** ** The host *)

Record Host : Type := {
  Math_sqrt : Q -> Q;
  Math_pow : Q -> Q -> Q;
  Math_cos : Q -> Q;
  Math_sin : Q -> Q;
  Math_log : Q -> Q;
  Math_PI : Q;
  (** [createNoise2D random]: the noise function built from the values
      that [random] returns, call after call. *)
  createNoise2D : (nat -> num) -> num -> num -> num;
  (** [new Delaunator(coords)]: the arrays [triangles] and [halfedges],
      or the message of the error thrown. *)
  Delaunator : list num -> string + (list nat * list Z);
  (** FlatQueue: a priority queue of ids. *)
  Queue : Type;
  queue_new : Queue;
  queue_push : Z -> num -> Queue -> Queue;
  queue_pop : Queue -> option (Z * Queue);
  queue_length : Queue -> nat;
}.

(** The ambient [Math.random]: the k-th draw of the run. *)
Definition Ambient : Type := nat -> Q.

(** ** Types ([types.ts]) *)

Record Point : Type := { px : num; py : num }.

Record PointsData : Type := {
  points : list Point;
  mountainPoints : list Point;
}.

Record Lighting : Type := {
  enabled : bool;
  azimuth : Q;
  angle : Q;
  intensity : Q;
}.

Record MapConfig : Type := {
  seed : string;
  width : Q;
  height : Q;
  seaLevel : Q;
  biomeDensity : Q;
  mountainFrequency : Q;
  hillFrequency : Q;
  islandFrequency : Q;
  pointDeviation : Q;
  oceanRatio : Q;
  jaggedness : Q;
  mountainHeight : Q;
  windAngleDeg : Q;
  raininess : Q;
  rainShadow : Q;
  evaporation : Q;
  riverWidth : Q;
  rivers : Q;
  riverMinFlow : Q;
  showVoronoi : bool;
  lighting : Lighting;
}.

Record VoronoiMesh : Type := {
  mesh_points : list num;
  triangles : list nat;
  halfedges : list Z;
  numPoints : nat;
  numTriangles : nat;
  numHalfedges : nat;
  is_boundary_t : list bool;
  mesh_width : num;
  mesh_height : num;
  neighbors : list (list Z);
  (** the array captured by the accessor closures *)
  triangleCenters : list Point;
}.

Definition undefinedPoint : Point := {| px := NaN; py := NaN |}.

(** The accessors read the cache of centres.  For a triangle outside the
    cache the source raises a TypeError ([x_of_t] and [y_of_t] at once,
    [t_center] when its result is used); the model returns NaN coordinates
    there.  Inside [generateMap] no stage passes such a triangle when the
    neighbour indices of the mesh are in range, as they are for a
    triangulation; what is proved of [rasterizeRivers], which takes any
    list of paths, is stated for triangles that have a centre. *)
Definition t_center (mesh : VoronoiMesh) (t : Z) : Point :=
  default undefinedPoint (zlookup (triangleCenters mesh) t).
Definition x_of_t (mesh : VoronoiMesh) (t : Z) : num := px (t_center mesh t).
Definition y_of_t (mesh : VoronoiMesh) (t : Z) : num := py (t_center mesh t).

Record NoiseData : Type := {
  nd_elevation : list num;
  nd_moisture : list num;
  nd_waterNoise : list num;
  nd_roughness : list num;
}.

Record RiverPath : Type := {
  rp_triangles : list Z;
  sourceTriangle : Z;
  rp_flow : num;
}.

Inductive BiomeType : Type :=
| OCEAN | DEEP_OCEAN | SHALLOW_OCEAN | SHALLOW_WATER
| BEACH
| SNOW | TUNDRA | TAIGA
| GRASSLAND | SHRUBLAND | TEMPERATE_DECIDUOUS_FOREST | TEMPERATE_RAIN_FOREST
| TEMPERATE_DESERT
| SUBTROPICAL_DESERT | TROPICAL_SEASONAL_FOREST | TROPICAL_RAIN_FOREST
| MOUNTAIN | BARE | SCORCHED.

(** A cell of an output grid: [None] is [undefined]. *)
Record MapData : Type := {
  md_width : Q;
  md_height : Q;
  md_elevation : list (list (option num));
  md_moisture : list (list (option num));
  md_temperature : list (list (option num));
  md_biomes : list (list (option BiomeType));
  md_rivers : list (list num);
}.

(** ** Loops over a numeric counter *)

(** [for (x = x0; cond x; x = next x) body]: at most [fuel] rounds. *)
Fixpoint for_num {St : Type} (fuel : nat) (cond : num -> bool)
    (next : num -> num) (body : num -> St -> St) (x : num) (s : St) : St :=
  match fuel with
  | O => s
  | S fuel' =>
      if cond x then for_num fuel' cond next body (next x) (body x s) else s
  end.

(** Rounds that a loop stepping by [step] over [span] can make.  When the
    step is not a positive finite number the counter is NaN or infinite
    after the first round and the loop stops. *)
Definition rounds (span step : num) : nat :=
  match (span / step)%num with
  | Fin q => S (Z.to_nat (Qfloor q))
  | _ => 1
  end.

Section Pipeline.

Context (host : Host).

(** ** [Math] functions on [num] *)

Definition sqrt (a : num) : num :=
  match a with
  | Fin q => if Num.Qlt_bool q 0 then NaN else Fin (Math_sqrt host q)
  | PosInf => PosInf
  | _ => NaN
  end.

(** [Math.pow(b, e)] for the exponents 1.5, 1.2 and 0.8 of the source. *)
Definition pow (b : num) (e : Q) : num :=
  match b with
  | Fin q => if Num.Qlt_bool q 0 then NaN else Fin (Math_pow host q e)
  | PosInf | NegInf => PosInf
  | NaN => NaN
  end.

(** [Math.pow(b, 2)]. *)
Definition square (b : num) : num := (b * b)%num.

Definition cos (a : num) : num :=
  match a with Fin q => Fin (Math_cos host q) | _ => NaN end.

Definition sin (a : num) : num :=
  match a with Fin q => Fin (Math_sin host q) | _ => NaN end.

Definition log (a : num) : num :=
  match a with
  | Fin q =>
      if Num.Qlt_bool q 0 then NaN
      else if Qeq_bool q 0 then NegInf else Fin (Math_log host q)
  | PosInf => PosInf
  | _ => NaN
  end.

Definition createSeededNoise2D (seed : string) : num -> num -> num :=
  createNoise2D host (Random.rngStream seed).

(** ** Point generation ([pointsGeneration.ts]) *)

Definition cellSize (config : MapConfig) : num :=
  let W := Fin (width config) in
  let H := Fin (height config) in
  sqrt ((W * H) / ((W * H * Fin (biomeDensity config)) / int 30))%num.

Definition push_point (x y : num) (pts : list Point) : list Point :=
  pts ++ [{| px := x; py := y |}].

Definition createBoundaryPoints (pts : list Point) (W H spacing : num)
  : list Point :=
  (* Bottom edge *)
  let pts :=
    for_num (rounds W spacing) (fun x => x <=? W)%num
      (fun x => x + spacing)%num (fun x => push_point x (int 0)) (int 0) pts in
  (* Right edge *)
  let pts :=
    for_num (rounds H spacing) (fun y => y <=? H)%num
      (fun y => y + spacing)%num (fun y => push_point W y) spacing pts in
  (* Top edge *)
  let pts :=
    for_num (rounds W spacing) (fun x => x >=? int 0)%num
      (fun x => x - spacing)%num (fun x => push_point x H)
      (W - spacing)%num pts in
  (* Left edge *)
  for_num (rounds H spacing) (fun y => y >=? spacing)%num
    (fun y => y - spacing)%num (fun y => push_point (int 0) y)
    (H - spacing)%num pts.

(** The state of the sampling loops: the two lists and the number of
    [Math.random] draws made. *)
Record Sampler : Type := {
  s_points : list Point;
  s_mountain : list Point;
  s_draws : nat;
}.

(** The body of the inner loop of [generatePoints] at grid site (x, y). *)
Definition samplePoint (config : MapConfig) (cs : num)
    (noise2D mountainNoise : num -> num -> num) (random : Ambient)
    (x y : num) (s : Sampler) : Sampler :=
  let W := Fin (width config) in
  let H := Fin (height config) in
  let n := s_draws s in
  let offsetX :=
    ((Fin (random n) * int 2 - int 1) * cs * Fin (pointDeviation config))%num in
  let offsetY :=
    ((Fin (random (S n)) * int 2 - int 1) * cs
     * Fin (pointDeviation config))%num in
  let nx := ((x + offsetX) / W)%num in
  let ny := ((y + offsetY) / H)%num in
  let p_x :=
    Num.max (cs / int 2)%num (Num.min (W - cs / int 2) (x + offsetX))%num in
  let p_y :=
    Num.max (cs / int 2)%num (Num.min (H - cs / int 2) (y + offsetY))%num in
  let pts := push_point p_x p_y (s_points s) in
  let mountainValue :=
    ((mountainNoise (nx * int 4) (ny * int 4) * lit 1 2 + lit 1 2)
     * (noise2D (nx * int 8) (ny * int 8) * lit 1 2 + lit 1 2))%num in
  if (mountainValue >? lit 7 10)%num then
    if (Fin (random (S (S n))) <? Fin (mountainFrequency config))%num then
      {| s_points := pts;
         s_mountain := push_point p_x p_y (s_mountain s);
         s_draws := S (S (S n)) |}
    else {| s_points := pts; s_mountain := s_mountain s;
            s_draws := S (S (S n)) |}
  else {| s_points := pts; s_mountain := s_mountain s; s_draws := S (S n) |}.

(** The body of [generatePoints] below the computation of [cellSize],
    run when [draws] values of [Math.random] have been consumed: the
    points and the number of draws consumed after it. *)
Definition samplePoints (config : MapConfig) (cs : num) (random : Ambient)
    (draws : nat) : PointsData * nat :=
  let W := Fin (width config) in
  let H := Fin (height config) in
  let noise2D := createSeededNoise2D (seed config) in
  let mountainNoise := createSeededNoise2D (seed config ++ "-mountains") in
  let boundary := createBoundaryPoints [] W H (cs / int 2)%num in
  let s :=
    for_num (rounds H cs) (fun y => y <? H - cs / int 2)%num
      (fun y => y + cs)%num
      (fun y s =>
         for_num (rounds W cs) (fun x => x <? W - cs / int 2)%num
           (fun x => x + cs)%num
           (fun x s => samplePoint config cs noise2D mountainNoise random x y s)
           (cs / int 2)%num s)
      (cs / int 2)%num
      {| s_points := boundary; s_mountain := []; s_draws := draws |} in
  ({| points := s_points s; mountainPoints := s_mountain s |}, s_draws s).

Definition generatePoints (config : MapConfig) (random : Ambient)
    (draws : nat) : PointsData * nat :=
  samplePoints config (cellSize config) random draws.

(** ** Mesh construction ([mesh.ts]) *)

Definition calculateTriangleCenter (t : nat) (tris : list nat)
    (pts : list num) : Point :=
  let i := (t * 3)%nat in
  let coord (k off : nat) : num :=
    match tris !! (i + k)%nat with
    | Some p => getNum pts (p * 2 + off)%nat
    | None => NaN
    end in
  {| px := ((coord 0 0 + coord 1 0 + coord 2 0) / int 3)%num;
     py := ((coord 0 1 + coord 1 1 + coord 2 1) / int 3)%num |}%nat.

(** One round of the loop over the halfedges. *)
Definition meshStep (hes : list Z) (e : nat)
    (acc : Outcome (list bool * list (list Z)))
  : Outcome (list bool * list (list Z)) :=
  '(boundary, nbrs) ← acc;
  let t := (e / 3)%nat in
  let j := (e mod 3)%nat in
  match hes !! e with
  | None => Returns (boundary, nbrs)
  | Some opposite =>
      if (opposite >=? 0)%Z then
        match nbrs !! t with
        | Some row => Returns (boundary, <[t := <[j := (opposite / 3)%Z]> row]> nbrs)
        | None => Throws (TypeError "Cannot set properties of undefined")
        end
      else Returns (<[t := true]> boundary, nbrs)
  end.

Definition createMesh_body (pointsData : PointsData) (W H : num)
  : Outcome VoronoiMesh :=
  let flatPoints := flat_map (fun p => [px p; py p]) (points pointsData) in
  match Delaunator host flatPoints with
  | inl msg => Throws (Error msg)
  | inr (tris, hes) =>
      let numT := (length tris / 3)%nat in
      if negb (length tris mod 3 =? 0)%nat
      then Throws (RangeError "Invalid array length")
      else
        '(boundary, nbrs) ←
          fold_left (fun acc e => meshStep hes e acc) (seq 0 (length hes))
            (Returns (replicate numT false, replicate numT [-1; -1; -1]%Z));
        Returns
          {| mesh_points := flatPoints;
             triangles := tris;
             halfedges := hes;
             numPoints := length (points pointsData);
             numTriangles := numT;
             numHalfedges := length hes;
             is_boundary_t := boundary;
             mesh_width := W;
             mesh_height := H;
             neighbors := nbrs;
             triangleCenters :=
               map (fun t => calculateTriangleCenter t tris flatPoints)
                 (seq 0 numT) |}
  end.

(** The [try] of [createMesh]: every error is thrown again as an [Error]
    whose message is prefixed. *)
Definition createMesh (pointsData : PointsData) (W H : num)
  : Outcome VoronoiMesh :=
  match createMesh_body pointsData W H with
  | Throws e => Throws (Error ("Failed to create mesh: " ++ message_of e))
  | o => o
  end.

(** ** Terrain ([terrain.ts]) *)

Definition precalculateNoise (config : MapConfig) : NoiseData :=
  let noise2D := createSeededNoise2D (seed config) in
  let continentNoise := createSeededNoise2D (seed config ++ "-continent") in
  let moistureNoise := createSeededNoise2D (seed config ++ "-moisture") in
  let roughnessNoise := createSeededNoise2D (seed config ++ "-roughness") in
  let half := lit 1 2 in
  let at_ (f : num -> num) := map (fun i => f (Num.of_nat i / int 1024)%num) (seq 0 1024) in
  {| nd_elevation :=
       at_ (fun nx =>
         noise2D (nx * int 1) half * lit 4 10
         + noise2D (nx * int 2) half * lit 2 10
         + noise2D (nx * int 4) half * lit 1 10
         + noise2D (nx * int 8) half * lit 5 100)%num;
     nd_moisture :=
       at_ (fun nx =>
         moistureNoise (nx * int 1) half * lit 5 10
         + moistureNoise (nx * int 2) half * lit 3 10
         + moistureNoise (nx * int 4) half * lit 2 10)%num;
     nd_waterNoise :=
       at_ (fun nx =>
         continentNoise (nx * lit 1 2) half * lit 6 10
         + continentNoise (nx * int 1) half * lit 3 10
         + continentNoise (nx * int 2) half * lit 1 10)%num;
     nd_roughness :=
       at_ (fun nx =>
         roughnessNoise (nx * int 2) half * lit 5 10
         + roughnessNoise (nx * int 4) half * lit 3 10
         + roughnessNoise (nx * int 8) half * lit 2 10)%num |}.

(** The triangles [0 .. numTriangles - 1], as signed indices. *)
Definition triangleIds (mesh : VoronoiMesh) : list Z :=
  map Z.of_nat (seq 0 (numTriangles mesh)).

Definition neighborsOf (mesh : VoronoiMesh) (t : Z) : list Z :=
  default [] (zlookup (neighbors mesh) t).

(** Mountain peak selection: the peaks chosen so far and the state of the
    seeded generator. *)
Definition selectPeak (mesh : VoronoiMesh) (config : MapConfig)
    (mountainNoise : num -> num -> num) (acc : list Z * Z) (t : Z)
  : list Z * Z :=
  let '(peaks, rng) := acc in
  if zflag (is_boundary_t mesh) t then acc
  else
    let nx := (x_of_t mesh t / mesh_width mesh)%num in
    let ny := (y_of_t mesh t / mesh_height mesh)%num in
    let noiseValue :=
      ((mountainNoise (nx * int 2) (ny * int 2) * lit 1 2 + lit 1 2)
       * (mountainNoise (nx * int 4) (ny * int 4) * lit 1 2 + lit 1 2))%num in
    if (noiseValue >? lit 7 10)%num then
      let '(r, rng') := Random.rngNext rng in
      if (r <? Fin (mountainFrequency config) * lit 1 10)%num
      then (peaks ++ [t], rng') else (peaks, rng')
    else acc.

(** The state of the search of [calculateMountainDistance]. *)
Record Search : Type := {
  sr_distances : list num;
  sr_visited : list bool;
  sr_queue : Queue host;
  sr_draws : nat;
}.

(** The body of the loop over the neighbours of [currentT]. *)
Definition relaxNeighbor (mesh : VoronoiMesh) (config : MapConfig)
    (random : Ambient) (currentT : Z) (s : Search) (neighbor : Z) : Search :=
  if (neighbor =? -1)%Z || zflag (sr_visited s) neighbor then s
  else
    let p1 := t_center mesh currentT in
    let p2 := t_center mesh neighbor in
    let dx := (px p2 - px p1)%num in
    let dy := (py p2 - py p1)%num in
    let edgeLength := sqrt (dx * dx + dy * dy)%num in
    let noise :=
      ((Fin (random (sr_draws s)) - lit 1 2) * Fin (jaggedness config)
       * lit 2 10)%num in
    let distWithNoise := (edgeLength * (int 1 + noise))%num in
    let newDist := (zgetNum (sr_distances s) currentT + distWithNoise)%num in
    if (newDist <? zgetNum (sr_distances s) neighbor)%num then
      {| sr_distances := zinsert neighbor newDist (sr_distances s);
         sr_visited := sr_visited s;
         sr_queue := queue_push host neighbor newDist (sr_queue s);
         sr_draws := S (sr_draws s) |}
    else
      {| sr_distances := sr_distances s; sr_visited := sr_visited s;
         sr_queue := sr_queue s; sr_draws := S (sr_draws s) |}.

(** [while (queue.length > 0)]: at most [fuel] rounds. *)
Fixpoint mountainSearch (fuel : nat) (mesh : VoronoiMesh)
    (config : MapConfig) (random : Ambient) (s : Search) : Search :=
  match fuel with
  | O => s
  | S fuel' =>
      if (0 <? queue_length host (sr_queue s))%nat then
        match queue_pop host (sr_queue s) with
        | None => s
        | Some (currentT, q') =>
            let s0 :=
              {| sr_distances := sr_distances s; sr_visited := sr_visited s;
                 sr_queue := q'; sr_draws := sr_draws s |} in
            if zflag (sr_visited s0) currentT
            then mountainSearch fuel' mesh config random s0
            else
              let s1 :=
                {| sr_distances := sr_distances s0;
                   sr_visited := zinsert currentT true (sr_visited s0);
                   sr_queue := sr_queue s0; sr_draws := sr_draws s0 |} in
              mountainSearch fuel' mesh config random
                (fold_left (relaxNeighbor mesh config random currentT)
                   (neighborsOf mesh currentT) s1)
        end
      else s
  end.

(** Every round pops one entry; entries are pushed for the peaks and, once
    per triangle visited, for its neighbours. *)
Definition searchFuel (mesh : VoronoiMesh) : nat :=
  S (numTriangles mesh + length (concat (neighbors mesh))).

(** The state in which the search starts: the peaks are at distance 0 and
    in the queue. *)
Definition startSearch (mesh : VoronoiMesh) (mountainTriangles : list Z)
    (draws : nat) : Search :=
  let numT := numTriangles mesh in
  fold_left
    (fun s t =>
       {| sr_distances := zinsert t (int 0) (sr_distances s);
          sr_visited := sr_visited s;
          sr_queue := queue_push host t (int 0) (sr_queue s);
          sr_draws := sr_draws s |})
    mountainTriangles
    {| sr_distances := replicate numT PosInf;
       sr_visited := replicate numT false;
       sr_queue := queue_new host; sr_draws := draws |}.

Definition calculateMountainDistance (mesh : VoronoiMesh)
    (config : MapConfig) (random : Ambient) (draws : nat)
  : (list num * list Z) * nat :=
  let mountainNoise := createSeededNoise2D (seed config ++ "-mountains") in
  let rng := Random.createRNG (seed config ++ "-mountain-selection") in
  let '(mountainTriangles, _) :=
    fold_left (selectPeak mesh config mountainNoise) (triangleIds mesh)
      ([], rng) in
  let start := startSearch mesh mountainTriangles draws in
  let final := mountainSearch (searchFuel mesh) mesh config random start in
  let distances := sr_distances final in
  let maxDist :=
    fold_left
      (fun m d => if (d <? PosInf)%num then Num.max m d else m)
      distances (int 0) in
  let distances' :=
    if (maxDist >? int 0)%num then
      map (fun d => if (d <? PosInf)%num then (d / maxDist)%num else int 1)
        distances
    else distances in
  ((distances', mountainTriangles), sr_draws final).

(** The number of rounds of [for (i = 0; i < n; i++)]. *)
Definition countBelow (n : num) : nat :=
  match n with
  | Fin q => Z.to_nat (Qceiling q)
  | _ => 0
  end.

Record Continent : Type := { c_x : num; c_y : num; c_size : num }.

Definition placeContinent (acc : list Continent * Z) (_ : nat)
  : list Continent * Z :=
  let '(cs, rng) := acc in
  let margin := lit 15 100 in
  let '(r1, rng) := Random.rngNext rng in
  let x := (margin + r1 * (int 1 - margin * int 2))%num in
  let '(r2, rng) := Random.rngNext rng in
  let y := (margin + r2 * (int 1 - margin * int 2))%num in
  let '(r3, rng) := Random.rngNext rng in
  let size := (lit 5 10 + r3 * lit 5 10)%num in
  (cs ++ [{| c_x := x; c_y := y; c_size := size |}], rng).

Definition placeIsland (acc : list Continent * Z) (_ : nat)
  : list Continent * Z :=
  let '(cs, rng) := acc in
  let '(x, rng) := Random.rngNext rng in
  let '(y, rng) := Random.rngNext rng in
  let '(r3, rng) := Random.rngNext rng in
  let size := (lit 1 10 + r3 * lit 2 10)%num in
  (cs ++ [{| c_x := x; c_y := y; c_size := size |}], rng).

Definition generateContinentMask (mesh : VoronoiMesh) (config : MapConfig)
    (noiseData : NoiseData) : list num :=
  let W := mesh_width mesh in
  let H := mesh_height mesh in
  let noise2D := createSeededNoise2D (seed config ++ "-continents") in
  let rng := Random.createRNG (seed config ++ "-continentpos") in
  let numContinents :=
    Num.max (int 1)
      (Num.min (int 3) (Num.floor (sqrt (W * H) / int 300)))%num in
  let acc :=
    fold_left placeContinent (seq 0 (countBelow numContinents)) ([], rng) in
  let numIslands := Num.floor (Fin (islandFrequency config) * int 10)%num in
  let '(continents, _) :=
    fold_left placeIsland (seq 0 (countBelow numIslands)) acc in
  map
    (fun t =>
       if zflag (is_boundary_t mesh) t then int 0
       else
         let p := t_center mesh t in
         let nx := (px p / W)%num in
         let ny := (py p / H)%num in
         let minDist :=
           fold_left
             (fun minDist c =>
                let stretch :=
                  (int 1 + lit 5 10 * noise2D (c_x c) (c_y c))%num in
                let dx := ((nx - c_x c) * stretch)%num in
                let dy := ((ny - c_y c) / stretch)%num in
                let dist := (sqrt (dx * dx + dy * dy) / c_size c)%num in
                Num.min minDist dist)
             continents PosInf in
         let edgeNoise :=
           (noise2D (nx * int 2) (ny * int 2) * lit 4 100
            + noise2D (nx * int 4) (ny * int 4) * lit 2 100
            + noise2D (nx * int 8) (ny * int 8) * lit 1 100)%num in
         let value := (int 1 - minDist + edgeNoise)%num in
         let value := pow (Num.max (int 0) value) (15 # 10) in
         if (value >? Fin (oceanRatio config))%num then value else int 0)
    (triangleIds mesh).

(** [arr[i]] for an index computed as a number. *)
Definition getNumAt (arr : list num) (i : num) : num :=
  match Num.to_index i with
  | Some k => getNum arr k
  | None => NaN
  end.

(** The elevation of the non-boundary triangle [t] before normalisation. *)
Definition rawElevation (mesh : VoronoiMesh) (continentMask : list num)
    (mountainDistance : list num) (noiseData : NoiseData)
    (config : MapConfig) (t : nat) : num :=
  let p := t_center mesh (Z.of_nat t) in
  let nx := (px p / mesh_width mesh)%num in
  let ny := (py p / mesh_height mesh)%num in
  let noiseIndex := Num.rem (Num.floor (nx * int 1024)%num) (int 1024) in
  let terrainNoise := getNumAt (nd_elevation noiseData) noiseIndex in
  let waterValue := getNumAt (nd_waterNoise noiseData) noiseIndex in
  let roughnessValue := getNumAt (nd_roughness noiseData) noiseIndex in
  let mountainDist := getNum mountainDistance t in
  let mountainValue := (int 1 - mountainDist)%num in
  let mountainContribution :=
    (square mountainValue * Fin (mountainHeight config))%num in
  let elevation :=
    (getNum continentMask t * lit 6 10
     + mountainContribution * lit 5 10
     + terrainNoise * roughnessValue * lit 3 10)%num in
  if (waterValue <? lit 3 10)%num
  then (elevation * (waterValue * int 3))%num
  else elevation.

(** The state of the first loop of [generateElevation]: the array and the
    two trackers. *)
Record Elevations : Type := {
  ev_elevation : list num;
  ev_min : num;
  ev_max : num;
}.

Definition elevationStep (mesh : VoronoiMesh) (raw : nat -> num)
    (acc : Elevations) (t : nat) : Elevations :=
  if flag (is_boundary_t mesh) t then
    {| ev_elevation := <[t := int 0]> (ev_elevation acc);
       ev_min := ev_min acc; ev_max := ev_max acc |}
  else
    let elevation := raw t in
    {| ev_elevation := <[t := Num.fround elevation]> (ev_elevation acc);
       ev_min := Num.min (ev_min acc) elevation;
       ev_max := Num.max (ev_max acc) elevation |}.

Definition elevationPass (mesh : VoronoiMesh) (raw : nat -> num) : Elevations :=
  fold_left (elevationStep mesh raw) (seq 0 (numTriangles mesh))
    {| ev_elevation := replicate (numTriangles mesh) (int 0);
       ev_min := PosInf; ev_max := NegInf |}.

Definition normalise (ev : Elevations) : list num :=
  let range := (ev_max ev - ev_min ev)%num in
  if (range >? int 0)%num
  then
    map (fun e => Num.fround ((e - ev_min ev) / range)%num) (ev_elevation ev)
  else ev_elevation ev.

Definition generateElevation (mesh : VoronoiMesh) (continentMask : list num)
    (mountainDistance : list num) (noiseData : NoiseData)
    (config : MapConfig) : list num :=
  normalise
    (elevationPass mesh
       (rawElevation mesh continentMask mountainDistance noiseData config)).

(** ** Climate ([climate.ts]) *)

Definition generateTemperature (mesh : VoronoiMesh) (elevation_t : list num)
    (config : MapConfig) : list num :=
  let sea := Fin (seaLevel config) in
  let noise2D := createSeededNoise2D (seed config ++ "-temperature") in
  map
    (fun t =>
       let nx := (x_of_t mesh t / mesh_width mesh)%num in
       let ny := (y_of_t mesh t / mesh_height mesh)%num in
       let latitude := (Num.abs (ny - lit 5 10) * int 2)%num in
       let temp := (int 1 - pow latitude (12 # 10))%num in
       let elevationAboveSea :=
         Num.max (int 0) (zgetNum elevation_t t - sea)%num in
       let temp := (temp - elevationAboveSea * lit 6 10)%num in
       let temp :=
         if (zgetNum elevation_t t <? sea)%num
         then (temp * lit 8 10 + lit 2 10)%num else temp in
       let noiseVal := (noise2D (nx * int 8) (ny * int 8) * lit 5 100)%num in
       let temp := (temp + noiseVal)%num in
       Num.max (int 0) (Num.min (int 1) temp))
    (triangleIds mesh).

(** [Array.prototype.sort] with a comparator: a stable sort.  [insert x]
    puts [x] in front of the first element it compares below. *)
Fixpoint sortInsert {A} (cmp : A -> A -> num) (x : A) (l : list A) : list A :=
  match l with
  | [] => [x]
  | y :: l' =>
      if (cmp x y <? int 0)%num then x :: y :: l'
      else y :: sortInsert cmp x l'
  end.

Definition sortBy {A} (cmp : A -> A -> num) (l : list A) : list A :=
  fold_left (fun acc x => sortInsert cmp x acc) l [].

Definition windVector (config : MapConfig) : num * num :=
  let windAngleRad :=
    (Fin (windAngleDeg config) * Fin (Math_PI host) / int 180)%num in
  (cos windAngleRad, sin windAngleRad).

Definition calculateWindOrder (mesh : VoronoiMesh) (config : MapConfig)
  : list Z :=
  let '(windX, windY) := windVector config in
  let windProjections :=
    map (fun t => (x_of_t mesh t * windX + y_of_t mesh t * windY)%num)
      (triangleIds mesh) in
  sortBy (fun a b => (zgetNum windProjections a - zgetNum windProjections b)%num)
    (triangleIds mesh).

(** The two arrays that [calculateMoisture] updates. *)
Record Weather : Type := {
  moisture_t : list num;
  rainfall_t : list num;
}.

(** The body of the loop over the neighbours of [t]. *)
Definition moistureFromNeighbor (mesh : VoronoiMesh) (elevation_t : list num)
    (config : MapConfig) (t : Z) (normalizedWindX normalizedWindY : num)
    (w : Weather) (neighbor : Z) : Weather :=
  if (neighbor =? -1)%Z then w
  else
    let dx := (x_of_t mesh t - x_of_t mesh neighbor)%num in
    let dy := (y_of_t mesh t - y_of_t mesh neighbor)%num in
    let dotProduct := (dx * normalizedWindX + dy * normalizedWindY)%num in
    if (dotProduct >? int 0)%num then
      let neighborElevation := zgetNum elevation_t neighbor in
      let currentElevation := zgetNum elevation_t t in
      let m1 :=
        zinsert t
          (zgetNum (moisture_t w) t
           + zgetNum (moisture_t w) neighbor * lit 2 10)%num
          (moisture_t w) in
      if (currentElevation >? neighborElevation)%num then
        let elevationDiff := (currentElevation - neighborElevation)%num in
        let rainfallAmount :=
          (zgetNum m1 neighbor * Fin (raininess config)
           * Num.min (int 1) (elevationDiff * int 5)
           * (if (currentElevation >? Fin (seaLevel config))%num
              then int 1 else lit 3 10))%num in
        let r1 :=
          zinsert t (zgetNum (rainfall_t w) t + rainfallAmount)%num
            (rainfall_t w) in
        if (elevationDiff >? lit 1 10)%num then
          let shadowStrength :=
            Num.min (lit 9 10)
              (Fin (rainShadow config) * elevationDiff * int 2)%num in
          {| moisture_t :=
               zinsert t
                 (zgetNum m1 t - zgetNum m1 neighbor * shadowStrength)%num m1;
             rainfall_t := r1 |}
        else {| moisture_t := m1; rainfall_t := r1 |}
      else {| moisture_t := m1; rainfall_t := rainfall_t w |}
    else w.

(** The body of the loop over the triangles in wind order. *)
Definition moistureStep (mesh : VoronoiMesh) (elevation_t : list num)
    (config : MapConfig) (turbulenceNoise : num -> num -> num)
    (windX windY : num) (w : Weather) (t : Z) : Weather :=
  let sea := Fin (seaLevel config) in
  if zflag (is_boundary_t mesh) t then w
  else if (zgetNum elevation_t t <? sea - lit 1 10)%num then w
  else
    let nx := (x_of_t mesh t / mesh_width mesh)%num in
    let ny := (y_of_t mesh t / mesh_height mesh)%num in
    let turbulence :=
      (turbulenceNoise (nx * int 5) (ny * int 5) * lit 2 10)%num in
    let adjustedWindX := (windX + turbulence * windY)%num in
    let adjustedWindY := (windY - turbulence * windX)%num in
    let windLength :=
      sqrt (adjustedWindX * adjustedWindX + adjustedWindY * adjustedWindY)%num in
    let normalizedWindX := (adjustedWindX / windLength)%num in
    let normalizedWindY := (adjustedWindY / windLength)%num in
    let w :=
      fold_left
        (moistureFromNeighbor mesh elevation_t config t
           normalizedWindX normalizedWindY)
        (neighborsOf mesh t) w in
    let m :=
      zinsert t (Num.max (int 0) (Num.min (int 1) (zgetNum (moisture_t w) t)))
        (moisture_t w) in
    if (zgetNum elevation_t t <? sea)%num then
      {| moisture_t := zinsert t (int 1) m; rainfall_t := rainfall_t w |}
    else if (zgetNum (rainfall_t w) t >? int 0)%num then
      let m :=
        zinsert t
          (zgetNum m t
           + zgetNum (rainfall_t w) t * Fin (evaporation config) * lit 3 10)%num
          m in
      {| moisture_t := zinsert t (Num.min (int 1) (zgetNum m t)) m;
         rainfall_t := rainfall_t w |}
    else {| moisture_t := m; rainfall_t := rainfall_t w |}.

Definition calculateMoisture (mesh : VoronoiMesh) (elevation_t : list num)
    (windOrder : list Z) (config : MapConfig) : Weather :=
  let sea := Fin (seaLevel config) in
  let turbulenceNoise := createSeededNoise2D (seed config ++ "-windturb") in
  let '(windX, windY) := windVector config in
  let start :=
    {| moisture_t :=
         map (fun t => if (zgetNum elevation_t t <? sea)%num
                       then int 1 else lit 1 10)
           (triangleIds mesh);
       rainfall_t := replicate (numTriangles mesh) (int 0) |} in
  let w :=
    fold_left
      (moistureStep mesh elevation_t config turbulenceNoise windX windY)
      windOrder start in
  let maxRainfall := fold_left Num.max (rainfall_t w) (int 0) in
  {| moisture_t := moisture_t w;
     rainfall_t :=
       if (maxRainfall >? int 0)%num
       then map (fun r => (r / maxRainfall)%num) (rainfall_t w)
       else rainfall_t w |}.

(** ** Hydrology ([climate.ts]) *)

(** The first loop of [calculateDownslope]: the lowest neighbour that is
    strictly lower than [t], or [-1]. *)
Definition lowestNeighbor (mesh : VoronoiMesh) (elevation_t : list num)
    (t : Z) : Z :=
  fst
    (fold_left
       (fun (acc : Z * num) neighbor =>
          if (neighbor =? -1)%Z then acc
          else if (zgetNum elevation_t neighbor <? snd acc)%num
          then (neighbor, zgetNum elevation_t neighbor)
          else acc)
       (neighborsOf mesh t) (-1, zgetNum elevation_t t)%Z).

(** [downslope_t[neighbor] !== -1]: an entry outside the array is
    [undefined], which is not [-1]. *)
Definition isDrained (downslope_t : list Z) (t : Z) : bool :=
  match zlookup downslope_t t with
  | Some d => negb (d =? -1)%Z
  | None => true
  end.

(** The loop over the neighbours of [current] in the search for a sink:
    the queue and the neighbour found, after which the loop is left. *)
Definition probeNeighbor (elevation_t : list num) (downslope_t : list Z)
    (visited : list bool) (acc : Queue host * option Z) (neighbor : Z)
  : Queue host * option Z :=
  match snd acc with
  | Some _ => acc
  | None =>
      if (neighbor =? -1)%Z || zflag visited neighbor then acc
      else if isDrained downslope_t neighbor then (fst acc, Some neighbor)
      else (queue_push host neighbor (zgetNum elevation_t neighbor) (fst acc),
            None)
  end.

(** [while (!pathFound && queue.length > 0)]: the triangle found, if any. *)
Fixpoint sinkSearch (fuel : nat) (mesh : VoronoiMesh) (elevation_t : list num)
    (downslope_t : list Z) (queue : Queue host) (visited : list bool)
  : option Z :=
  match fuel with
  | O => None
  | S fuel' =>
      if (0 <? queue_length host queue)%nat then
        match queue_pop host queue with
        | None => None
        | Some (current, queue) =>
            if zflag visited current
            then sinkSearch fuel' mesh elevation_t downslope_t queue visited
            else
              let visited := zinsert current true visited in
              match
                fold_left (probeNeighbor elevation_t downslope_t visited)
                  (neighborsOf mesh current) (queue, None)
              with
              | (_, Some found) => Some found
              | (queue, None) =>
                  sinkSearch fuel' mesh elevation_t downslope_t queue visited
              end
        end
      else None
  end.

(** The second loop of [calculateDownslope] at triangle [t]. *)
Definition resolveSink (mesh : VoronoiMesh) (elevation_t : list num)
    (downslope_t : list Z) (t : Z) : list Z :=
  match zlookup downslope_t t with
  | Some (-1)%Z =>
      match
        sinkSearch (searchFuel mesh) mesh elevation_t downslope_t
          (queue_push host t (int 0) (queue_new host))
          (replicate (numTriangles mesh) false)
      with
      | Some found => zinsert t found downslope_t
      | None => downslope_t
      end
  | _ => downslope_t
  end.

Definition calculateDownslope (mesh : VoronoiMesh) (elevation_t : list num)
  : list Z :=
  fold_left (resolveSink mesh elevation_t) (triangleIds mesh)
    (map (lowestNeighbor mesh elevation_t) (triangleIds mesh)).

(** The result of tracing one river. *)
Inductive Trace : Type :=
| Traced (path : list Z)
| Cyclic
| Unfinished.

Definition zmember (x : Z) (l : list Z) : bool := existsb (Z.eqb x) l.

(** [while (true)] of the river tracing, at most [fuel] rounds.  An entry
    of [downslope_t] outside the array is [undefined]: it is appended to the
    path and met again in the next round, so that the path is rejected. *)
Fixpoint traceRiver (fuel : nat) (mesh : VoronoiMesh) (elevation_t : list num)
    (downslope_t : list Z) (sea : num) (path : list Z) (current : Z) : Trace :=
  match fuel with
  | O => Unfinished
  | S fuel' =>
      match zlookup downslope_t current with
      | None => Cyclic
      | Some next =>
          if (next <? 0)%Z || zflag (is_boundary_t mesh) next then Traced path
          else if (zgetNum elevation_t next <? sea)%num then Traced path
          else if zmember next path then Cyclic
          else
            traceRiver fuel' mesh elevation_t downslope_t sea
              (path ++ [next]) next
      end
  end.

Record Flow : Type := {
  flow_t : list num;
  riverPaths : list RiverPath;
}.

(** The loop that transfers the flow of [t] downstream. *)
Definition accumulateStep (mesh : VoronoiMesh) (downslope_t : list Z)
    (flow : list num) (t : Z) : list num :=
  match zlookup downslope_t t with
  | Some downstream =>
      if (downstream >=? 0)%Z && negb (zflag (is_boundary_t mesh) t)
      then zinsert downstream (zgetNum flow downstream + zgetNum flow t)%num flow
      else flow
  | None => flow
  end.

Definition riverSourceThreshold : num := lit 1 10.
Definition maxRivers : nat := 100.

(** The body of the loop over the river sources. *)
Definition riverFrom (mesh : VoronoiMesh) (elevation_t : list num)
    (downslope_t : list Z) (sea : num) (flow : list num)
    (paths : list RiverPath) (t : Z) : list RiverPath :=
  if (zgetNum elevation_t t >=? sea)%num
     && (zgetNum flow t >=? riverSourceThreshold)%num
     && (zgetNum elevation_t t >? lit 5 10)%num
  then
    match
      traceRiver (S (S (length downslope_t))) mesh elevation_t downslope_t
        sea [t] t
    with
    | Traced path =>
        if (3 <? length path)%nat
        then paths ++ [{| rp_triangles := path; sourceTriangle := t;
                          rp_flow := zgetNum flow t |}]
        else paths
    | _ => paths
    end
  else paths.

(** Nothing in the body of [calculateFlowAccumulation] can throw, and its
    [catch] is not modelled. *)
Definition calculateFlowAccumulation (mesh : VoronoiMesh)
    (elevation_t rainfall : list num) (downslope_t : list Z)
    (config : MapConfig) : Flow :=
  let sea := Fin (seaLevel config) in
  let flow0 :=
    map
      (fun t =>
         if (zgetNum elevation_t t >=? sea)%num then
           let f := (zgetNum rainfall t * Fin (rivers config))%num in
           let elevationAboveSea := (zgetNum elevation_t t - sea)%num in
           if (elevationAboveSea >? lit 5 10)%num
           then (f * (int 1 + (elevationAboveSea - lit 5 10)))%num
           else f
         else int 0)
      (triangleIds mesh) in
  let trianglesByElevation :=
    sortBy (fun a b => (zgetNum elevation_t b - zgetNum elevation_t a)%num)
      (triangleIds mesh) in
  let flow :=
    fold_left (accumulateStep mesh downslope_t) trianglesByElevation flow0 in
  let paths :=
    fold_left (riverFrom mesh elevation_t downslope_t sea flow)
      (triangleIds mesh) [] in
  let sorted := sortBy (fun a b => (rp_flow b - rp_flow a)%num) paths in
  {| flow_t := flow; riverPaths := take maxRivers sorted |}.

(** ** Biomes ([biomes.ts]) *)

(** [hasNeighborBelow]; [None] is the TypeError raised when
    [mesh.neighbors[t]] is [undefined]. *)
Definition hasNeighborBelow (mesh : VoronoiMesh) (t : Z)
    (elevation_t : list num) (sea : num) : option bool :=
  match zlookup (neighbors mesh) t with
  | None => None
  | Some ns =>
      Some (existsb
              (fun neighbor =>
                 negb (neighbor =? -1)%Z
                 && (zgetNum elevation_t neighbor <? sea)%num)
              ns)
  end.

Definition waterBiome (depthRatio : num) : BiomeType :=
  if (depthRatio <? lit 1 10)%num then SHALLOW_WATER
  else if (depthRatio <? lit 3 10)%num then SHALLOW_OCEAN
  else if (depthRatio <? lit 7 10)%num then OCEAN
  else DEEP_OCEAN.

Definition lowlandBiome (moisture temperature : num) : BiomeType :=
  if (temperature <? lit 2 10)%num then
    if (moisture <? lit 4 10)%num then TUNDRA else TAIGA
  else if (temperature <? lit 6 10)%num then
    if (moisture <? lit 3 10)%num then TEMPERATE_DESERT
    else if (moisture <? lit 5 10)%num then GRASSLAND
    else if (moisture <? lit 7 10)%num then TEMPERATE_DECIDUOUS_FOREST
    else TEMPERATE_RAIN_FOREST
  else
    if (moisture <? lit 3 10)%num then SUBTROPICAL_DESERT
    else if (moisture <? lit 5 10)%num then GRASSLAND
    else if (moisture <? lit 7 10)%num then TROPICAL_SEASONAL_FOREST
    else TROPICAL_RAIN_FOREST.

(** The biome of triangle [t]; [None] when the body throws. *)
Definition biomeOf (mesh : VoronoiMesh) (elevation_t moisture temperature_t : list num)
    (sea : num) (t : Z) : option BiomeType :=
  let elevation := zgetNum elevation_t t in
  let moisture := zgetNum moisture t in
  let temperature := zgetNum temperature_t t in
  if zflag (is_boundary_t mesh) t then Some OCEAN
  else if (elevation <? sea)%num then
    Some (waterBiome ((sea - elevation) / sea)%num)
  else
    let elevationAboveSea := (elevation - sea)%num in
    if (elevationAboveSea >? lit 7 10)%num then
      Some (if (temperature <? lit 2 10)%num then SNOW
            else if (temperature <? lit 4 10)%num then TUNDRA
            else MOUNTAIN)
    else if (elevationAboveSea >? lit 4 10)%num then
      Some (if (temperature <? lit 2 10)%num then TUNDRA
            else if (temperature <? lit 5 10)%num then
              if (moisture <? lit 4 10)%num then SHRUBLAND else TAIGA
            else
              if (moisture <? lit 4 10)%num then TEMPERATE_DESERT
              else if (moisture <? lit 7 10)%num
              then TEMPERATE_DECIDUOUS_FOREST
              else TEMPERATE_RAIN_FOREST)
    else
      isCoastal ← hasNeighborBelow mesh t elevation_t sea;
      Some (if isCoastal && (elevationAboveSea <? lit 5 100)%num
            then BEACH
            else lowlandBiome moisture temperature).

(** [assignBiomes]: when the loop throws, the [catch] returns an array
    filled with OCEAN. *)
Definition assignBiomes (mesh : VoronoiMesh)
    (elevation_t moisture temperature_t : list num) (sea : num)
  : list BiomeType :=
  match
    mapM (biomeOf mesh elevation_t moisture temperature_t sea)
      (triangleIds mesh)
  with
  | Some biomes_t => biomes_t
  | None => replicate (numTriangles mesh) OCEAN
  end.

(** ** Rasterisation *)

(** [Array(n)]: a RangeError unless [n] is an integer in [0, 2^32). *)
Definition arrayLength (n : Q) : Outcome nat :=
  if Qeq_bool n (inject_Z (Qfloor n))
     && (0 <=? Qfloor n)%Z && (Qfloor n <? 2 ^ 32)%Z
  then Returns (Z.to_nat (Qfloor n))
  else Throws (RangeError "Invalid array length").

(** [Array(height).fill(0).map(() => Array(width).fill(0))]: the numbers of
    columns and rows.  [Array(width)] is evaluated once per row. *)
Definition gridSize (W H : Q) : Outcome (nat * nat) :=
  h ← arrayLength H;
  if (h =? 0)%nat then Returns (0, 0)%nat
  else w ← arrayLength W; Returns (w, h).

Definition hashCell : nat := 20.

(** The spatial hash: the triangles of each cell, in increasing order. *)
Definition insertTriangle (mesh : VoronoiMesh) (gridWidth gridHeight : nat)
    (hash : list (list (list Z))) (t : Z) : list (list (list Z)) :=
  let cx := Num.floor (x_of_t mesh t / Num.of_nat hashCell)%num in
  let cy := Num.floor (y_of_t mesh t / Num.of_nat hashCell)%num in
  match Num.to_index cx, Num.to_index cy with
  | Some cx, Some cy =>
      if (cx <? gridWidth)%nat && (cy <? gridHeight)%nat then
        match hash !! cy with
        | Some row =>
            <[cy := <[cx := default [] (row !! cx) ++ [t]]> row]> hash
        | None => hash
        end
      else hash
  | _, _ => hash
  end.

Definition spatialHash (mesh : VoronoiMesh) (gridWidth gridHeight : nat)
  : list (list (list Z)) :=
  fold_left (insertTriangle mesh gridWidth gridHeight) (triangleIds mesh)
    (replicate gridHeight (replicate gridWidth [])).

(** The indices [max 0 (c - 1) .. min (n - 1) (c + 1)]. *)
Definition around (c n : nat) : list nat :=
  let lo := (c - 1)%nat in
  let hi := Nat.min (n - 1) (c + 1) in
  seq lo (S hi - lo).

(** The search, repeated in each rasteriser, for the triangle whose centre
    is closest to the pixel (x, y). *)
Definition closestTriangle (mesh : VoronoiMesh) (hash : list (list (list Z)))
    (gridWidth gridHeight : nat) (x y : nat) : Z :=
  let cx := (x / hashCell)%nat in
  let cy := (y / hashCell)%nat in
  let candidates :=
    flat_map
      (fun ny =>
         flat_map
           (fun nx => default [] (default [] (hash !! ny) !! nx))
           (around cx gridWidth))
      (around cy gridHeight) in
  snd
    (fold_left
       (fun (acc : num * Z) t =>
          let dx := (x_of_t mesh t - Num.of_nat x)%num in
          let dy := (y_of_t mesh t - Num.of_nat y)%num in
          let distSquared := (dx * dx + dy * dy)%num in
          if (distSquared <? fst acc)%num then (distSquared, t) else acc)
       candidates (PosInf, 0%Z)).

(** The grid that holds, at each pixel, [values[closestT]]. *)
Definition rasterize {A} (mesh : VoronoiMesh) (values : list A) (W H : Q)
  : Outcome (list (list (option A))) :=
  '(w, h) ← gridSize W H;
  let gridWidth := ((w + 19) / hashCell)%nat in
  let gridHeight := ((h + 19) / hashCell)%nat in
  let hash := spatialHash mesh gridWidth gridHeight in
  Returns
    (map
       (fun y =>
          map
            (fun x =>
               zlookup values
                 (closestTriangle mesh hash gridWidth gridHeight x y))
            (seq 0 w))
       (seq 0 h)).

Definition rasterizeElevation (mesh : VoronoiMesh) (elevation_t : list num)
    (W H : Q) : Outcome (list (list (option num))) :=
  rasterize mesh elevation_t W H.

Definition rasterizeClimate (mesh : VoronoiMesh)
    (moisture temperature_t : list num) (W H : Q)
  : Outcome (list (list (option num)) * list (list (option num))) :=
  m ← rasterize mesh moisture W H;
  t ← rasterize mesh temperature_t W H;
  Returns (m, t).

Definition rasterizeBiomes (mesh : VoronoiMesh) (biomes_t : list BiomeType)
    (W H : Q) : Outcome (list (list (option BiomeType))) :=
  rasterize mesh biomes_t W H.

(** The integers [lo .. hi]. *)
Definition zrange (lo hi : Z) : list Z :=
  map (fun k => (lo + Z.of_nat k)%Z) (seq 0 (Z.to_nat (hi - lo + 1))).

Definition gridGet (grid : list (list num)) (x y : Z) : num :=
  zgetNum (default [] (zlookup grid y)) x.

Definition gridSet (grid : list (list num)) (x y : Z) (v : num)
  : list (list num) :=
  match zlookup grid y with
  | Some row => zinsert y (zinsert x v row) grid
  | None => grid
  end.

(** The two loops that stamp a disk of radius [radius] around (x, y). *)
Definition paintDisk (w h : nat) (x y : Z) (scaledWidth : num) (radius : Z)
    (grid : list (list num)) : list (list num) :=
  fold_left
    (fun grid dy =>
       fold_left
         (fun grid dx =>
            let nx := (x + dx)%Z in
            let ny := (y + dy)%Z in
            if (nx <? 0)%Z || (nx >=? Z.of_nat w)%Z
               || (ny <? 0)%Z || (ny >=? Z.of_nat h)%Z
            then grid
            else
              let dist := sqrt (Num.of_Z (dx * dx + dy * dy)) in
              if (dist <=? scaledWidth)%num then
                let intensity := pow (int 1 - dist / scaledWidth)%num (8 # 10) in
                gridSet grid nx ny
                  (Num.max (gridGet grid nx ny) (intensity * scaledWidth)%num)
              else grid)
         (zrange (- radius) radius) grid)
    (zrange (- radius) radius) grid.

(** The body of the loop over the triangles of one river.  An infinite
    radius makes the loops of the source run for ever.  For a triangle
    whose centre is not in the cache the accessor of the source raises a
    TypeError, and for a centre whose y coordinate is NaN the store into
    the row [NaN] of the grid does; no triangle of a triangulation of the
    sampled points is one, and the model leaves the grid as it is there. *)
Definition paintRiverPoint (mesh : VoronoiMesh) (config : MapConfig)
    (w h : nat) (flow : num) (len : nat)
    (acc : Outcome (list (list num))) (it : nat * Z)
  : Outcome (list (list num)) :=
  grid ← acc;
  let '(i, t) := it in
  let positionFactor := (Num.of_nat i / Num.of_nat len)%num in
  let accumulatedFlow := (flow * (lit 2 10 + lit 8 10 * positionFactor))%num in
  match Num.floor (x_of_t mesh t), Num.floor (y_of_t mesh t) with
  | Fin x, Fin y =>
      let x := Qfloor x in
      let y := Qfloor y in
      if (x <? 0)%Z || (x >=? Z.of_nat w)%Z
         || (y <? 0)%Z || (y >=? Z.of_nat h)%Z
      then Returns grid
      else
        let scaledWidth :=
          Num.max (int 1)
            (log (int 1 + accumulatedFlow * int 10)
             * Fin (riverWidth config) * int 5)%num in
        match Num.max (int 1) (Num.ceil scaledWidth) with
        | Fin radius => Returns (paintDisk w h x y scaledWidth (Qfloor radius) grid)
        | PosInf => Diverges
        | _ => Returns grid
        end
  | _, _ => Returns grid
  end.

Definition rasterizeRivers (mesh : VoronoiMesh) (paths : list RiverPath)
    (W H : Q) (config : MapConfig) : Outcome (list (list num)) :=
  '(w, h) ← gridSize W H;
  fold_left
    (fun acc path =>
       let ts := rp_triangles path in
       if (length ts <? 2)%nat then acc
       else
         fold_left
           (paintRiverPoint mesh config w h (rp_flow path) (length ts))
           (imap (fun i t => (i, t)) ts) acc)
    paths (Returns (replicate h (replicate w (int 0)))).

(** ** The generator ([index.ts]) *)

Definition generateMap (config : MapConfig) (random : Ambient)
  : Outcome MapData :=
  let W := width config in
  let H := height config in
  (* 1. Generate points and create mesh *)
  let '(pointsData, draws) := generatePoints config random 0 in
  mesh ← createMesh pointsData (Fin W) (Fin H);
  (* 2. Generate elevation data (terrain) *)
  let noiseData := precalculateNoise config in
  let '((distances, peaks), draws) :=
    calculateMountainDistance mesh config random draws in
  let continentMask := generateContinentMask mesh config noiseData in
  let elevation_t :=
    generateElevation mesh continentMask distances noiseData config in
  (* 3. Generate climate (temperature and moisture) *)
  let temperature_t := generateTemperature mesh elevation_t config in
  let windOrder := calculateWindOrder mesh config in
  let weather := calculateMoisture mesh elevation_t windOrder config in
  (* 4. Generate rivers *)
  let downslope_t := calculateDownslope mesh elevation_t in
  let flow :=
    calculateFlowAccumulation mesh elevation_t (rainfall_t weather)
      downslope_t config in
  (* 5. Assign biomes *)
  let biomes_t :=
    assignBiomes mesh elevation_t (moisture_t weather) temperature_t
      (Fin (seaLevel config)) in
  (* 6. Rasterize all data to regular grids *)
  elevation ← rasterizeElevation mesh elevation_t W H;
  climateGrids ← rasterizeClimate mesh (moisture_t weather) temperature_t W H;
  riverGrid ← rasterizeRivers mesh (riverPaths flow) W H config;
  biomeGrid ← rasterizeBiomes mesh biomes_t W H;
  Returns
    {| md_width := W;
       md_height := H;
       md_elevation := elevation;
       md_moisture := fst climateGrids;
       md_temperature := snd climateGrids;
       md_biomes := biomeGrid;
       md_rivers := riverGrid |}.

End Pipeline.

(** ** The helpers of the renderer ([mapRenderer.ts])

    Strings are strings of 8-bit characters, as for the seed. *)

(** The value of a character of the class [[a-f\d]] under the flag [i]. *)
Definition hexDigit (c : ascii) : option Z :=
  let n := Z.of_nat (nat_of_ascii c) in
  if (48 <=? n)%Z && (n <=? 57)%Z then Some (n - 48)%Z
  else if (97 <=? n)%Z && (n <=? 102)%Z then Some (n - 87)%Z
  else if (65 <=? n)%Z && (n <=? 70)%Z then Some (n - 55)%Z
  else None.

(** [parseInt(group, 16)] on a group of two such characters. *)
Definition parseHexPair (a b : ascii) : option Z :=
  hi ← hexDigit a; lo ← hexDigit b; Some (16 * hi + lo)%Z.

(** [hexToRgb]: the match of
    [/^#?([a-f\d]{2})([a-f\d]{2})([a-f\d]{2})$/i], or [[0, 0, 0]]. *)
Definition hexToRgb (hex : string) : Z * Z * Z :=
  let body :=
    match hex with
    | String "#" rest => rest
    | _ => hex
    end in
  match body with
  | String r1 (String r2 (String g1 (String g2
      (String b1 (String b2 EmptyString))))) =>
      match parseHexPair r1 r2, parseHexPair g1 g2, parseHexPair b1 b2 with
      | Some r, Some g, Some b => (r, g, b)
      | _, _, _ => (0, 0, 0)%Z
      end
  | _ => (0, 0, 0)%Z
  end.

(** [Math.round]: the nearest integer, a tie going up. *)
Definition round (a : num) : num :=
  match a with
  | Fin q => Fin (inject_Z (Qfloor (q + (1 # 2))))
  | _ => a
  end.

(** [toString(16)] of a number that [Math.round] returns. *)
Definition toString16 (a : num) : string :=
  match a with
  | NaN => "NaN"
  | PosInf => "Infinity"
  | NegInf => "-Infinity"
  | Fin q => HexadecimalString.NilZero.string_of_int (Z.to_hex_int (Qfloor q))
  end.

(** [padStart(2, "0")]. *)
Definition padStart2 (s : string) : string :=
  match String.length s with
  | 0%nat => "00"
  | 1%nat => "0" ++ s
  | _ => s
  end.

Definition rgbToHex (r g b : num) : string :=
  "#" ++ padStart2 (toString16 (round r))
      ++ padStart2 (toString16 (round g))
      ++ padStart2 (toString16 (round b)).

(** [base * (1 - alpha) + overlay * alpha] on doubles: each of the four
    operations rounds its result, and the rounding decides which way
    [Math.round] goes at a half. *)
Definition mix (base overlay : Z) (alpha : num) : num :=
  Num.double
    (Num.double (int base * Num.double (int 1 - alpha))
     + Num.double (int overlay * alpha))%num.

Definition blendColors (baseColor overlayColor : string) (alpha : num)
  : string :=
  let '(r0, g0, b0) := hexToRgb baseColor in
  let '(r1, g1, b1) := hexToRgb overlayColor in
  let r := mix r0 r1 alpha in
  let g := mix g0 g1 alpha in
  let b := mix b0 b1 alpha in
  rgbToHex r g b.

(** [elevation[y][x]]: a TypeError when the row is missing, and
    [undefined], which is NaN in the arithmetic, when the cell is. *)
Definition cellAt (elevation : list (list num)) (x y : Z) : Outcome num :=
  match zlookup elevation y with
  | Some row => Returns (zgetNum row x)
  | None => Throws (TypeError "Cannot read properties of undefined")
  end.

Definition calculateHillshade (host : Host) (x y : Z)
    (elevation : list (list num)) (width height : Z)
    (lightDir : num * num * num) : Outcome num :=
  if (x <=? 0)%Z || (y <=? 0)%Z || (x >=? width - 1)%Z
     || (y >=? height - 1)%Z
  then Returns (int 1)
  else
    z ← cellAt elevation x y;
    zLeft ← cellAt elevation (x - 1) y;
    zRight ← cellAt elevation (x + 1) y;
    zUp ← cellAt elevation x (y - 1);
    zDown ← cellAt elevation x (y + 1);
    let scale := lit 15 100 in
    let dzdx := ((zRight - zLeft) * scale)%num in
    let dzdy := ((zDown - zUp) * scale)%num in
    let n0 := Num.neg dzdx in
    let n1 := Num.neg dzdy in
    let n2 := int 1 in
    let length := sqrt host (n0 * n0 + n1 * n1 + n2 * n2)%num in
    let n0 := (n0 / length)%num in
    let n1 := (n1 / length)%num in
    let n2 := (n2 / length)%num in
    let '(l0, l1, l2) := lightDir in
    let dotProduct := (n0 * l0 + n1 * l1 + n2 * l2)%num in
    Returns (Num.max (int 0) (Num.min (int 1) dotProduct)).

(** ** The names of the biomes ([biomes.ts]) *)

(** The value of a member of the enumeration [BiomeType] ([types.ts]). *)
Definition biomeCode (b : BiomeType) : Z :=
  match b with
  | OCEAN => 0 | DEEP_OCEAN => 1 | SHALLOW_OCEAN => 2 | SHALLOW_WATER => 3
  | BEACH => 4
  | SNOW => 5 | TUNDRA => 6 | TAIGA => 7
  | GRASSLAND => 8 | SHRUBLAND => 9 | TEMPERATE_DECIDUOUS_FOREST => 10
  | TEMPERATE_RAIN_FOREST => 11 | TEMPERATE_DESERT => 12
  | SUBTROPICAL_DESERT => 13 | TROPICAL_SEASONAL_FOREST => 14
  | TROPICAL_RAIN_FOREST => 15
  | MOUNTAIN => 16 | BARE => 17 | SCORCHED => 18
  end%Z.

Definition getBiomeName (biomeCode : Z) : string :=
  match biomeCode with
  | 0%Z => "Ocean"
  | 1%Z => "Deep Ocean"
  | 2%Z => "Shallow Ocean"
  | 3%Z => "Shallow Water"
  | 4%Z => "Beach"
  | 18%Z => "Scorched"
  | 17%Z => "Bare"
  | 6%Z => "Tundra"
  | 5%Z => "Snow"
  | 12%Z => "Temperate Desert"
  | 13%Z => "Subtropical Desert"
  | 8%Z => "Grassland"
  | 9%Z => "Shrubland"
  | 7%Z => "Taiga"
  | 10%Z => "Temperate Deciduous Forest"
  | 11%Z => "Temperate Rain Forest"
  | 14%Z => "Tropical Seasonal Forest"
  | 15%Z => "Tropical Rain Forest"
  | 16%Z => "Mountain"
  | _ => "Unknown"
  end.

Definition convertBiomeCodesToNames (biomeGrid : list (list Z))
  : list (list string) :=
  map (map getBiomeName) biomeGrid.

(** ** A host to evaluate the model with

    The queue serves the entries in order of value, and entries of equal
    value in the order of their insertion.  The square root is exact on
    squares of rationals; the other functions are rational approximations
    that are exact at 0 (cosine, sine) and at 1 (logarithm, power).  The
    noise field is flat.  [hostReturning tris hes] is the host whose
    Delaunator returns the triangulation [(tris, hes)]. *)

Module EvalHost.

Definition ListQueue : Type := list (Z * num).

Definition lq_push (id : Z) (value : num) (q : ListQueue) : ListQueue :=
  q ++ [(id, value)].

(** The position of the first entry of least value. *)
Fixpoint lq_best (q : ListQueue) (i : nat) (best : nat * num) : nat :=
  match q with
  | [] => fst best
  | (_, v) :: q' =>
      lq_best q' (S i) (if (v <? snd best)%num then (i, v) else best)
  end.

Definition lq_pop (q : ListQueue) : option (Z * ListQueue) :=
  match q with
  | [] => None
  | (_, v) :: q' =>
      let i := lq_best q' 1 (0%nat, v) in
      match q !! i with
      | Some (id, _) => Some (id, delete i q)
      | None => None
      end
  end.

Definition sqrtQ (q : Q) : Q :=
  let r := Qred q in
  let n := Qnum r in
  let d := Zpos (Qden r) in
  if ((Z.sqrt n * Z.sqrt n =? n) && (Z.sqrt d * Z.sqrt d =? d))%Z
  then Z.sqrt n # Z.to_pos (Z.sqrt d)
  else Z.sqrt (n * 10 ^ 24 / d) # 10 ^ 12.

Definition cosQ (x : Q) : Q := Qred (1 - x * x / 2 + x * x * x * x / 24).
Definition sinQ (x : Q) : Q := Qred (x - x * x * x / 6 + x * x * x * x * x / 120).
Definition logQ (x : Q) : Q :=
  let u := (x - 1) / (x + 1) in Qred (2 * (u + u * u * u / 3)).
Definition powQ (x e : Q) : Q :=
  if Qeq_bool x 0 then 0 else Qred (1 + e * (x - 1)).

Definition flatNoise (_ : nat -> num) (_ _ : num) : num := Fin 0.

Definition hostReturning (tris : list nat) (hes : list Z) : Host :=
  {| Math_sqrt := sqrtQ;
     Math_pow := powQ;
     Math_cos := cosQ;
     Math_sin := sinQ;
     Math_log := logQ;
     Math_PI := 355 # 113;
     createNoise2D := flatNoise;
     Delaunator := fun _ => inr (tris, hes);
     Queue := ListQueue;
     queue_new := [];
     queue_push := lq_push;
     queue_pop := lq_pop;
     queue_length := @length (Z * num) |}.

End EvalHost.

(** ** Notions used in the statements *)

(** The configuration [c] with its field [riverMinFlow] replaced. *)
Definition set_riverMinFlow (v : Q) (c : MapConfig) : MapConfig :=
  {| seed := seed c; width := width c; height := height c;
     seaLevel := seaLevel c; biomeDensity := biomeDensity c;
     mountainFrequency := mountainFrequency c;
     hillFrequency := hillFrequency c; islandFrequency := islandFrequency c;
     pointDeviation := pointDeviation c; oceanRatio := oceanRatio c;
     jaggedness := jaggedness c; mountainHeight := mountainHeight c;
     windAngleDeg := windAngleDeg c; raininess := raininess c;
     rainShadow := rainShadow c; evaporation := evaporation c;
     riverWidth := riverWidth c; rivers := rivers c; riverMinFlow := v;
     showVoronoi := showVoronoi c; lighting := lighting c |}.

(** The loop of [createMesh] over the first [k] halfedges. *)
Definition meshLoop (hes : list Z) (numT k : nat)
  : Outcome (list bool * list (list Z)) :=
  fold_left (fun acc e => meshStep hes e acc) (seq 0 k)
    (Returns (replicate numT false, replicate numT [-1; -1; -1]%Z)).

(** The entry that this loop leaves in slot [j] of triangle [t]. *)
Definition slotAfter (hes : list Z) (k t j : nat) : Z :=
  match hes !! (3 * t + j)%nat with
  | Some o => if (0 <=? o)%Z && (3 * t + j <? k)%nat then (o / 3)%Z else (-1)%Z
  | None => (-1)%Z
  end.

(** A non-boundary triangle of the mesh. *)
Definition interior (mesh : VoronoiMesh) (t : nat) : Prop :=
  (t < numTriangles mesh)%nat /\ flag (is_boundary_t mesh) t = false.

(** The first loop of [generateElevation] over the first [k] triangles. *)
Definition passUpTo (mesh : VoronoiMesh) (raw : nat -> num) (k : nat)
  : Elevations :=
  fold_left (elevationStep mesh raw) (seq 0 k)
    {| ev_elevation := replicate (numTriangles mesh) (int 0);
       ev_min := PosInf; ev_max := NegInf |}.

(** The coordinates of a point, in lowest terms. *)
Definition coordinates (p : Point) : num * num :=
  (Num.normal (px p), Num.normal (py p)).

Definition minimum (l : list num) : num := fold_left Num.min l PosInf.

(** Every entry of the path but the first is the downslope of the entry
    before it. *)
Definition Linked (downslope_t : list Z) (path : list Z) : Prop :=
  forall i a b, path !! i = Some a -> path !! S i = Some b ->
    zlookup downslope_t a = Some b.

(** The triangle reached from [t] after [k] steps along [downslope_t]. *)
Fixpoint follow (downslope_t : list Z) (k : nat) (t : Z) : option Z :=
  match k with
  | O => Some t
  | S k' =>
      match zlookup downslope_t t with
      | Some next => if (next <? 0)%Z then None else follow downslope_t k' next
      | None => None
      end
  end.

(** The chain from [t] reaches a below-sea triangle or a boundary
    triangle. *)
Definition drainsOut (mesh : VoronoiMesh) (elevation_t : list num)
    (sea : num) (downslope_t : list Z) (t : Z) : Prop :=
  exists k u, follow downslope_t k t = Some u /\
    (zflag (is_boundary_t mesh) u = true
     \/ (zgetNum elevation_t u <? sea)%num = true).


(** The entries that the triangles not yet visited can still push. *)
Fixpoint pending (nbrs : list (list Z)) (visited : list bool) : nat :=
  match nbrs, visited with
  | row :: nbrs, v :: visited =>
      (if v then 0 else length row) + pending nbrs visited
  | _, _ => 0
  end.

(** A grid all of whose cells hold [v]. *)
Definition constGrid {A} (w h : nat) (v : A) : list (list A) :=
  replicate h (replicate w v).

(** A point of the rectangle [0, W] x [0, H]. *)
Definition inMap (W H : Q) (p : Point) : Prop :=
  exists x y, px p = Fin x /\ py p = Fin y
              /\ 0 <= x /\ x <= W /\ 0 <= y /\ y <= H.

(** A point of the border of this rectangle. *)
Definition onBorder (W H : Q) (p : Point) : Prop :=
  exists x y, px p = Fin x /\ py p = Fin y
              /\ 0 <= x /\ x <= W /\ 0 <= y /\ y <= H
              /\ (x == 0 \/ x == W \/ y == 0 \/ y == H).

(** A counter of a loop that is a number at least [lo], or at most [hi]. *)
Definition atLeast (lo : Q) (x : num) : Prop := exists q, x = Fin q /\ lo <= q.
Definition atMost (hi : Q) (x : num) : Prop := exists q, x = Fin q /\ q <= hi.

(** [Number.isFinite]. *)
Definition isFiniteNum (a : num) : bool :=
  match a with
  | Fin _ => true
  | _ => false
  end.

(** A value of a field that is clamped to [0, 1]: a number of [0, 1], or
    NaN. *)
Definition unitOrNaN (v : num) : Prop :=
  v = NaN \/ exists q, v = Fin q /\ 0 <= q /\ q <= 1.

(** A triangle that a river may run through: not on the boundary and not
    below the sea level. *)
Definition onLand (mesh : VoronoiMesh) (elevation_t : list num) (sea : num)
    (u : Z) : Prop :=
  zflag (is_boundary_t mesh) u = false
  /\ (zgetNum elevation_t u <? sea)%num = false.

(** The four biomes of the water. *)
Definition isWaterBiome (b : BiomeType) : bool :=
  match b with
  | OCEAN | DEEP_OCEAN | SHALLOW_OCEAN | SHALLOW_WATER => true
  | _ => false
  end.

(** A triangle whose centre is in the cache of the mesh, with finite
    coordinates. *)
Definition centred (mesh : VoronoiMesh) (t : Z) : Prop :=
  exists x y,
    zlookup (triangleCenters mesh) t = Some {| px := Fin x; py := Fin y |}.

(** [c] is the mean of the channels [c0] and [c1] with the weight [alpha],
    rounded: an integer of [0, 255] that is within 1/2, and the rounding
    errors of the operations on doubles, of the mean. *)
Definition blendOf (alpha : Q) (c0 c1 c : Z) : Prop :=
  (0 <= c <= 255)%Z /\
  Qabs (inject_Z c - (inject_Z c0 * (1 - alpha) + inject_Z c1 * alpha))
  <= (1 # 2) + (1 # 1000000000).

(** A grid of [h] rows of [w] cells. *)
Definition hasSize {A} (w h : nat) (grid : list (list A)) : Prop :=
  length grid = h /\ Forall (fun row => length row = w) grid.

(** The triangles that the search for the closest triangle looks at: those
    of the cell of the pixel and of the cells around it. *)
Definition candidatesAt (hash : list (list (list Z)))
    (gridWidth gridHeight : nat) (x y : nat) : list Z :=
  flat_map
    (fun ny =>
       flat_map
         (fun nx => default [] (default [] (hash !! ny) !! nx))
         (around (x / hashCell) gridWidth))
    (around (y / hashCell) gridHeight).

(** The squared distance from the centre of [t] to the pixel (x, y). *)
Definition distSquaredTo (mesh : VoronoiMesh) (x y : nat) (t : Z) : num :=
  let dx := (x_of_t mesh t - Num.of_nat x)%num in
  let dy := (y_of_t mesh t - Num.of_nat y)%num in
  (dx * dx + dy * dy)%num.

(** The two characters that [rgbToHex] writes for the integer [n], read
    back. *)
Definition channelRoundTrip (n : nat) : bool :=
  match padStart2 (toString16 (int (Z.of_nat n))) with
  | String a (String b EmptyString) =>
      bool_decide (parseHexPair a b = Some (Z.of_nat n))
  | _ => false
  end.

(** ** Inputs used in the examples *)

Module Examples.

(** A configuration for a 64 x 48 map with sea level 0.4 and the wind
    blowing along the x axis; the cell size is 5. *)
Definition baseConfig : MapConfig :=
  {| seed := "alpha"; width := 64; height := 48; seaLevel := 4 # 10;
     biomeDensity := 12 # 10; mountainFrequency := 3 # 10;
     hillFrequency := 6 # 10; islandFrequency := 4 # 10;
     pointDeviation := 4 # 10; oceanRatio := 3 # 10; jaggedness := 6 # 10;
     mountainHeight := 8 # 10; windAngleDeg := 0; raininess := 5 # 10;
     rainShadow := 7 # 10; evaporation := 5 # 10; riverWidth := 1;
     rivers := 5 # 10; riverMinFlow := 2 # 100; showVoronoi := false;
     lighting := {| enabled := true; azimuth := 315; angle := 45;
                    intensity := 5 # 10 |} |}.

Definition withSize (W H density : Q) (c : MapConfig) : MapConfig :=
  {| seed := seed c; width := W; height := H;
     seaLevel := seaLevel c; biomeDensity := density;
     mountainFrequency := mountainFrequency c;
     hillFrequency := hillFrequency c; islandFrequency := islandFrequency c;
     pointDeviation := pointDeviation c; oceanRatio := oceanRatio c;
     jaggedness := jaggedness c; mountainHeight := mountainHeight c;
     windAngleDeg := windAngleDeg c; raininess := raininess c;
     rainShadow := rainShadow c; evaporation := evaporation c;
     riverWidth := riverWidth c; rivers := rivers c;
     riverMinFlow := riverMinFlow c;
     showVoronoi := showVoronoi c; lighting := lighting c |}.

Definition withSeed (s : string) (c : MapConfig) : MapConfig :=
  {| seed := s; width := width c; height := height c;
     seaLevel := seaLevel c; biomeDensity := biomeDensity c;
     mountainFrequency := mountainFrequency c;
     hillFrequency := hillFrequency c; islandFrequency := islandFrequency c;
     pointDeviation := pointDeviation c; oceanRatio := oceanRatio c;
     jaggedness := jaggedness c; mountainHeight := mountainHeight c;
     windAngleDeg := windAngleDeg c; raininess := raininess c;
     rainShadow := rainShadow c; evaporation := evaporation c;
     riverWidth := riverWidth c; rivers := rivers c;
     riverMinFlow := riverMinFlow c;
     showVoronoi := showVoronoi c; lighting := lighting c |}.



(** A 64 x 48 map sampled with cell size 200 (density 0.00075): the only
    point sampled is the corner (0, 0). *)
Definition sparseConfig : MapConfig := withSize 64 48 (75 # 100000) baseConfig.

(** A map of width zero with an empty seed. *)
Definition invalidConfig : MapConfig :=
  withSeed EmptyString (withSize 0 48 (12 # 10) baseConfig).

(** Two runs of [Math.random]. *)
Definition lowDraws : Ambient := fun _ => 0.
Definition highDraws : Ambient := fun _ => 3 # 4.

(** The host whose Delaunator finds no triangle, as Delaunator does for
    fewer than three points. *)
Definition degenerateHost : Host := EvalHost.hostReturning [] [].

(** The lattice of 6 x 6 points with unit spacing, each square split along
    its diagonal into two counter-clockwise triangles: a Delaunay
    triangulation of the lattice, in the format of Delaunator. *)
Definition gridPoints : list Point :=
  map (fun k => {| px := Num.of_nat (k mod 6); py := Num.of_nat (k / 6) |})%nat
    (seq 0 36).

Definition gridTriangles : list nat :=
  [0; 1; 7; 0; 7; 6; 1; 2; 8; 1; 8; 7; 2; 3; 9; 2; 9; 8; 3; 4; 10; 3; 10;
   9; 4; 5; 11; 4; 11; 10; 6; 7; 13; 6; 13; 12; 7; 8; 14; 7; 14; 13; 8; 9;
   15; 8; 15; 14; 9; 10; 16; 9; 16; 15; 10; 11; 17; 10; 17; 16; 12; 13; 19;
   12; 19; 18; 14; 21; 20; 13; 20; 19; 14; 15; 21; 13; 14; 20; 15; 16; 22;
   15; 22; 21; 16; 17; 23; 16; 23; 22; 18; 19; 25; 18; 25; 24; 19; 20; 26;
   19; 26; 25; 20; 21; 27; 20; 27; 26; 21; 22; 28; 21; 28; 27; 22; 23; 29;
   22; 29; 28; 24; 25; 31; 24; 31; 30; 25; 26; 32; 25; 32; 31; 26; 27; 33;
   26; 33; 32; 27; 28; 34; 27; 34; 33; 28; 29; 35; 28; 35; 34]%nat.

Definition gridHalfedges : list Z :=
  [-1; 11; 3; 2; 30; -1; -1; 17; 9; 8; 36; 1; -1; 23; 15; 14; 42; 7; -1;
   29; 21; 20; 48; 13; -1; -1; 27; 26; 54; 19; 4; 41; 33; 32; 60; -1; 10;
   47; 39; 38; 75; 31; 16; 53; 45; 44; 72; 37; 22; 59; 51; 50; 78; 43; 28;
   -1; 57; 56; 84; 49; 34; 71; 63; 62; 90; -1; 74; 102; 76; 77; 96; 61; 46;
   83; 66; 40; 68; 69; 52; 89; 81; 80; 108; 73; 58; -1; 87; 86; 114; 79;
   64; 101; 93; 92; 120; -1; 70; 107; 99; 98; 126; 91; 67; 113; 105; 104;
   132; 97; 82; 119; 111; 110; 138; 103; 88; -1; 117; 116; 144; 109; 94;
   131; 123; 122; -1; -1; 100; 137; 129; 128; -1; 121; 106; 143; 135; 134;
   -1; 127; 112; 149; 141; 140; -1; 133; 118; -1; 147; 146; -1; 139]%Z.

Definition gridHost : Host :=
  EvalHost.hostReturning gridTriangles gridHalfedges.

Definition gridPointsData : PointsData :=
  {| points := gridPoints; mountainPoints := [] |}.

Definition emptyMesh : VoronoiMesh :=
  {| mesh_points := []; triangles := []; halfedges := []; numPoints := 0;
     numTriangles := 0; numHalfedges := 0; is_boundary_t := [];
     mesh_width := int 0; mesh_height := int 0; neighbors := [];
     triangleCenters := [] |}.

(** The mesh that [createMesh] builds from the lattice: 50 triangles, 18 of
    them on the boundary. *)
Definition gridMesh : VoronoiMesh :=
  Eval vm_compute in
    match createMesh gridHost gridPointsData (int 5) (int 5) with
    | Returns m => m
    | _ => emptyMesh
    end.

(** Elevation 0 on the boundary triangles, the listed elevation on the
    listed triangles, and 1 elsewhere. *)
Definition elevationOf (special : list (nat * Q)) (mesh : VoronoiMesh)
  : list num :=
  imap
    (fun t (b : bool) =>
       if b then int 0
       else match list_find (fun p => fst p = t) special with
            | Some (_, (_, q)) => Fin q
            | None => int 1
            end)
    (is_boundary_t mesh).

(** A crater: the pit 24 at 0.5 inside the ring 15, 22, 27 at 0.6, in a
    highland at 1. *)
Definition craterElevation : list num :=
  elevationOf [(24, 5 # 10); (15, 6 # 10); (22, 6 # 10); (27, 6 # 10)]%nat
    gridMesh.

(** A plateau: the triangles 22, 24, 25, 34 and 15 at 0.9, and a valley
    from 15 down through 14 (0.8) and 5 (0.7) to the boundary. *)
Definition plateauElevation : list num :=
  elevationOf
    [(22, 9 # 10); (24, 9 # 10); (25, 9 # 10); (34, 9 # 10); (15, 9 # 10);
     (14, 8 # 10); (5, 7 # 10)]%nat gridMesh.

Definition sea : num := lit 4 10.

(** A lake: the triangle 24 at 0.3, below the sea level 0.4. *)
Definition lakeElevation : list num := elevationOf [(24, 3 # 10)]%nat gridMesh.

(** Moisture and temperature 0.5 everywhere. *)
Definition mild : list num := replicate 50 (lit 5 10).

Definition craterDownslope : list Z :=
  Eval vm_compute in calculateDownslope gridHost gridMesh craterElevation.

(** Every triangle receives the rainfall 1. *)
Definition evenRainfall : list num := replicate 50 (int 1).

(** Noise tables: 0 for the terrain and the roughness, 0.5 for the water
    noise (no ocean factor). *)
Definition calmNoise : NoiseData :=
  {| nd_elevation := replicate 1024 (int 0);
     nd_moisture := replicate 1024 (int 0);
     nd_waterNoise := replicate 1024 (lit 5 10);
     nd_roughness := replicate 1024 (int 0) |}.

(** A continent mask that is 0.5 everywhere, one that rises by 1/64 per
    triangle (values that a [Float32Array] holds as they are), and a
    mountain distance that is 1 everywhere. *)
Definition flatMask : list num := replicate 50 (lit 5 10).
Definition risingMask : list num :=
  map (fun t => Fin (Z.of_nat t # 64)) (seq 0 50).
Definition farFromPeaks : list num := replicate 50 (int 1).

(** A 10 x 10 map with cell size 5: 16 points on the boundary and one
    interior point, the point 16. *)
Definition smallConfig : MapConfig := withSize 10 10 (12 # 10) baseConfig.

(** The fan of 16 triangles around the point 16: triangle [i] has the
    corners [i], [i + 1] and 16, an outer edge, and the triangles [i + 1]
    and [i - 1] across its other edges. *)
Definition fanTriangles : list nat :=
  flat_map (fun i => [i; S i mod 16; 16]%nat) (seq 0 16).
Definition fanHalfedges : list Z :=
  flat_map
    (fun i =>
       [(-1)%Z; Z.of_nat (3 * ((i + 1) mod 16) + 2);
        Z.of_nat (3 * ((i + 15) mod 16) + 1)])
    (seq 0 16).
Definition fanHost : Host := EvalHost.hostReturning fanTriangles fanHalfedges.

(** The cell of a grid of an outcome, in lowest terms. *)
Definition cellOf (grid : MapData -> list (list (option num)))
    (o : Outcome MapData) (x y : nat) : option num :=
  match o with
  | Returns m =>
      match grid m !! y with
      | Some row => Num.normal <$> mjoin (row !! x)
      | None => None
      end
  | _ => None
  end.

End Examples.

(** ** Further inputs used in the examples *)

Module Samples.

(** The mesh that [createMesh] builds on the 10 x 10 map from the fan
    around the interior point: 16 triangles, all of them on the boundary. *)
Definition fanMesh : VoronoiMesh :=
  Eval vm_compute in
    match
      createMesh Examples.fanHost
        (fst (generatePoints Examples.fanHost Examples.smallConfig
                Examples.lowDraws 0))
        (int 10) (int 10)
    with
    | Returns m => m
    | _ => Examples.emptyMesh
    end.

(** A shore: the lake 24 at 0.3 and its neighbour 15 at 0.42, just above
    the sea level 0.4. *)
Definition shoreElevation : list num :=
  Examples.elevationOf [(24, 3 # 10); (15, 42 # 100)]%nat Examples.gridMesh.

End Samples.

(** * Properties *)

(** ** Arrays and numbers *)

Lemma zlookup_of_nat {A} (l : list A) (t : nat) :
  zlookup l (Z.of_nat t) = l !! t.
Proof.
  unfold zlookup. destruct (Z.ltb_spec (Z.of_nat t) 0); [lia|].
  by rewrite Nat2Z.id.
Qed.

Lemma zlookup_Some {A} (l : list A) (i : Z) (x : A) :
  zlookup l i = Some x -> (0 <= i)%Z /\ l !! Z.to_nat i = Some x.
Proof. unfold zlookup. destruct (Z.ltb_spec i 0); [done|]. auto. Qed.

Lemma zinsert_length {A} (i : Z) (v : A) (l : list A) :
  length (zinsert i v l) = length l.
Proof. unfold zinsert. destruct (i <? 0)%Z; [done|]. apply length_insert. Qed.

Lemma zlookup_zinsert_ne {A} (i j : Z) (v : A) (l : list A) :
  i <> j -> zlookup (zinsert i v l) j = zlookup l j.
Proof.
  intros Hne. unfold zlookup, zinsert.
  destruct (Z.ltb_spec j 0); [done|]. destruct (Z.ltb_spec i 0); [done|].
  apply list_lookup_insert_ne. lia.
Qed.

Lemma Qlt_bool_iff x y : Num.Qlt_bool x y = true <-> x < y.
Proof.
  unfold Num.Qlt_bool. rewrite negb_true_iff. split.
  - intros H. apply Qnot_le_lt. intros Hle. apply Qle_bool_iff in Hle.
    congruence.
  - intros H. destruct (Qle_bool y x) eqn:E; [|done].
    apply Qle_bool_iff in E. exfalso. by apply (Qlt_not_le x y).
Qed.

Lemma Qlt_bool_false x y : Num.Qlt_bool x y = false <-> y <= x.
Proof. unfold Num.Qlt_bool. rewrite negb_false_iff. apply Qle_bool_iff. Qed.

Lemma length_triangleIds mesh : length (triangleIds mesh) = numTriangles mesh.
Proof. unfold triangleIds. by rewrite length_map, length_seq. Qed.

Lemma triangleIds_lookup mesh (t : nat) :
  (t < numTriangles mesh)%nat -> triangleIds mesh !! t = Some (Z.of_nat t).
Proof.
  intros Ht. unfold triangleIds.
  by rewrite list_lookup_fmap, lookup_seq_lt.
Qed.

(** ** Loops over a numeric counter *)



(** Once the condition fails, further fuel changes nothing: the loop has
    ended by its condition. *)
Lemma for_num_ended {St} n extra cond next (body : num -> St -> St) x s :
  cond (Nat.iter n next x) = false ->
  for_num (n + extra) cond next body x s = for_num n cond next body x s.
Proof.
  revert x s. induction n as [|n IH]; intros x s Hc.
  - cbn in Hc. destruct extra; [done|]. cbn. by rewrite Hc.
  - cbn. destruct (cond x); [|done]. apply IH.
    by rewrite Nat.iter_succ_r in Hc.
Qed.

Lemma iter_add_Fin (step a : Q) (k : nat) :
  exists q, Nat.iter k (fun x => (x + Fin step)%num) (Fin a) = Fin q
            /\ q == a + inject_Z (Z.of_nat k) * step.
Proof.
  induction k as [|k (q & Hq & Heq)].
  - exists a. split; [done|]. cbn. ring.
  - exists (q + step). rewrite Nat.iter_succ, Hq. split; [done|].
    rewrite Heq, Nat2Z.inj_succ, <- Z.add_1_r, inject_Z_plus. ring.
Qed.

(** The loop along the bottom edge ends by its condition within the
    rounds that [rounds] allows. *)
Lemma bottom_edge_ends (W sp : Q) :
  0 < sp -> 0 <= W ->
  (Nat.iter (rounds (Fin W) (Fin sp)) (fun x => (x + Fin sp)%num) (int 0)
   <=? Fin W)%num = false.
Proof.
  intros Hsp HW.
  assert (Hr : rounds (Fin W) (Fin sp) = S (Z.to_nat (Qfloor (W / sp)))).
  { unfold rounds. cbn. destruct (Qeq_bool sp 0) eqn:E; [|done].
    apply Qeq_bool_iff in E. lra. }
  rewrite Hr.
  destruct (iter_add_Fin sp 0 (S (Z.to_nat (Qfloor (W / sp))))) as (q & Hq & Heq).
  change (int 0) with (Fin 0). rewrite Hq. cbn.
  destruct (Qle_bool q W) eqn:E; [|done]. exfalso.
  apply Qle_bool_iff in E.
  assert (H0 : (0 <= Qfloor (W / sp))%Z).
  { change 0%Z with (Qfloor 0). apply Qfloor_resp_le.
    apply Qle_shift_div_l; [done|]. lra. }
  pose proof (Qlt_floor (W / sp)) as Hfl.
  rewrite Nat2Z.inj_succ, Z2Nat.id in Heq by done.
  unfold Z.succ in Heq.
  assert (Hlt : W / sp * sp < inject_Z (Qfloor (W / sp) + 1) * sp).
  { apply Qmult_lt_compat_r; done. }
  assert (W / sp * sp == W) by (field; lra). lra.
Qed.




(** ** Point generation *)

Lemma leb_Fin x y : (Fin x <=? Fin y)%num = true <-> x <= y.
Proof. cbn. apply Qle_bool_iff. Qed.





(** ** Point generation *)




(** C1: the points that [generatePoints] produces depend on the draws of
    [Math.random]: the same configuration with two different runs of draws
    gives two different sets of points (the first interior point is
    (5/2, 5/2) in one run and (7/2, 7/2) in the other). *)
Theorem generatePoints_depends_on_Math_random :
  coordinates
    <$> points (fst (generatePoints Examples.degenerateHost
                       Examples.baseConfig Examples.lowDraws 0)) !! 88%nat
  = Some (Fin (5 # 2), Fin (5 # 2)) /\
  coordinates
    <$> points (fst (generatePoints Examples.degenerateHost
                       Examples.baseConfig Examples.highDraws 0)) !! 88%nat
  = Some (Fin (7 # 2), Fin (7 # 2)) /\
  generatePoints Examples.degenerateHost Examples.baseConfig
    Examples.lowDraws 0
  <> generatePoints Examples.degenerateHost Examples.baseConfig
       Examples.highDraws 0.
Proof.
  split; [by vm_compute|]. split; [by vm_compute|].
  intros Heq.
  apply (f_equal (fun r => coordinates <$> points (fst r) !! 88%nat)) in Heq.
  vm_compute in Heq. discriminate.
Qed.

(** The dependence reaches the output: when the triangulation is the fan
    around the interior point, the temperature at pixel (0, 3) is 0.84 in
    one run and 0.904 in the other. *)
Lemma generateMap_depends_on_Math_random :
  Examples.cellOf md_temperature
    (generateMap Examples.fanHost Examples.smallConfig Examples.lowDraws) 0 3
  = Some (lit 21 25) /\
  Examples.cellOf md_temperature
    (generateMap Examples.fanHost Examples.smallConfig Examples.highDraws) 0 3
  = Some (lit 113 125) /\
  generateMap Examples.fanHost Examples.smallConfig Examples.lowDraws
  <> generateMap Examples.fanHost Examples.smallConfig Examples.highDraws.
Proof.
  split; [by vm_compute|]. split; [by vm_compute|].
  intros Heq.
  apply (f_equal (fun o => Examples.cellOf md_temperature o 0 3)) in Heq.
  vm_compute in Heq. discriminate.
Qed.

(** ** Mesh construction *)

Lemma meshLoop_S hes numT k :
  meshLoop hes numT (S k) = meshStep hes k (meshLoop hes numT k).
Proof. unfold meshLoop. by rewrite seq_S, fold_left_app. Qed.

Lemma meshLoop_spec hes numT k b n :
  (k <= length hes)%nat ->
  meshLoop hes numT k = Returns (b, n) ->
  length n = numT /\
  (forall t, (t < numT)%nat ->
     n !! t = Some [slotAfter hes k t 0; slotAfter hes k t 1; slotAfter hes k t 2]) /\
  (forall e o, (e < k)%nat -> hes !! e = Some o -> (0 <= o)%Z -> (e / 3 < numT)%nat).
Proof.
  revert b n. induction k as [|k IH]; intros b n Hk.
  - unfold meshLoop. cbn. intros [= <- <-]. split; [by rewrite length_replicate|].
    split; [|lia].
    intros t Ht. rewrite lookup_replicate_2 by done. f_equal.
    unfold slotAfter. f_equal; [|f_equal; [|f_equal]];
      (destruct (hes !! _); [|done]; by rewrite andb_false_r).
  - rewrite meshLoop_S.
    destruct (meshLoop hes numT k) as [[b' n']|e|] eqn:Hloop; [|done|done].
    destruct (IH b' n' ltac:(lia) eq_refl) as (Hlen & Hrows & Hsafe).
    unfold meshStep. cbn [mbind Outcome_bind].
    destruct (lookup_lt_is_Some_2 hes k ltac:(lia)) as [o Ho]. rewrite Ho.
    assert (Hdm : (3 * (k / 3) + k mod 3 = k)%nat) by (pose proof (Nat.div_mod_eq k 3); lia).
    assert (Hm3 : (k mod 3 < 3)%nat) by (apply Nat.mod_upper_bound; lia).
    assert (Hsafe' : forall e o, (e < k)%nat -> hes !! e = Some o -> (0 <= o)%Z -> (e / 3 < numT)%nat)
      by exact Hsafe.
    assert (Hgoal3 : forall P : nat -> Prop, P (k / 3)%nat -> P (k / 3)%nat) by done.
    revert Hdm Hm3. generalize (k mod 3)%nat as jk. 
    cut (forall tk, (k / 3)%nat = tk -> forall jk : nat,
      (3 * tk + jk)%nat = k -> (jk < 3)%nat ->
      (if (o >=? 0)%Z
       then match n' !! tk with
         | Some row => Returns (b', <[tk:=<[jk:=(o / 3)%Z]> row]> n')
         | None => Throws (TypeError "Cannot set properties of undefined")
         end
       else Returns (<[tk:=true]> b', n')) = Returns (b, n)
      -> length n = numT
        /\ (forall t : nat, (t < numT)%nat
           -> n !! t = Some [slotAfter hes (S k) t 0; slotAfter hes (S k) t 1; slotAfter hes (S k) t 2])
        /\ (forall (e : nat) (o0 : Z), (e < S k)%nat -> hes !! e = Some o0 -> (0 <= o0)%Z -> (e / 3 < numT)%nat)).
    { intros Hcut. exact (Hcut _ eq_refl). }
    intros tk Htk jk Hdm Hm3. clear Hgoal3.
    assert (Hother : forall t j, (j < 3)%nat -> (t <> tk \/ j <> jk)%nat ->
              slotAfter hes (S k) t j = slotAfter hes k t j).
    { intros t j Hj Hne. unfold slotAfter.
      destruct (hes !! (3 * t + j)%nat); [|done].
      destruct (0 <=? z)%Z; [|done]. cbn [andb].
      assert ((3 * t + j)%nat <> k) by lia.
      destruct (Nat.ltb_spec (3 * t + j) (S k)), (Nat.ltb_spec (3 * t + j) k); (done || lia). }
    destruct (Z.geb_spec o 0) as [Hpos|Hneg].
    + destruct (n' !! tk) as [row|] eqn:Hrow; [|done].
      intros [= <- <-].
      assert (Hkt : (tk < numT)%nat) by (rewrite <- Hlen; by eapply lookup_lt_Some).
      split; [by rewrite length_insert|]. split.
      * intros t Ht. destruct (decide (t = tk)) as [->|Hne].
        -- rewrite list_lookup_insert_eq by lia. f_equal.
           rewrite Hrows in Hrow by done. injection Hrow as <-.
           assert (Hnew : slotAfter hes (S k) tk jk = (o / 3)%Z).
           { unfold slotAfter. rewrite Hdm, Ho.
             destruct (Z.leb_spec 0 o); [|lia].
             destruct (Nat.ltb_spec k (S k)); [done|lia]. }
           destruct jk as [|[|[|?]]] eqn:Hmod; [| | |lia];
             rewrite <- Hnew; cbn -[slotAfter];
             rewrite ?(Hother tk 0%nat), ?(Hother tk 1%nat), ?(Hother tk 2%nat) by lia; done.
        -- rewrite list_lookup_insert_ne by done. rewrite Hrows by done.
           rewrite !(Hother t) by lia. done.
      * intros e o' He Ho' Hpos'. destruct (decide (e = k)) as [->|]; [by rewrite Htk|].
        eapply Hsafe; [|done..]. lia.
    + intros [= <- <-]. split; [done|]. split.
      * intros t Ht. rewrite Hrows by done.
        assert (Hsame : forall t j, slotAfter hes (S k) t j = slotAfter hes k t j).
        { intros t' j. unfold slotAfter.
          destruct (hes !! (3 * t' + j)%nat) as [z|] eqn:Hz; [|done].
          destruct (Z.leb_spec 0 z); [|done]. cbn [andb].
          assert ((3 * t' + j)%nat <> k)
            by (intros Heq; rewrite Heq, Ho in Hz; injection Hz; lia).
          destruct (Nat.ltb_spec (3 * t' + j) (S k)), (Nat.ltb_spec (3 * t' + j) k); (done || lia). }
        by rewrite !Hsame.
      * intros e o' He Ho' Hpos'. destruct (decide (e = k)) as [->|].
        -- rewrite Ho in Ho'. injection Ho' as ->. lia.
        -- eapply Hsafe; [|done..]. lia.
Qed.

Lemma createMesh_loop host pd W H mesh :
  createMesh host pd W H = Returns mesh ->
  meshLoop (halfedges mesh) (numTriangles mesh) (length (halfedges mesh))
  = Returns (is_boundary_t mesh, neighbors mesh).
Proof.
  unfold createMesh, createMesh_body.
  destruct (Delaunator host _) as [msg|[tris hes]]; [done|].
  destruct (negb _); [done|].
  destruct (fold_left _ _ _) as [[b n]|e|] eqn:Hloop; cbn [mbind Outcome_bind];
    [|done..].
  intros [= <-]. exact Hloop.
Qed.

Lemma neighbors_slots mesh b (t : nat) (u : Z) :
  meshLoop (halfedges mesh) (numTriangles mesh) (length (halfedges mesh))
  = Returns (b, neighbors mesh) ->
  (0 <= u)%Z ->
  u ∈ neighborsOf mesh (Z.of_nat t) <->
  exists j o, (j < 3)%nat /\ halfedges mesh !! (3 * t + j)%nat = Some o /\ (0 <= o)%Z
         /\ (o / 3)%Z = u.
Proof.
  intros Hloop Hu.
  destruct (meshLoop_spec _ _ _ _ _ (le_n _) Hloop) as (Hlen & Hrows & Hsafe).
  unfold neighborsOf. rewrite zlookup_of_nat.
  assert (Hslot : forall j, slotAfter (halfedges mesh) (length (halfedges mesh)) t j = u <->
            exists o, halfedges mesh !! (3 * t + j)%nat = Some o /\ (0 <= o)%Z /\ (o / 3)%Z = u).
  { intros j. unfold slotAfter.
    destruct (halfedges mesh !! (3 * t + j)%nat) as [o|] eqn:Ho.
    - pose proof (lookup_lt_Some _ _ _ Ho) as Hlt.
      destruct (Z.leb_spec 0 o), (Nat.ltb_spec (3 * t + j) (length (halfedges mesh)));
        cbn [andb]; try lia.
      + split; [intros <-; eauto|]. by intros (? & [= <-] & _ & <-).
      + split; [lia|]. intros (? & [= <-] & ? & _). lia.
    - split; [lia|]. by intros (? & ? & _). }
  split.
  - intros Hin. destruct (decide (t < numTriangles mesh)%nat) as [Ht|Ht].
    + rewrite Hrows in Hin by done. cbn in Hin.
      rewrite !elem_of_cons, elem_of_nil in Hin.
      destruct Hin as [Hin|[Hin|[Hin|[]]]]; symmetry in Hin; apply Hslot in Hin as (o & ?);
        [exists 0%nat|exists 1%nat|exists 2%nat]; exists o; (split; [lia|done]).
    + rewrite lookup_ge_None_2 in Hin by lia. cbn in Hin. by apply elem_of_nil in Hin.
  - intros (j & o & Hj & Ho & Hpos & Hou).
    assert (Ht : (t < numTriangles mesh)%nat).
    { pose proof (Hsafe _ _ (lookup_lt_Some _ _ _ Ho) Ho Hpos) as Hs.
      replace ((3 * t + j) / 3)%nat with t in Hs; [done|].
      apply Nat.div_unique with j; lia. }
    rewrite Hrows by done. cbn.
    assert (Hs : slotAfter (halfedges mesh) (length (halfedges mesh)) t j = u)
      by (apply Hslot; eauto).
    rewrite !elem_of_cons. destruct j as [|[|[|?]]]; [| | |lia]; rewrite Hs; auto.
Qed.

(** C9: in a mesh produced by [createMesh] from a triangulation whose
    halfedges are paired (the opposite of the opposite of a halfedge is the
    halfedge itself, as in every result of Delaunator), [u] is an entry of
    [neighbors t] if and only if [t] is an entry of [neighbors u]. *)
Theorem createMesh_neighbors_symmetric host pd W H mesh (t u : nat) :
  createMesh host pd W H = Returns mesh ->
  (forall (e : nat) (o : Z), halfedges mesh !! e = Some o -> (0 <= o)%Z ->
     halfedges mesh !! Z.to_nat o = Some (Z.of_nat e)) ->
  Z.of_nat u ∈ neighborsOf mesh (Z.of_nat t) <->
  Z.of_nat t ∈ neighborsOf mesh (Z.of_nat u).
Proof.
  intros Hmesh Hopp. apply createMesh_loop in Hmesh.
  assert (Hdir : forall t u : nat, Z.of_nat u ∈ neighborsOf mesh (Z.of_nat t) ->
                  Z.of_nat t ∈ neighborsOf mesh (Z.of_nat u)).
  { clear t u. intros t u Hin.
    apply (neighbors_slots mesh _ t _ Hmesh) in Hin as (j & o & Hj & Ho & Hpos & Hou); [|lia].
    apply (neighbors_slots mesh _ u _ Hmesh); [lia|].
    pose proof (Hopp _ _ Ho Hpos) as Hback.
    exists (Z.to_nat o mod 3)%nat, (Z.of_nat (3 * t + j)).
    split; [apply Nat.mod_upper_bound; lia|].
    assert (Hu : u = (Z.to_nat o / 3)%nat).
    { apply Nat2Z.inj. rewrite <- Hou. rewrite Nat2Z.inj_div, Z2Nat.id by lia. done. }
    split.
    - rewrite Hu. rewrite <- Nat.div_mod_eq. done.
    - split; [lia|]. rewrite Nat2Z.inj_add, Nat2Z.inj_mul.
      change (Z.of_nat 3) with 3%Z.
      rewrite Z.mul_comm, Z.div_add_l by lia.
      rewrite Z.div_small by lia. lia. }
  split; apply Hdir.
Qed.

(** The pairing of the halfedges, as a check on a given array. *)
Lemma paired_halfedges (hes : list Z) :
  forallb
    (fun e =>
       match hes !! e with
       | Some o =>
           if (0 <=? o)%Z
           then bool_decide (hes !! Z.to_nat o = Some (Z.of_nat e))
           else true
       | None => true
       end)
    (seq 0 (length hes)) = true ->
  forall (e : nat) (o : Z), hes !! e = Some o -> (0 <= o)%Z ->
    hes !! Z.to_nat o = Some (Z.of_nat e).
Proof.
  intros Hall e o Ho Hpos.
  rewrite forallb_forall in Hall.
  assert (He : In e (seq 0 (length hes))).
  { apply in_seq. apply lookup_lt_Some in Ho. lia. }
  specialize (Hall e He). rewrite Ho in Hall.
  destruct (Z.leb_spec 0 o); [|lia].
  by apply bool_decide_eq_true_1 in Hall.
Qed.

(** In the mesh of the lattice, 12 is a neighbour of 13 and 13 one of 12. *)
Lemma createMesh_neighbors_symmetric_witness :
  12%Z ∈ neighborsOf Examples.gridMesh 13 <->
  13%Z ∈ neighborsOf Examples.gridMesh 12.
Proof.
  apply (createMesh_neighbors_symmetric Examples.gridHost
           Examples.gridPointsData (int 5) (int 5) Examples.gridMesh
           13%nat 12%nat).
  - vm_compute. reflexivity.
  - apply paired_halfedges. vm_compute. reflexivity.
Defined.

(** ** Terrain *)

Lemma passUpTo_S mesh raw k :
  passUpTo mesh raw (S k) = elevationStep mesh raw (passUpTo mesh raw k) k.
Proof. unfold passUpTo. by rewrite seq_S, fold_left_app. Qed.

(** Triangles below a bound, one by one. *)
Lemma below_bound (P : nat -> Prop) (n : nat) :
  Forall P (seq 0 n) -> forall t, (t < n)%nat -> P t.
Proof.
  intros Hall t Ht. rewrite Forall_forall in Hall.
  apply Hall, elem_of_seq. lia.
Qed.

(** C2: the normalisation of [generateElevation] does not bring every
    elevation into the range 0-1.  On the lattice, which has non-boundary
    triangles, with a continent mask that rises by 1/64 per triangle, the
    trackers hold the least and the greatest raw elevation of the
    non-boundary triangles only (0.028125 at triangle 3 and 0.43125 at
    triangle 46), but every entry is rescaled with them: the boundary
    triangle 0, stored as 0, ends at about -0.0698, which is the minimum
    over all triangles.  The lowest non-boundary triangle ends below 0 as
    well, at about -1.8e-9, because the array keeps its raw elevation in
    single precision while the tracker keeps it unrounded. *)
Theorem generateElevation_out_of_range :
  let elevation_t :=
    generateElevation Examples.gridMesh Examples.risingMask
      Examples.farFromPeaks Examples.calmNoise Examples.baseConfig in
  interior Examples.gridMesh 3 /\
  flag (is_boundary_t Examples.gridMesh) 0 = true /\
  (elevation_t !! 0%nat = Some (Fin (-2341007 # 33554432))) /\
  (elevation_t !! 3%nat = Some (Fin (-2080895 # 1125899906842624))) /\
  minimum elevation_t = Fin (-2341007 # 33554432) /\
  (minimum elevation_t <? int 0)%num = true.
Proof.
  split; [split; [vm_compute; lia|by vm_compute]|].
  split; [by vm_compute|].
  repeat split; by vm_compute.
Qed.

(** ** Hydrology *)

(** Sorting keeps the elements. *)

Lemma elem_of_sortInsert {A} (cmp : A -> A -> num) (x y : A) (l : list A) :
  y ∈ sortInsert cmp x l <-> y = x \/ y ∈ l.
Proof.
  induction l as [|z l IH]; cbn.
  - rewrite list_elem_of_singleton, elem_of_nil. tauto.
  - destruct (_ <? _)%num; rewrite !elem_of_cons; [tauto|].
    rewrite IH. tauto.
Qed.

Lemma elem_of_sortBy {A} (cmp : A -> A -> num) (y : A) (l : list A) :
  y ∈ sortBy cmp l <-> y ∈ l.
Proof.
  unfold sortBy.
  assert (H : forall acc, y ∈ fold_left (fun acc x => sortInsert cmp x acc) l acc <-> y ∈ l \/ y ∈ acc).
  { induction l as [|x l IH]; intros acc; cbn.
    - rewrite elem_of_nil. tauto.
    - rewrite IH, elem_of_sortInsert, elem_of_cons. tauto. }
  rewrite H, elem_of_nil. tauto.
Qed.

Lemma zmember_false x l : zmember x l = false -> x ∉ l.
Proof.
  unfold zmember. intros Hf Hin.
  apply list_elem_of_In in Hin.
  assert (existsb (Z.eqb x) l = true); [|congruence].
  apply existsb_exists. exists x. split; [done|]. apply Z.eqb_refl.
Qed.

Lemma traceRiver_spec fuel mesh el ds sea path current p :
  traceRiver fuel mesh el ds sea path current = Traced p ->
  NoDup path -> Linked ds path -> last path = Some current ->
  NoDup p /\ Linked ds p /\ (length path <= length p)%nat.
Proof.
  revert path current. induction fuel as [|fuel IH]; intros path current; [done|].
  cbn [traceRiver]. intros Htr Hnd Hlk Hlast.
  destruct (zlookup ds current) as [next|] eqn:Hnext; [|done].
  destruct (_ || _); [by injection Htr as <-|].
  destruct (_ <? _)%num; [by injection Htr as <-|].
  destruct (zmember next path) eqn:Hmem; [done|].
  apply IH in Htr.
  - destruct Htr as (? & ? & Hlen). rewrite length_app in Hlen. cbn in Hlen.
    split; [done|]. split; [done|]. lia.
  - apply NoDup_app. split; [done|]. split; [|apply NoDup_singleton].
    intros x Hx Hx'. apply list_elem_of_singleton in Hx' as ->.
    by apply zmember_false in Hmem.
  - intros i a b Ha Hb.
    apply lookup_snoc_Some in Hb as [[Hi Hb]|[Hi <-]].
    + rewrite lookup_app_l in Ha by lia. by eapply Hlk.
    + rewrite lookup_app_l in Ha by lia.
      assert (a = current); [|by subst].
      rewrite last_lookup in Hlast.
      replace (pred (length path)) with i in Hlast by lia. congruence.
  - apply last_snoc.
Qed.

Lemma riverFrom_spec mesh el ds sea flow paths t (P : RiverPath -> Prop) :
  (forall p, p ∈ paths -> P p) ->
  (forall p, NoDup (rp_triangles p) -> Linked ds (rp_triangles p) ->
        (3 < length (rp_triangles p))%nat -> P p) ->
  forall p, p ∈ riverFrom mesh el ds sea flow paths t -> P p.
Proof.
  intros Hold Hnew p. unfold riverFrom.
  destruct (_ && _); [|apply Hold].
  destruct (traceRiver _ _ _ _ _ _ _) as [path| |] eqn:Htr; [|apply Hold..].
  destruct (Nat.ltb_spec 3 (length path)); [|apply Hold].
  rewrite elem_of_app, list_elem_of_singleton. intros [?| ->]; [by apply Hold|].
  apply traceRiver_spec in Htr as (? & ? & ?).
  - by apply Hnew.
  - apply NoDup_singleton.
  - intros i a b Ha Hb. by destruct i.
  - done.
Qed.

Lemma riverPaths_spec mesh el rain ds cfg p :
  p ∈ riverPaths (calculateFlowAccumulation mesh el rain ds cfg) ->
  NoDup (rp_triangles p) /\ Linked ds (rp_triangles p)
  /\ (3 < length (rp_triangles p))%nat.
Proof.
  unfold calculateFlowAccumulation. cbn [riverPaths].
  intros Hin. apply elem_of_take in Hin as (i & Hin & _).
  apply list_elem_of_lookup_2 in Hin. apply elem_of_sortBy in Hin.
  revert p Hin.
  generalize (fold_left (accumulateStep mesh ds)
    (sortBy (fun a b : Z => (zgetNum el b - zgetNum el a)%num) (triangleIds mesh))
    (map (fun t : Z =>
       if (zgetNum el t >=? Fin (seaLevel cfg))%num
       then
         if (zgetNum el t - Fin (seaLevel cfg) >? lit 5 10)%num
         then (zgetNum rain t * Fin (rivers cfg) *
               (int 1 + (zgetNum el t - Fin (seaLevel cfg) - lit 5 10)))%num
         else (zgetNum rain t * Fin (rivers cfg))%num
       else int 0) (triangleIds mesh))) as flow.
  intros flow.
  assert (H : forall ids acc, (forall p, p ∈ acc -> NoDup (rp_triangles p) /\ Linked ds (rp_triangles p)
  /\ (3 < length (rp_triangles p))%nat) -> forall p, p ∈ fold_left (riverFrom mesh el ds (Fin (seaLevel cfg)) flow) ids acc -> NoDup (rp_triangles p) /\ Linked ds (rp_triangles p)
  /\ (3 < length (rp_triangles p))%nat).
  { induction ids as [|t ids IH]; intros acc Hacc; [done|]. cbn.
    apply IH. apply riverFrom_spec; [done|]. auto. }
  apply H. intros p Hp. by apply elem_of_nil in Hp.
Qed.

Lemma lowestNeighbor_elem mesh el t :
  lowestNeighbor mesh el t <> (-1)%Z ->
  lowestNeighbor mesh el t ∈ neighborsOf mesh t.
Proof.
  unfold lowestNeighbor.
  generalize (neighborsOf mesh t) as ns. intros ns.
  assert (H : forall acc : Z * num,
    let r := fold_left
       (fun (acc : Z * num) (neighbor : Z) =>
          if (neighbor =? -1)%Z then acc
          else if (zgetNum el neighbor <? acc.2)%num
          then (neighbor, zgetNum el neighbor) else acc) ns acc in
    r.1 = acc.1 \/ r.1 ∈ ns).
  { induction ns as [|n ns IH]; intros acc; cbn; [by left|].
    destruct (IH (if (n =? -1)%Z then acc
          else if (zgetNum el n <? acc.2)%num then (n, zgetNum el n) else acc)) as [Heq|Hin].
    - rewrite Heq. destruct (n =? -1)%Z; [by left|].
      destruct (_ <? _)%num; [right; cbn; apply list_elem_of_here|by left].
    - right. by apply list_elem_of_further. }
  intros Hne. destruct (H (-1, zgetNum el t)%Z) as [Heq|Hin]; [|done].
  cbn in Heq. congruence.
Qed.

Lemma resolveSink_keeps host mesh el ds t a v :
  zlookup ds a = Some v -> v <> (-1)%Z ->
  zlookup (resolveSink host mesh el ds t) a = Some v.
Proof.
  intros Ha Hv. unfold resolveSink.
  destruct (zlookup ds t) as [d|] eqn:Ht; [|done].
  destruct (decide (d = -1)%Z) as [->|Hd].
  - destruct (sinkSearch _ _ _ _ _ _ _) as [found|]; [|done].
    rewrite zlookup_zinsert_ne; [done|]. intros ->. congruence.
  - destruct d as [|?|[?|?|]]; done.
Qed.

Lemma resolveSink_length host mesh el ds t :
  length (resolveSink host mesh el ds t) = length ds.
Proof.
  unfold resolveSink. destruct (zlookup ds t) as [[|?|[?|?|]]|]; try done.
  destruct (sinkSearch _ _ _ _ _ _ _); [apply zinsert_length|done].
Qed.

Lemma calculateDownslope_steepest host mesh el a b :
  zlookup (calculateDownslope host mesh el) a = Some b ->
  lowestNeighbor mesh el a <> (-1)%Z ->
  b = lowestNeighbor mesh el a.
Proof.
  unfold calculateDownslope. intros Hb Hlow.
  assert (Hfold : forall ids ds a v, zlookup ds a = Some v -> v <> (-1)%Z ->
            zlookup (fold_left (resolveSink host mesh el) ids ds) a = Some v).
  { induction ids as [|t ids IH]; intros ds a' v Ha Hv; [done|]. cbn.
    apply IH; [|done]. by apply resolveSink_keeps. }
  assert (Hlen : forall ids ds, length (fold_left (resolveSink host mesh el) ids ds) = length ds).
  { induction ids as [|t ids IH]; intros ds; [done|]. cbn.
    by rewrite IH, resolveSink_length. }
  destruct (zlookup_Some _ _ _ Hb) as [Hpos Hb'].
  apply lookup_lt_Some in Hb'. rewrite Hlen, length_map, length_triangleIds in Hb'.
  assert (H0 : zlookup (map (lowestNeighbor mesh el) (triangleIds mesh)) a
               = Some (lowestNeighbor mesh el a)).
  { unfold zlookup. destruct (Z.ltb_spec a 0); [lia|].
    rewrite list_lookup_fmap. unfold triangleIds. rewrite list_lookup_fmap.
    rewrite lookup_seq_lt by done. cbn. by rewrite Z2Nat.id. }
  pose proof (Hfold (triangleIds mesh) _ _ _ H0 Hlow) as Hkeep. congruence.
Qed.

(** C4 (as amended): every river path retained by
    [calculateFlowAccumulation] has more than 3 entries and no repeated
    triangle, and every entry but the first is the downslope of the entry
    before it; the two are mesh neighbours whenever the earlier one has a
    strictly lower neighbour (a sink is routed to the triangle that the
    search finds, which need not be adjacent). *)
Theorem river_paths_wellformed host mesh el rain cfg path :
  path ∈ riverPaths
           (calculateFlowAccumulation mesh el rain
              (calculateDownslope host mesh el) cfg) ->
  (3 < length (rp_triangles path))%nat /\
  NoDup (rp_triangles path) /\
  forall i a b,
    rp_triangles path !! i = Some a -> rp_triangles path !! S i = Some b ->
    zlookup (calculateDownslope host mesh el) a = Some b /\
    (lowestNeighbor mesh el a <> (-1)%Z -> b ∈ neighborsOf mesh a).
Proof.
  intros Hin. apply riverPaths_spec in Hin as (Hnd & Hlk & Hlen).
  split; [done|]. split; [done|].
  intros i a b Ha Hb. pose proof (Hlk i a b Ha Hb) as Hds.
  split; [done|]. intros Hlow.
  rewrite (calculateDownslope_steepest _ _ _ _ _ Hds Hlow).
  by apply lowestNeighbor_elem.
Qed.

(** The fuel of the river tracing is never used up. *)
Lemma inrange_length (n : nat) (l : list Z) :
  NoDup l -> (forall x, x ∈ l -> (0 <= x < Z.of_nat n)%Z) -> (length l <= n)%nat.
Proof.
  intros Hnd Hin.
  assert (Hsub : l ⊆+ (Z.of_nat <$> seq 0 n)).
  { apply NoDup_submseteq; [done|]. intros x Hx. specialize (Hin x Hx).
    apply list_elem_of_fmap. exists (Z.to_nat x). split; [lia|].
    apply elem_of_seq. lia. }
  apply submseteq_length in Hsub. by rewrite length_fmap, length_seq in Hsub.
Qed.

Lemma traceRiver_fuel fuel mesh el ds sea init current :
  NoDup (init ++ [current]) ->
  (forall x, x ∈ init -> (0 <= x < Z.of_nat (length ds))%Z) ->
  (length ds + 1 <= fuel + length init)%nat ->
  traceRiver fuel mesh el ds sea (init ++ [current]) current <> Unfinished.
Proof.
  revert init current. induction fuel as [|fuel IH]; intros init current Hnd Hin Hfuel.
  - exfalso. apply NoDup_app in Hnd as (Hnd & _ & _).
    pose proof (inrange_length _ _ Hnd Hin). lia.
  - cbn [traceRiver].
    destruct (zlookup ds current) as [next|] eqn:Hnext; [|done].
    destruct (_ || _); [done|]. destruct (_ <? _)%num; [done|].
    destruct (zmember next (init ++ [current])) eqn:Hmem; [done|].
    apply IH.
    + apply NoDup_app. split; [done|]. split; [|apply NoDup_singleton].
      intros x Hx Hx'. apply list_elem_of_singleton in Hx' as ->.
      by apply zmember_false in Hmem.
    + intros x Hx. apply elem_of_app in Hx as [Hx|Hx]; [by apply Hin|].
      apply list_elem_of_singleton in Hx as ->.
      apply zlookup_Some in Hnext as [? Hl]. apply lookup_lt_Some in Hl. lia.
    + rewrite length_app. cbn. lia.
Qed.

Lemma traceRiver_finishes mesh el ds sea t :
  traceRiver (S (S (length ds))) mesh el ds sea [t] t <> Unfinished.
Proof.
  apply (traceRiver_fuel _ mesh el ds sea [] t).
  - apply NoDup_singleton.
  - intros x Hx. by apply elem_of_nil in Hx.
  - cbn. lia.
Qed.

(** On the plateau the river 22, 15, 14, 5 is retained. *)
Lemma river_paths_wellformed_witness :
  let downslope_t :=
    calculateDownslope Examples.gridHost Examples.gridMesh
      Examples.plateauElevation in
  (3 < length [22; 15; 14; 5]%Z)%nat /\
  NoDup [22; 15; 14; 5]%Z /\
  forall i a b,
    [22; 15; 14; 5]%Z !! i = Some a -> [22; 15; 14; 5]%Z !! S i = Some b ->
    zlookup downslope_t a = Some b /\
    (lowestNeighbor Examples.gridMesh Examples.plateauElevation a <> (-1)%Z ->
     b ∈ neighborsOf Examples.gridMesh a).
Proof.
  apply (river_paths_wellformed Examples.gridHost Examples.gridMesh
           Examples.plateauElevation Examples.evenRainfall
           Examples.baseConfig
           {| rp_triangles := [22; 15; 14; 5]%Z; sourceTriangle := 22;
              rp_flow := Fin (210000000 # 100000000) |}).
  vm_compute. apply list_elem_of_here.
Defined.

(** C4 (as stated) fails: on the plateau the retained river 22, 15, 14, 5
    goes from the sink 22 to the triangle 15, which is not one of the
    neighbours 24, 34, 25 of 22. *)
Lemma river_path_leaves_neighbours :
  [22; 15; 14; 5]%Z
    ∈ map rp_triangles
        (riverPaths
           (calculateFlowAccumulation Examples.gridMesh
              Examples.plateauElevation Examples.evenRainfall
              (calculateDownslope Examples.gridHost Examples.gridMesh
                 Examples.plateauElevation)
              Examples.baseConfig)) /\
  neighborsOf Examples.gridMesh 22 = [24; 34; 25]%Z /\
  ~ 15%Z ∈ neighborsOf Examples.gridMesh 22.
Proof.
  split; [vm_compute; apply list_elem_of_here|].
  split; [by vm_compute|].
  intros Hin.
  change (neighborsOf Examples.gridMesh 22) with [24; 34; 25]%Z in Hin.
  rewrite !elem_of_cons, elem_of_nil in Hin. lia.
Qed.

Lemma crater_cycle (k : nat) :
  (follow Examples.craterDownslope k 24 = Some 24%Z
   \/ follow Examples.craterDownslope k 24 = Some 15%Z) /\
  (follow Examples.craterDownslope k 15 = Some 24%Z
   \/ follow Examples.craterDownslope k 15 = Some 15%Z).
Proof.
  induction k as [|k [IH24 IH15]]; [by split; [left|right]|].
  split.
  - change (follow Examples.craterDownslope (S k) 24)
      with (follow Examples.craterDownslope k 15). exact IH15.
  - change (follow Examples.craterDownslope (S k) 15)
      with (follow Examples.craterDownslope k 24). exact IH24.
Qed.

(** C3: in the crater, sink resolution routes the pit 24 to its neighbour
    15, whose own downslope is 24: the chain from the land triangle 24
    alternates between 24 and 15 for ever and reaches neither a below-sea
    triangle nor a boundary triangle. *)
Theorem crater_never_drains :
  let downslope_t :=
    calculateDownslope Examples.gridHost Examples.gridMesh
      Examples.craterElevation in
  interior Examples.gridMesh 24 /\
  (zgetNum Examples.craterElevation 24 >=? Examples.sea)%num = true /\
  zlookup downslope_t 24 = Some 15%Z /\
  zlookup downslope_t 15 = Some 24%Z /\
  ~ drainsOut Examples.gridMesh Examples.craterElevation Examples.sea
      downslope_t 24.
Proof.
  change (calculateDownslope Examples.gridHost Examples.gridMesh
            Examples.craterElevation) with Examples.craterDownslope.
  cbv zeta.
  split; [split; [vm_compute; lia|by vm_compute]|].
  do 3 (split; [by vm_compute|]).
  intros (k & u & Hk & Hu).
  destruct (crater_cycle k) as [[H|H] _]; rewrite H in Hk;
    injection Hk as <-; vm_compute in Hu; by destruct Hu.
Qed.

(** ** Biomes *)

Lemma biomeOf_total mesh el mo te sea (t : nat) :
  (t < length (neighbors mesh))%nat ->
  is_Some (biomeOf mesh el mo te sea (Z.of_nat t)).
Proof.
  intros Ht. unfold biomeOf.
  repeat (case_match; try done).
  unfold hasNeighborBelow. rewrite zlookup_of_nat.
  destruct (lookup_lt_is_Some_2 (neighbors mesh) t Ht) as [ns ->]. cbn. done.
Qed.

(** When every triangle has its list of neighbours the loop of
    [assignBiomes] does not throw, and the array holds the biome computed
    for each triangle. *)
Lemma assignBiomes_lookup mesh el mo te sea (t : nat) :
  length (neighbors mesh) = numTriangles mesh ->
  (t < numTriangles mesh)%nat ->
  biomeOf mesh el mo te sea (Z.of_nat t) = assignBiomes mesh el mo te sea !! t.
Proof.
  intros Hlen Ht. unfold assignBiomes.
  destruct (mapM _ _) as [bs|] eqn:Hm.
  - apply mapM_Some in Hm.
    pose proof (triangleIds_lookup mesh t Ht) as Hid.
    destruct (Forall2_lookup_l _ _ _ _ _ Hm Hid) as (b & Hb & Hf).
    by rewrite Hb, Hf.
  - exfalso. apply mapM_None in Hm.
    apply Exists_exists in Hm as (x & Hx & Hnone).
    unfold triangleIds in Hx.
    apply list_elem_of_In, in_map_iff in Hx as (n & <- & Hn).
    apply in_seq in Hn.
    destruct (biomeOf_total mesh el mo te sea n) as [b Hb]; [lia|congruence].
Qed.

(** C8: [assignBiomes] classifies a boundary triangle as OCEAN; a
    non-boundary triangle whose elevation [e] is below the sea level [s] is
    classified by the depth ratio [d = (s - e) / s]: SHALLOW_WATER when
    [d < 0.1], SHALLOW_OCEAN when [d < 0.3], OCEAN when [d < 0.7], and
    DEEP_OCEAN otherwise. *)
Theorem assignBiomes_water mesh elevation_t moisture temperature_t s
    (t : nat) :
  let e := getNum elevation_t t in
  let d := ((s - e) / s)%num in
  length (neighbors mesh) = numTriangles mesh ->
  (t < numTriangles mesh)%nat ->
  flag (is_boundary_t mesh) t = true \/ (e <? s)%num = true ->
  assignBiomes mesh elevation_t moisture temperature_t s !! t
  = Some (if flag (is_boundary_t mesh) t then OCEAN
          else if (d <? lit 1 10)%num then SHALLOW_WATER
          else if (d <? lit 3 10)%num then SHALLOW_OCEAN
          else if (d <? lit 7 10)%num then OCEAN
          else DEEP_OCEAN).
Proof.
  intros e d Hlen Ht Hcase.
  rewrite <- (assignBiomes_lookup mesh elevation_t moisture temperature_t s t
                Hlen Ht).
  unfold biomeOf, zflag, zgetNum. rewrite !zlookup_of_nat.
  fold (flag (is_boundary_t mesh) t). fold (getNum elevation_t t). fold e.
  destruct (flag (is_boundary_t mesh) t); [done|].
  destruct Hcase as [?|He]; [done|]. by rewrite He.
Qed.

(** The lake 24 of depth ratio 0.25 is SHALLOW_OCEAN. *)
Lemma assignBiomes_water_witness :
  assignBiomes Examples.gridMesh Examples.lakeElevation Examples.mild
    Examples.mild Examples.sea !! 24%nat
  = Some SHALLOW_OCEAN.
Proof.
  apply (assignBiomes_water Examples.gridMesh Examples.lakeElevation
           Examples.mild Examples.mild Examples.sea 24).
  - reflexivity.
  - vm_compute. lia.
  - right. reflexivity.
Defined.

(** ** The fuel of the searches *)

Lemma pending_mark nbrs visited (t : nat) row :
  nbrs !! t = Some row -> visited !! t = Some false ->
  (pending nbrs (<[t := true]> visited) + length row = pending nbrs visited)%nat.
Proof.
  revert visited t.
  induction nbrs as [|r nbrs IH]; intros [|v visited] [|t] Hr Hv;
    simpl in *; try done.
  - injection Hr as ->. injection Hv as ->. lia.
  - specialize (IH visited t Hr Hv). destruct v; lia.
Qed.

Lemma pending_fresh nbrs n :
  (pending nbrs (replicate n false) <= length (concat nbrs))%nat.
Proof.
  revert n. induction nbrs as [|r nbrs IH]; intros [|n]; cbn; try lia.
  rewrite length_app. specialize (IH n). lia.
Qed.

(** Visiting a triangle that was not visited: what it can push is no
    longer pending. *)
Lemma pending_visit mesh visited (current : Z) :
  length visited = length (neighbors mesh) ->
  zflag visited current = false ->
  (pending (neighbors mesh) (zinsert current true visited)
   + length (neighborsOf mesh current)
   <= pending (neighbors mesh) visited)%nat.
Proof.
  intros Hlen Hv. unfold neighborsOf, zinsert, zflag, zlookup in *.
  destruct (Z.ltb_spec current 0); [cbn; lia|].
  destruct (neighbors mesh !! Z.to_nat current) as [row|] eqn:Hrow; cbn.
  - destruct (visited !! Z.to_nat current) as [v|] eqn:Hvis.
    + cbn in Hv. subst v. by rewrite (pending_mark _ _ _ _ Hrow Hvis).
    + apply lookup_lt_Some in Hrow. apply lookup_ge_None in Hvis. lia.
  - apply lookup_ge_None in Hrow.
    rewrite list_insert_ge by lia. lia.
Qed.

Section Fuel.
Context (host : Host).
Hypothesis length_push : forall t v q,
  queue_length host (queue_push host t v q) = S (queue_length host q).
Hypothesis length_pop : forall q t q',
  queue_pop host q = Some (t, q') ->
  queue_length host q = S (queue_length host q').

Lemma relaxNeighbor_queue mesh config random current nbs s :
  let s' := fold_left (relaxNeighbor host mesh config random current) nbs s in
  sr_visited host s' = sr_visited host s /\
  (queue_length host (sr_queue host s')
   <= queue_length host (sr_queue host s) + length nbs)%nat.
Proof.
  revert s. induction nbs as [|nb nbs IH]; intros s; cbn; [split; [done|lia]|].
  destruct (IH (relaxNeighbor host mesh config random current s nb)) as [Hv Hq].
  rewrite Hv. 
  unfold relaxNeighbor in *.
  destruct (_ || _); [split; [done|lia]|].
  destruct (_ <? _)%num; cbn in *; [rewrite length_push in Hq|]; split; try done; lia.
Qed.

(** Once the fuel exceeds the length of the queue and what is pending, the
    search ends by its own condition: further fuel changes nothing. *)
Lemma mountainSearch_fuel mesh config random fuel extra s :
  length (sr_visited host s) = length (neighbors mesh) ->
  (queue_length host (sr_queue host s)
   + pending (neighbors mesh) (sr_visited host s) < fuel)%nat ->
  mountainSearch host (fuel + extra) mesh config random s
  = mountainSearch host fuel mesh config random s.
Proof.
  revert s. induction fuel as [|fuel IH]; intros s Hlen Hfuel; [lia|].
  cbn [Nat.add mountainSearch].
  destruct (0 <? _)%nat; [|done].
  destruct (queue_pop host (sr_queue host s)) as [[current q']|] eqn:Hpop;
    [|done].
  apply length_pop in Hpop. cbn [sr_visited].
  destruct (zflag (sr_visited host s) current) eqn:Hvis.
  - apply IH; cbn; [done|lia].
  - pose proof (pending_visit mesh _ current Hlen Hvis) as Hpend.
    match goal with
    | |- context [fold_left ?f ?l ?s1] =>
        destruct (relaxNeighbor_queue mesh config random current l s1)
          as [Hv Hq];
        generalize dependent (fold_left f l s1)
    end.
    cbn [sr_visited sr_queue]. intros s2 Hv Hq.
    apply IH; rewrite Hv; [by rewrite zinsert_length|lia].
Qed.

Hypothesis length_new : queue_length host (queue_new host) = 0%nat.

Lemma selectPeak_count mesh config noise ts acc :
  (length (fst (fold_left (selectPeak mesh config noise) ts acc))
   <= length (fst acc) + length ts)%nat.
Proof.
  revert acc. induction ts as [|t ts IH]; intros acc; cbn [fold_left]; [cbn; lia|].
  etrans; [apply IH|]. cbn [length].
  enough (length (fst (selectPeak mesh config noise acc t))
          <= S (length (fst acc)))%nat by lia.
  unfold selectPeak. destruct acc as [peaks rng].
  repeat case_match; cbn [fst]; rewrite ?length_app; cbn; lia.
Qed.

Lemma startSearch_state mesh peaks draws :
  sr_visited host (startSearch host mesh peaks draws)
  = replicate (numTriangles mesh) false /\
  queue_length host (sr_queue host (startSearch host mesh peaks draws))
  = length peaks.
Proof.
  unfold startSearch.
  match goal with
  | |- context [fold_left ?f peaks ?s0] =>
      assert (Hgen : forall s,
                sr_visited host (fold_left f peaks s) = sr_visited host s /\
                queue_length host (sr_queue host (fold_left f peaks s))
                = (queue_length host (sr_queue host s) + length peaks)%nat)
  end.
  { induction peaks as [|t peaks IH]; intros s; cbn [fold_left length];
      [split; [done|lia]|].
    destruct (IH {| sr_distances := zinsert t (int 0) (sr_distances host s);
                    sr_visited := sr_visited host s;
                    sr_queue := queue_push host t (int 0) (sr_queue host s);
                    sr_draws := sr_draws host s |}) as [Hv Hq].
    rewrite Hv, Hq. cbn [sr_visited sr_queue]. rewrite length_push.
    split; [done|lia]. }
  match goal with
  | |- context [fold_left _ peaks ?s0] => destruct (Hgen s0) as [Hv Hq]
  end.
  rewrite Hv, Hq. cbn [sr_visited sr_queue]. rewrite length_new. done.
Qed.

(** The fuel of the search of [calculateMountainDistance] is never used
    up: with more fuel the search returns the same state. *)
Lemma mountainSearch_enough mesh config random draws extra :
  length (neighbors mesh) = numTriangles mesh ->
  let peaks :=
    fst (fold_left
           (selectPeak mesh config
              (createSeededNoise2D host (seed config ++ "-mountains")))
           (triangleIds mesh)
           ([], Random.createRNG (seed config ++ "-mountain-selection"))) in
  mountainSearch host (searchFuel mesh + extra) mesh config random
    (startSearch host mesh peaks draws)
  = mountainSearch host (searchFuel mesh) mesh config random
      (startSearch host mesh peaks draws).
Proof.
  intros Hlen peaks.
  destruct (startSearch_state mesh peaks draws) as [Hv Hq].
  apply mountainSearch_fuel.
  - by rewrite Hv, length_replicate.
  - rewrite Hv, Hq. unfold searchFuel.
    pose proof (pending_fresh (neighbors mesh) (numTriangles mesh)).
    pose proof (selectPeak_count mesh config
                  (createSeededNoise2D host (seed config ++ "-mountains"))
                  (triangleIds mesh)
                  ([], Random.createRNG (seed config ++ "-mountain-selection")))
      as Hpeaks.
    fold peaks in Hpeaks. rewrite length_triangleIds in Hpeaks.
    cbn [fst length] in Hpeaks. lia.
Qed.

Lemma probeNeighbor_queue el ds visited nbs acc :
  (queue_length host
     (fst (fold_left (probeNeighbor host el ds visited) nbs acc))
   <= queue_length host (fst acc) + length nbs)%nat.
Proof.
  revert acc. induction nbs as [|nb nbs IH]; intros acc; cbn [fold_left length];
    [lia|].
  etrans; [apply IH|].
  enough (queue_length host (fst (probeNeighbor host el ds visited acc nb))
          <= S (queue_length host (fst acc)))%nat by lia.
  unfold probeNeighbor. repeat case_match; cbn [fst]; rewrite ?length_push; lia.
Qed.

Lemma sinkSearch_fuel mesh el ds fuel extra queue visited :
  length visited = length (neighbors mesh) ->
  (queue_length host queue + pending (neighbors mesh) visited < fuel)%nat ->
  sinkSearch host (fuel + extra) mesh el ds queue visited
  = sinkSearch host fuel mesh el ds queue visited.
Proof.
  revert queue visited.
  induction fuel as [|fuel IH]; intros queue visited Hlen Hfuel; [lia|].
  cbn [Nat.add sinkSearch].
  destruct (0 <? _)%nat; [|done].
  destruct (queue_pop host queue) as [[current q']|] eqn:Hpop; [|done].
  apply length_pop in Hpop.
  destruct (zflag visited current) eqn:Hvis.
  - apply IH; [done|lia].
  - pose proof (pending_visit mesh _ current Hlen Hvis) as Hpend.
    pose proof (probeNeighbor_queue el ds (zinsert current true visited)
                  (neighborsOf mesh current) (q', None)) as Hq.
    destruct (fold_left _ _ _) as [q'' [found|]]; [done|].
    cbn [fst] in Hq. apply IH; [by rewrite zinsert_length|lia].
Qed.

(** The fuel of the search for a way out of a sink is never used up. *)
Lemma sinkSearch_enough mesh el ds (t : Z) extra :
  length (neighbors mesh) = numTriangles mesh ->
  (0 < numTriangles mesh)%nat ->
  sinkSearch host (searchFuel mesh + extra) mesh el ds
    (queue_push host t (int 0) (queue_new host))
    (replicate (numTriangles mesh) false)
  = sinkSearch host (searchFuel mesh) mesh el ds
      (queue_push host t (int 0) (queue_new host))
      (replicate (numTriangles mesh) false).
Proof.
  intros Hlen Hpos. apply sinkSearch_fuel.
  - by rewrite length_replicate.
  - rewrite length_push, length_new. unfold searchFuel.
    pose proof (pending_fresh (neighbors mesh) (numTriangles mesh)). lia.
Qed.

End Fuel.

(** The queue of the evaluation host keeps these laws. *)
Lemma ListQueue_laws tris hes :
  let host := EvalHost.hostReturning tris hes in
  (forall t v q,
     queue_length host (queue_push host t v q) = S (queue_length host q)) /\
  (forall q t q',
     queue_pop host q = Some (t, q') ->
     queue_length host q = S (queue_length host q')) /\
  queue_length host (queue_new host) = 0%nat.
Proof.
  simpl. split; [|split; [|done]].
  - intros t v q. unfold EvalHost.lq_push. rewrite length_app. cbn. lia.
  - intros q t q'. unfold EvalHost.lq_pop.
    destruct q as [|[id v] q0]; [done|].
    destruct (_ !! _) as [[id' v']|] eqn:Hi; [|done].
    intros [= <- <-].
    unfold EvalHost.ListQueue in *.
    rewrite length_delete by (by eexists). simpl. lia.
Qed.

(** ** The field [riverMinFlow] *)

Section RiverMinFlow.
Context (host : Host) (c : MapConfig) (v : Q).

Lemma mountainSearch_rmf fuel mesh random s :
  mountainSearch host fuel mesh (set_riverMinFlow v c) random s
  = mountainSearch host fuel mesh c random s.
Proof.
  revert s; induction fuel as [|fuel IH]; intros s; [reflexivity|].
  cbn [mountainSearch].
  destruct (0 <? queue_length host (sr_queue host s))%nat; [|reflexivity].
  destruct (queue_pop host (sr_queue host s)) as [[cur q']|]; [|reflexivity].
  rewrite !IH. reflexivity.
Qed.

Lemma calculateMountainDistance_rmf mesh random draws :
  calculateMountainDistance host mesh (set_riverMinFlow v c) random draws
  = calculateMountainDistance host mesh c random draws.
Proof.
  unfold calculateMountainDistance.
  change (seed (set_riverMinFlow v c)) with (seed c).
  change (selectPeak mesh (set_riverMinFlow v c)) with (selectPeak mesh c).
  destruct (fold_left _ _ _) as [peaks rng].
  rewrite mountainSearch_rmf. reflexivity.
Qed.

Lemma generateContinentMask_rmf mesh nd :
  generateContinentMask host mesh (set_riverMinFlow v c) nd
  = generateContinentMask host mesh c nd.
Proof. reflexivity. Qed.

Lemma generateElevation_rmf mesh cm md nd :
  generateElevation mesh cm md nd (set_riverMinFlow v c)
  = generateElevation mesh cm md nd c.
Proof. reflexivity. Qed.

Lemma calculateMoisture_rmf mesh el wo :
  calculateMoisture host mesh el wo (set_riverMinFlow v c)
  = calculateMoisture host mesh el wo c.
Proof. reflexivity. Qed.

Lemma calculateFlowAccumulation_rmf mesh el rf ds :
  calculateFlowAccumulation mesh el rf ds (set_riverMinFlow v c)
  = calculateFlowAccumulation mesh el rf ds c.
Proof. reflexivity. Qed.

Lemma rasterizeRivers_rmf mesh paths W H :
  rasterizeRivers host mesh paths W H (set_riverMinFlow v c)
  = rasterizeRivers host mesh paths W H c.
Proof. reflexivity. Qed.

Lemma generateMap_rmf random :
  generateMap host (set_riverMinFlow v c) random = generateMap host c random.
Proof.
  unfold generateMap.
  change (generatePoints host (set_riverMinFlow v c)) with (generatePoints host c).
  assert (Hw : width (set_riverMinFlow v c) = width c) by reflexivity.
  assert (Hh : height (set_riverMinFlow v c) = height c) by reflexivity.
  assert (Hs : seaLevel (set_riverMinFlow v c) = seaLevel c) by reflexivity.
  rewrite Hw, Hh, Hs.
  destruct (generatePoints host c random 0) as [pd draws].
  destruct (createMesh host pd (Fin (width c)) (Fin (height c))) as [mesh|e|];
    cbn [mbind Outcome_bind]; [|reflexivity|reflexivity].
  change (precalculateNoise host (set_riverMinFlow v c))
    with (precalculateNoise host c).
  rewrite calculateMountainDistance_rmf.
  destruct (calculateMountainDistance host mesh c random draws)
    as [[dist peaks] draws'].
  rewrite generateContinentMask_rmf, generateElevation_rmf.
  change (generateTemperature host mesh ?el (set_riverMinFlow v c))
    with (generateTemperature host mesh el c).
  change (calculateWindOrder host mesh (set_riverMinFlow v c))
    with (calculateWindOrder host mesh c).
  rewrite calculateMoisture_rmf, calculateFlowAccumulation_rmf.
  repeat match goal with
         | |- context [rasterizeRivers host ?m ?p ?w ?h (set_riverMinFlow v c)] =>
             rewrite (rasterizeRivers_rmf m p w h)
         end.
  reflexivity.
Qed.

End RiverMinFlow.

(** The source compares the flow of a candidate river source with the
    constant 0.1. *)
Lemma riverSourceThreshold_constant : riverSourceThreshold = lit 1 10.
Proof. reflexivity. Qed.

(** C10: two configurations that differ only in the field [riverMinFlow]
    give the same outcome of [generateMap] (the same map data, the same
    error, or no result in both cases), whatever the host libraries and the
    run of [Math.random] are: the field is never read, and a river source is
    qualified by the constant threshold 0.1. *)
Theorem riverMinFlow_unused host (c : MapConfig) (v v' : Q) random :
  generateMap host (set_riverMinFlow v c) random
  = generateMap host (set_riverMinFlow v' c) random.
Proof. by rewrite !generateMap_rmf. Qed.

(** ** Failures of the generator *)

Lemma paintRiverPoint_not_Throws host mesh config w h flow len acc it :
  (forall e, acc <> Throws e) ->
  forall e, paintRiverPoint host mesh config w h flow len acc it <> Throws e.
Proof.
  intros Hacc e. unfold paintRiverPoint.
  destruct acc as [grid|e'|]; cbn [mbind Outcome_bind];
    [|by destruct (Hacc e')|done].
  destruct it as [i t].
  repeat case_match; done.
Qed.

Lemma paintRiver_not_Throws host mesh config w h flow len its acc :
  (forall e, acc <> Throws e) ->
  forall e,
    fold_left (paintRiverPoint host mesh config w h flow len) its acc
    <> Throws e.
Proof.
  revert acc. induction its as [|it its IH]; intros acc Hacc; [done|].
  cbn [fold_left]. apply IH. by apply paintRiverPoint_not_Throws.
Qed.

(** [rasterizeRivers] throws only when its grid cannot be allocated. *)
Lemma rasterizeRivers_not_Throws host mesh paths W H config size e :
  gridSize W H = Returns size ->
  rasterizeRivers host mesh paths W H config <> Throws e.
Proof.
  intros Hsize. unfold rasterizeRivers. rewrite Hsize.
  destruct size as [w h]. cbn [mbind Outcome_bind].
  assert (Hacc : forall e',
            @Returns (list (list num)) (replicate h (replicate w (int 0)))
            <> Throws e') by done.
  revert Hacc. generalize (Returns (replicate h (replicate w (int 0)))).
  induction paths as [|path paths IH]; intros acc Hacc; [by apply Hacc|].
  cbn [fold_left]. apply IH. intros e'.
  destruct (_ <? _)%nat; [apply Hacc|by apply paintRiver_not_Throws].
Qed.

Lemma rasterize_outcome {A} mesh (values : list A) W H :
  match gridSize W H with
  | Returns _ => exists grid, rasterize mesh values W H = Returns grid
  | Throws e => rasterize mesh values W H = Throws e
  | Diverges => rasterize mesh values W H = Diverges
  end.
Proof.
  unfold rasterize. destruct (gridSize W H) as [[w h]|e|];
    cbn [mbind Outcome_bind]; eauto.
Qed.

Lemma arrayLength_Throws n e :
  arrayLength n = Throws e -> e = RangeError "Invalid array length".
Proof. unfold arrayLength. case_match; congruence. Qed.

(** The grid allocation throws a RangeError, and nothing else. *)
Lemma gridSize_Throws W H e :
  gridSize W H = Throws e -> e = RangeError "Invalid array length".
Proof.
  unfold gridSize.
  destruct (arrayLength H) as [h|e'|] eqn:Hh; cbn [mbind Outcome_bind];
    [|intros [= <-]; by eapply arrayLength_Throws|done].
  destruct (h =? 0)%nat; [done|].
  destruct (arrayLength W) as [w|e'|] eqn:Hw; cbn [mbind Outcome_bind];
    [done|intros [= <-]; by eapply arrayLength_Throws|done].
Qed.

(** The grids of a non-negative integral size are allocated. *)
Lemma gridSize_Returns (W H : nat) :
  (Z.of_nat W < 2 ^ 32)%Z -> (Z.of_nat H < 2 ^ 32)%Z ->
  gridSize (inject_Z (Z.of_nat W)) (inject_Z (Z.of_nat H))
  = Returns (if (H =? 0)%nat then (0, 0)%nat else (W, H)).
Proof.
  intros HW HH.
  assert (Hlen : forall n : nat, (Z.of_nat n < 2 ^ 32)%Z ->
            arrayLength (inject_Z (Z.of_nat n)) = Returns n).
  { intros n Hn. unfold arrayLength. rewrite Qfloor_Z.
    rewrite Qeq_bool_refl. cbn [andb].
    destruct (Z.leb_spec 0 (Z.of_nat n)); [|lia].
    destruct (Z.ltb_spec (Z.of_nat n) (2 ^ 32)); [|lia].
    cbn [andb]. by rewrite Nat2Z.id. }
  unfold gridSize. rewrite (Hlen H HH). cbn [mbind Outcome_bind].
  destruct (H =? 0)%nat; [done|]. by rewrite (Hlen W HW).
Qed.

(** Both sides of the characterisation below, once the outcome of each
    stage is known. *)
Ltac settle_throws :=
  split;
  [ intros Heq; try discriminate Heq; injection Heq as ->;
    first [by left | right; split; [by eexists|done]]
  | intros [Heq|[[? Heq'] Heq]]; try discriminate; injection Heq as ->; done ].

(** C5 (as amended): [generateMap] does not validate the configuration.
    It throws exactly when [createMesh] throws, or when the mesh is built
    and the allocation of the output grids throws (a RangeError, for a
    height or a width that is not an integer in [0, 2^32)); every stage in
    between runs on whatever the configuration holds. *)
Theorem generateMap_Throws host config random e :
  let pointsData := fst (generatePoints host config random 0) in
  let mesh :=
    createMesh host pointsData (Fin (width config)) (Fin (height config)) in
  generateMap host config random = Throws e <->
  mesh = Throws e
  \/ (exists m, mesh = Returns m)
     /\ gridSize (width config) (height config) = Throws e.
Proof.
  intros pointsData mesh. subst pointsData mesh. unfold generateMap.
  destruct (generatePoints host config random 0) as [pd draws]. cbn [fst].
  destruct (createMesh host pd _ _) as [mesh|e'|];
    cbn [mbind Outcome_bind]; [|settle_throws|settle_throws].
  destruct (calculateMountainDistance host mesh config random draws)
    as [[distances peaks] draws'].
  unfold rasterizeElevation, rasterizeClimate, rasterizeBiomes.
  repeat match goal with
         | |- context [rasterize mesh ?v (width config) (height config)] =>
             let Hr := fresh "Hr" in
             pose proof (rasterize_outcome mesh v (width config)
                           (height config)) as Hr;
             generalize dependent
               (rasterize mesh v (width config) (height config));
             intros
         end.
  match goal with
  | |- context [rasterizeRivers host mesh ?p _ _ config] =>
      pose proof (fun size e =>
                    rasterizeRivers_not_Throws host mesh p (width config)
                      (height config) config size e) as Hrivers;
      generalize dependent
        (rasterizeRivers host mesh p (width config) (height config) config);
      intros rv Hrivers
  end.
  destruct (gridSize (width config) (height config)) as [size|e'|] eqn:Hsize.
  - repeat match goal with Hr : exists _, _ |- _ => destruct Hr as [? ->] end.
    cbn [mbind Outcome_bind].
    destruct rv as [grid|e'|]; cbn [mbind Outcome_bind].
    + settle_throws.
    + by destruct (Hrivers size e').
    + settle_throws.
  - repeat match goal with Hr : _ = Throws _ |- _ => rewrite Hr; clear Hr end.
    cbn [mbind Outcome_bind]. settle_throws.
  - repeat match goal with Hr : _ = Diverges |- _ => rewrite Hr; clear Hr end.
    cbn [mbind Outcome_bind]. settle_throws.
Qed.

(** C5 (as stated) fails: a map of width 0 with an empty seed is
    generated.  The sampler yields the single point (0, 0), no triangle is
    found, and every grid has 48 empty rows. *)
Lemma generateMap_accepts_invalid_config :
  width Examples.invalidConfig == 0
  /\ seed Examples.invalidConfig = EmptyString
  /\ generateMap Examples.degenerateHost Examples.invalidConfig
       Examples.lowDraws
     = Returns
         {| md_width := 0; md_height := 48;
            md_elevation := constGrid 0 48 None;
            md_moisture := constGrid 0 48 None;
            md_temperature := constGrid 0 48 None;
            md_biomes := constGrid 0 48 None;
            md_rivers := constGrid 0 48 (int 0) |}.
Proof. split; [reflexivity|]. split; [reflexivity|]. vm_compute. reflexivity. Qed.

(** ** Invariant violations *)

(** The [catch] of [assignBiomes]: when the classification of a triangle
    fails, every triangle is OCEAN. *)
Lemma assignBiomes_default mesh el mo te sea (t : Z) :
  t ∈ triangleIds mesh ->
  biomeOf mesh el mo te sea t = None ->
  assignBiomes mesh el mo te sea = replicate (numTriangles mesh) OCEAN.
Proof.
  intros Ht Hnone. unfold assignBiomes.
  destruct (mapM _ _) as [bs|] eqn:Hm; [|done].
  apply mapM_Some in Hm.
  apply list_elem_of_lookup_1 in Ht as [i Hi].
  destruct (Forall2_lookup_l _ _ _ _ _ Hm Hi) as (b & _ & Hb). congruence.
Qed.

(** C6 (as stated) fails: on a point set on which the triangulation finds
    no triangle the mesh has zero triangles, and the map is returned with
    undefined elevation, moisture, temperature and biome at every pixel. *)
Lemma generateMap_returns_empty_mesh :
  (exists mesh,
     createMesh Examples.degenerateHost
       (fst (generatePoints Examples.degenerateHost Examples.sparseConfig
               Examples.lowDraws 0))
       (Fin 64) (Fin 48) = Returns mesh
     /\ numTriangles mesh = 0%nat)
  /\ generateMap Examples.degenerateHost Examples.sparseConfig
       Examples.lowDraws
     = Returns
         {| md_width := 64; md_height := 48;
            md_elevation := constGrid 64 48 None;
            md_moisture := constGrid 64 48 None;
            md_temperature := constGrid 64 48 None;
            md_biomes := constGrid 64 48 None;
            md_rivers := constGrid 64 48 (int 0) |}.
Proof.
  split; [eexists; split; [vm_compute; reflexivity|reflexivity]|].
  vm_compute. reflexivity.
Qed.

(** * Further properties of the pipeline *)

(** ** Seeded randomness *)

Lemma toInt32_range z : (- 2 ^ 31 <= Random.toInt32 z < 2 ^ 31)%Z.
Proof.
  unfold Random.toInt32.
  pose proof (Z.mod_pos_bound (z + 2 ^ 31) (2 ^ 32) ltac:(lia)). lia.
Qed.

Lemma hashSeed_from_range hash seed :
  (- 2 ^ 31 <= hash < 2 ^ 31)%Z ->
  (- 2 ^ 31 <= Random.hashSeed_from hash seed < 2 ^ 31)%Z.
Proof.
  revert hash. induction seed as [|c rest IH]; intros hash Hhash; [done|].
  cbn [Random.hashSeed_from]. apply IH, toInt32_range.
Qed.

(** [hashSeed] returns a signed 32-bit integer, whatever the seed is. *)
Theorem hashSeed_int32 (seed : string) :
  (- 2 ^ 31 <= Random.hashSeed seed < 2 ^ 31)%Z.
Proof. apply hashSeed_from_range. lia. Qed.

(** The hash of a seed followed by a suffix (as in [seed + "-mountains"])
    is the hash of the suffix started from the hash of the seed. *)
Lemma hashSeed_from_app hash (s1 s2 : string) :
  Random.hashSeed_from hash (s1 ++ s2)
  = Random.hashSeed_from (Random.hashSeed_from hash s1) s2.
Proof.
  revert hash. induction s1 as [|c s1 IH]; intros hash; [done|].
  cbn. apply IH.
Qed.

(** Every value that a generator made by [createRNG] returns is a number in
    [0, 1). *)
Theorem rngStream_unit_interval (seed : string) (n : nat) :
  exists q, Random.rngStream seed n = Fin q /\ 0 <= q /\ q < 1.
Proof.
  unfold Random.rngStream, Random.rngValue.
  pose proof (Z.mod_pos_bound
                (Random.toUint32 (Random.rngState (Random.createRNG seed) n))
                2147483647 ltac:(lia)) as Hm.
  revert Hm. generalize (Random.toUint32
                           (Random.rngState (Random.createRNG seed) n)
                         mod 2147483647)%Z.
  intros m Hm. exists (m # 2147483647). split; [done|].
  unfold Qle, Qlt. cbn [Qnum Qden]. lia.
Qed.

Lemma xorshift_zero : Random.xorshift 0 = 0%Z.
Proof. reflexivity. Qed.

Lemma rngState_zero n : Random.rngState 0 n = 0%Z.
Proof.
  unfold Random.rngState. induction n as [|n IH]; [done|].
  rewrite Nat.iter_succ, IH. apply xorshift_zero.
Qed.

(** A seed whose hash is 0 gives a generator that is stuck: the state stays
    0 and every value returned is 0. *)
Theorem rngStream_stuck (seed : string) (n : nat) :
  Random.hashSeed seed = 0%Z ->
  Num.normal (Random.rngStream seed n) = Fin 0.
Proof.
  intros Hzero. unfold Random.rngStream, Random.createRNG.
  rewrite Hzero, rngState_zero. reflexivity.
Qed.

(** The empty seed is such a seed. *)
Lemma rngStream_stuck_witness :
  Num.normal (Random.rngStream EmptyString 5) = Fin 0.
Proof. apply (rngStream_stuck EmptyString 5). reflexivity. Defined.

(** ** Point generation, continued *)

(** A loop keeps what its body keeps, as long as the counter stays where
    the body needs it. *)
Lemma for_num_invariant {St} (C : num -> Prop) (P : St -> Prop) fuel cond next
    (body : num -> St -> St) x s :
  (forall x, C x -> cond x = true -> C (next x)) ->
  (forall x s, C x -> cond x = true -> P s -> P (body x s)) ->
  C x -> P s -> P (for_num fuel cond next body x s).
Proof.
  intros Hnext Hbody. revert x s.
  induction fuel as [|fuel IH]; intros x s HC HP; [done|].
  cbn. destruct (cond x) eqn:Hc; [|done].
  apply IH; [by apply Hnext|by apply Hbody].
Qed.

Lemma ltb_Fin x y : (Fin x <? Fin y)%num = true <-> x < y.
Proof. cbn. apply Qlt_bool_iff. Qed.

Lemma Forall_push (P : Point -> Prop) x y pts :
  Forall P pts -> P {| px := x; py := y |} -> Forall P (push_point x y pts).
Proof.
  intros Hpts Hp. unfold push_point. apply Forall_app. split; [done|].
  by constructor.
Qed.

Lemma boundary_loops_on_border (W H sp : Q) (pts : list Point) :
  0 < sp -> 0 <= W -> 0 <= H ->
  Forall (onBorder W H) pts ->
  Forall (onBorder W H) (createBoundaryPoints pts (Fin W) (Fin H) (Fin sp)).
Proof.
  intros Hsp HW HH Hpts. unfold createBoundaryPoints.
  apply (for_num_invariant (atMost H)).
  - intros y (q & -> & Hq) _. exists (q - sp). split; [done|lra].
  - intros y s (q & -> & Hq) Hc Hs. apply Forall_push; [done|].
    apply (proj1 (leb_Fin sp q)) in Hc.
    exists 0, q. cbn. repeat split; try done; lra.
  - exists (H - sp). split; [done|lra].
  - apply (for_num_invariant (atMost W)).
    + intros x (q & -> & Hq) _. exists (q - sp). split; [done|lra].
    + intros x s (q & -> & Hq) Hc Hs. apply Forall_push; [done|].
      apply (proj1 (leb_Fin 0 q)) in Hc.
      exists q, H. cbn. repeat split; try done; lra.
    + exists (W - sp). split; [done|lra].
    + apply (for_num_invariant (atLeast 0)).
      * intros y (q & -> & Hq) _. exists (q + sp). split; [done|lra].
      * intros y s (q & -> & Hq) Hc Hs. apply Forall_push; [done|].
        apply leb_Fin in Hc.
        exists W, q. cbn. repeat split; try done; lra.
      * exists sp. split; [done|lra].
      * apply (for_num_invariant (atLeast 0)).
        -- intros x (q & -> & Hq) _. exists (q + sp). split; [done|lra].
        -- intros x s (q & -> & Hq) Hc Hs. apply Forall_push; [done|].
           apply leb_Fin in Hc.
           exists q, 0. cbn. repeat split; try done; lra.
        -- exists 0. split; [done|lra].
        -- done.
Qed.

(** Every point that [createBoundaryPoints] adds lies on the border of the
    map rectangle. *)
Theorem createBoundaryPoints_on_border (W H sp : Q) (pts : list Point) :
  0 < sp -> 0 <= W -> 0 <= H ->
  Forall (onBorder W H) pts ->
  Forall (onBorder W H) (createBoundaryPoints pts (Fin W) (Fin H) (Fin sp)).
Proof. apply boundary_loops_on_border. Qed.

(** On the 10 x 10 map with spacing 5/2 the sixteen points are on the
    border. *)
Lemma createBoundaryPoints_on_border_witness :
  Forall (onBorder 10 10)
    (createBoundaryPoints [] (Fin 10) (Fin 10) (Fin (5 # 2))).
Proof.
  apply (createBoundaryPoints_on_border 10 10 (5 # 2) []); [lra|lra|lra|].
  constructor.
Defined.

Lemma onBorder_inMap W H p : onBorder W H p -> inMap W H p.
Proof.
  intros (x & y & Hx & Hy & H1 & H2 & H3 & H4 & _). by exists x, y.
Qed.

(** [Math.max(lo, Math.min(hi, v))] on finite numbers with [lo <= hi]. *)
Lemma clamp_Fin (lo hi v : Q) :
  lo <= hi ->
  exists q, Num.max (Fin lo) (Num.min (Fin hi) (Fin v)) = Fin q
            /\ lo <= q /\ q <= hi.
Proof.
  intros Hle. cbn.
  destruct (Num.Qlt_bool v hi) eqn:E1; cbn.
  - apply Qlt_bool_iff in E1.
    destruct (Num.Qlt_bool lo v) eqn:E2.
    + apply Qlt_bool_iff in E2. exists v. split; [done|lra].
    + apply Qlt_bool_false in E2. exists lo. split; [done|lra].
  - apply Qlt_bool_false in E1.
    destruct (Num.Qlt_bool lo hi) eqn:E2.
    + exists hi. split; [done|lra].
    + exists lo. split; [done|lra].
Qed.

Lemma clamp_eq (a b c : num) (lo hi v : Q) :
  a = Fin lo -> b = Fin hi -> c = Fin v -> lo <= hi ->
  exists q, Num.max a (Num.min b c) = Fin q /\ lo <= q /\ q <= hi.
Proof. intros -> -> ->. apply clamp_Fin. Qed.

(** What the body of the sampling loop does to the two lists. *)
Lemma samplePoint_lists config cs n2 mn random x y s :
  let offsetX :=
    ((Fin (random (s_draws s)) * int 2 - int 1) * cs
     * Fin (pointDeviation config))%num in
  let offsetY :=
    ((Fin (random (S (s_draws s))) * int 2 - int 1) * cs
     * Fin (pointDeviation config))%num in
  let p_x :=
    Num.max (cs / int 2)%num
      (Num.min (Fin (width config) - cs / int 2) (x + offsetX))%num in
  let p_y :=
    Num.max (cs / int 2)%num
      (Num.min (Fin (height config) - cs / int 2) (y + offsetY))%num in
  let s' := samplePoint config cs n2 mn random x y s in
  s_points s' = push_point p_x p_y (s_points s) /\
  (s_mountain s' = s_mountain s
   \/ s_mountain s' = push_point p_x p_y (s_mountain s)).
Proof.
  cbv zeta. unfold samplePoint. repeat case_match; cbn; auto.
Qed.

Lemma samplePoint_appends config cs n2 mn random x y s :
  let s' := samplePoint config cs n2 mn random x y s in
  exists pt, s_points s' = s_points s ++ [pt]
             /\ (s_mountain s' = s_mountain s
                 \/ s_mountain s' = s_mountain s ++ [pt]).
Proof.
  destruct (samplePoint_lists config cs n2 mn random x y s) as [Hp Hm].
  eexists. split; [exact Hp|exact Hm].
Qed.

(** The counter of a sampling loop that starts at [cs / 2]. *)
Lemma sampling_counter (cs : Q) (x : num) :
  0 < cs -> atLeast (cs / 2) x -> atLeast (cs / 2) (x + Fin cs)%num.
Proof.
  intros Hcs (q & -> & Hq). exists (q + cs). split; [done|lra].
Qed.

(** Every point that [generatePoints] returns lies in the map rectangle:
    the border points on its border, and the jittered points, which are
    clamped, at least half a cell away from it. *)
Theorem generatePoints_in_map host config random draws (cs : Q) :
  cellSize host config = Fin cs -> 0 < cs ->
  0 <= width config -> 0 <= height config ->
  Forall (inMap (width config) (height config))
    (points (fst (generatePoints host config random draws))).
Proof.
  intros Hcell Hcs HW HH. unfold generatePoints, samplePoints.
  rewrite Hcell. cbn [fst points].
  change (Fin cs / int 2)%num with (Fin (cs / 2)).
  assert (Hhalf : 0 < cs / 2) by (apply Qlt_shift_div_l; lra).
  apply (for_num_invariant (atLeast (cs / 2))
           (fun s => Forall (inMap (width config) (height config))
                       (s_points s))).
  - intros y Hy _. by apply sampling_counter.
  - intros y s (qy & -> & Hqy) Hcy Hs.
    apply ltb_Fin in Hcy.
    apply (for_num_invariant (atLeast (cs / 2))
             (fun s => Forall (inMap (width config) (height config))
                         (s_points s))); [| | |done].
    + intros x Hx _. by apply sampling_counter.
    + intros x s' (qx & -> & Hqx) Hcx Hs'.
      apply ltb_Fin in Hcx.
      destruct (samplePoint_lists config (Fin cs)
                  (createSeededNoise2D host (seed config))
                  (createSeededNoise2D host (seed config ++ "-mountains"))
                  random (Fin qx) (Fin qy) s') as [-> _].
      apply Forall_push; [done|].
      change (Fin cs / int 2)%num with (Fin (cs / 2)).
      match goal with
      | |- inMap _ _ {| px := Num.max ?a (Num.min ?bx ?vx);
                        py := Num.max _ (Num.min ?by_ ?vy) |} =>
          edestruct (clamp_eq a bx vx (cs / 2) (width config - cs / 2))
            as (x' & Ex & Hx1 & Hx2);
            [reflexivity|reflexivity|reflexivity|lra|];
          edestruct (clamp_eq a by_ vy (cs / 2) (height config - cs / 2))
            as (y' & Ey & Hy1 & Hy2);
            [reflexivity|reflexivity|reflexivity|lra|]
      end.
      exists x', y'. cbn [px py].
      split; [exact Ex|]. split; [exact Ey|]. lra.
    + exists (cs / 2). split; [done|lra].
  - exists (cs / 2). split; [done|lra].
  - cbn [s_points].
    eapply Forall_impl;
      [apply boundary_loops_on_border; [done..|constructor]|].
    apply onBorder_inMap.
Qed.

(** The 196 points of the 64 x 48 map with cell size 5. *)
Lemma generatePoints_in_map_witness :
  Forall (inMap 64 48)
    (points (fst (generatePoints Examples.degenerateHost Examples.baseConfig
                    Examples.highDraws 0))).
Proof.
  apply (generatePoints_in_map Examples.degenerateHost Examples.baseConfig
           Examples.highDraws 0 5).
  - vm_compute. reflexivity.
  - lra.
  - cbn. lra.
  - cbn. lra.
Defined.

(** Every mountain point is one of the points. *)
Theorem mountainPoints_among_points host config random draws :
  let pointsData := fst (generatePoints host config random draws) in
  Forall (fun p => p ∈ points pointsData) (mountainPoints pointsData).
Proof.
  unfold generatePoints, samplePoints. cbn [fst points mountainPoints].
  set (keeps := fun s : Sampler =>
                  Forall (fun p => p ∈ s_points s) (s_mountain s)).
  apply (for_num_invariant (fun _ => True) keeps); [done| |done|by constructor].
  intros y s _ _ Hs.
  apply (for_num_invariant (fun _ => True) keeps); [done| |done|done].
  intros x s' _ _ Hs'. unfold keeps in *.
  match goal with
  | |- context [samplePoint ?c ?cs ?n ?m ?r ?x ?y ?s] =>
      destruct (samplePoint_appends c cs n m r x y s) as (pt & Hp & Hm)
  end.
  rewrite Hp.
  assert (Hold : Forall (fun p => p ∈ s_points s' ++ [pt]) (s_mountain s')).
  { eapply Forall_impl; [exact Hs'|]. intros p Hin.
    apply elem_of_app. left. exact Hin. }
  destruct Hm as [->| ->]; [exact Hold|].
  apply Forall_app. split; [exact Hold|].
  constructor; [|constructor]. apply elem_of_app. right. apply list_elem_of_here.
Qed.

(** ** Mesh construction, continued *)

(** The flags that the loop of [createMesh] has set after [k] halfedges:
    those of the triangles met with a halfedge that has no opposite. *)
Lemma meshLoop_boundary hes numT k b n :
  meshLoop hes numT k = Returns (b, n) ->
  length b = numT /\
  forall t, (t < numT)%nat ->
    (b !! t = Some true <->
     exists e o, (e < k)%nat /\ (e / 3)%nat = t /\ hes !! e = Some o
                 /\ (o < 0)%Z).
Proof.
  revert b n. induction k as [|k IH]; intros b n.
  - unfold meshLoop. simpl. intros [= <- <-].
    split; [apply length_replicate|]. intros t Ht.
    rewrite lookup_replicate_2 by done. split; [done|].
    intros (e & o & He & _). lia.
  - rewrite meshLoop_S.
    destruct (meshLoop hes numT k) as [[b' n']|e|] eqn:Hloop; [|done|done].
    destruct (IH b' n' eq_refl) as (Hlen & Hflags).
    unfold meshStep. remember (k / 3)%nat as tk eqn:Htk.
    cbn [mbind Outcome_bind].
    destruct (hes !! k) as [o|] eqn:Ho.
    + destruct (Z.geb_spec o 0) as [Hpos|Hneg].
      * destruct (n' !! tk); [|done]. intros [= <- <-].
        split; [done|]. intros t Ht. rewrite (Hflags t Ht). split.
        -- intros (e & o' & He & Hrest). exists e, o'. split; [lia|done].
        -- intros (e & o' & He & Het & Ho' & Hneg).
           destruct (decide (e = k)) as [->|Hne].
           ++ rewrite Ho in Ho'. injection Ho' as <-. lia.
           ++ exists e, o'. split; [lia|done].
      * intros [= <- <-]. split; [by rewrite length_insert|].
        intros t Ht. destruct (decide (t = tk)) as [->|Hne].
        -- rewrite list_lookup_insert_eq by lia. split; [|done].
           intros _. exists k, o. split; [lia|done].
        -- rewrite list_lookup_insert_ne by done. rewrite (Hflags t Ht). split.
           ++ intros (e & o' & He & Hrest). exists e, o'. split; [lia|done].
           ++ intros (e & o' & He & Het & Ho' & Hneg').
              destruct (decide (e = k)) as [->|Hne']; [congruence|].
              exists e, o'. split; [lia|done].
    + intros [= <- <-]. split; [done|]. intros t Ht. rewrite (Hflags t Ht).
      split.
      * intros (e & o' & He & Hrest). exists e, o'. split; [lia|done].
      * intros (e & o' & He & Het & Ho' & Hneg).
        destruct (decide (e = k)) as [->|Hne]; [congruence|].
        exists e, o'. split; [lia|done].
Qed.

Lemma createMesh_fields host pd W H mesh :
  createMesh host pd W H = Returns mesh ->
  numTriangles mesh = (length (triangles mesh) / 3)%nat /\
  (length (triangles mesh) mod 3)%nat = 0%nat /\
  numHalfedges mesh = length (halfedges mesh) /\
  numPoints mesh = length (points pd) /\
  mesh_points mesh = flat_map (fun p => [px p; py p]) (points pd) /\
  triangleCenters mesh
  = map (fun t => calculateTriangleCenter t (triangles mesh) (mesh_points mesh))
      (seq 0 (numTriangles mesh)).
Proof.
  unfold createMesh, createMesh_body.
  destruct (Delaunator host _) as [msg|[tris hes]]; [done|].
  destruct (Nat.eqb_spec (length tris mod 3) 0) as [Hmod|]; [|done].
  cbn [negb].
  destruct (fold_left _ _ _) as [[b n]|e|]; cbn [mbind Outcome_bind];
    [|done|done].
  intros [= <-]. cbn. done.
Qed.

(** The arrays of a mesh that [createMesh] returns: a flag, a row of three
    neighbour slots and a centre for each of the
    [triangles.length / 3] triangles. *)
Theorem createMesh_shape host pd W H mesh :
  createMesh host pd W H = Returns mesh ->
  numTriangles mesh = (length (triangles mesh) / 3)%nat /\
  length (is_boundary_t mesh) = numTriangles mesh /\
  length (neighbors mesh) = numTriangles mesh /\
  Forall (fun row => length row = 3%nat) (neighbors mesh) /\
  length (triangleCenters mesh) = numTriangles mesh.
Proof.
  intros Hmesh.
  destruct (createMesh_fields _ _ _ _ _ Hmesh) as (HnumT & _ & _ & _ & _ & Hc).
  pose proof (createMesh_loop _ _ _ _ _ Hmesh) as Hloop.
  destruct (meshLoop_boundary _ _ _ _ _ Hloop) as [Hb _].
  destruct (meshLoop_spec _ _ _ _ _ ltac:(done) Hloop) as (Hn & Hrows & _).
  repeat split; try done.
  - apply Forall_lookup. intros t row Hrow.
    assert (Ht : (t < numTriangles mesh)%nat)
      by (rewrite <- Hn; by eapply lookup_lt_Some).
    rewrite (Hrows t Ht) in Hrow. by injection Hrow as <-.
  - by rewrite Hc, length_map, length_seq.
Qed.

Lemma createMesh_shape_witness :
  numTriangles Examples.gridMesh = (length (triangles Examples.gridMesh) / 3)%nat /\
  length (is_boundary_t Examples.gridMesh) = numTriangles Examples.gridMesh /\
  length (neighbors Examples.gridMesh) = numTriangles Examples.gridMesh /\
  Forall (fun row => length row = 3%nat) (neighbors Examples.gridMesh) /\
  length (triangleCenters Examples.gridMesh) = numTriangles Examples.gridMesh.
Proof.
  apply (createMesh_shape Examples.gridHost Examples.gridPointsData
           (int 5) (int 5) Examples.gridMesh).
  vm_compute. reflexivity.
Defined.

(** A triangle is flagged as a boundary triangle exactly when one of its
    halfedges has no opposite. *)
Theorem createMesh_boundary host pd W H mesh (t : nat) :
  createMesh host pd W H = Returns mesh ->
  (t < numTriangles mesh)%nat ->
  flag (is_boundary_t mesh) t = true <->
  exists e o, (e / 3)%nat = t /\ halfedges mesh !! e = Some o /\ (o < 0)%Z.
Proof.
  intros Hmesh Ht.
  pose proof (createMesh_loop _ _ _ _ _ Hmesh) as Hloop.
  destruct (meshLoop_boundary _ _ _ _ _ Hloop) as [Hb Hflags].
  unfold flag. split.
  - intros Hflag.
    destruct (is_boundary_t mesh !! t) as [[|]|] eqn:Hbt; try done.
    apply (Hflags t Ht) in Hbt as (e & o & _ & Hrest). by exists e, o.
  - intros (e & o & Het & Ho & Hneg).
    assert (Hbt : is_boundary_t mesh !! t = Some true).
    { apply (Hflags t Ht). exists e, o.
      split; [by eapply lookup_lt_Some|done]. }
    by rewrite Hbt.
Qed.

(** In the mesh of the lattice the triangle 0 is on the boundary and the
    triangle 24 is not. *)
Lemma createMesh_boundary_witness :
  flag (is_boundary_t Examples.gridMesh) 0 = true <->
  exists e o, (e / 3)%nat = 0%nat
              /\ halfedges Examples.gridMesh !! e = Some o /\ (o < 0)%Z.
Proof.
  apply (createMesh_boundary Examples.gridHost Examples.gridPointsData
           (int 5) (int 5) Examples.gridMesh 0).
  - vm_compute. reflexivity.
  - vm_compute. lia.
Defined.

(** When every halfedge points inside the triangulation, every neighbour
    slot holds [-1] or the index of a triangle of the mesh. *)
Theorem createMesh_neighbors_in_range host pd W H mesh (t u : Z) :
  createMesh host pd W H = Returns mesh ->
  (forall e o, halfedges mesh !! e = Some o ->
     (o < 3 * Z.of_nat (numTriangles mesh))%Z) ->
  u ∈ neighborsOf mesh t ->
  u = (-1)%Z \/ (0 <= u < Z.of_nat (numTriangles mesh))%Z.
Proof.
  intros Hmesh Hin Hu.
  pose proof (createMesh_loop _ _ _ _ _ Hmesh) as Hloop.
  destruct (meshLoop_spec _ _ _ _ _ ltac:(done) Hloop) as (Hn & Hrows & _).
  unfold neighborsOf, zlookup in Hu.
  destruct (Z.ltb_spec t 0); [by apply elem_of_nil in Hu|].
  destruct (neighbors mesh !! Z.to_nat t) as [row|] eqn:Hrow;
    [|by apply elem_of_nil in Hu].
  simpl in Hu.
  assert (Ht : (Z.to_nat t < numTriangles mesh)%nat)
    by (rewrite <- Hn; by eapply lookup_lt_Some).
  rewrite (Hrows _ Ht) in Hrow. injection Hrow as <-.
  assert (Hslot : forall j,
            slotAfter (halfedges mesh) (length (halfedges mesh))
              (Z.to_nat t) j = (-1)%Z
            \/ (0 <= slotAfter (halfedges mesh) (length (halfedges mesh))
                       (Z.to_nat t) j < Z.of_nat (numTriangles mesh))%Z).
  { intros j. unfold slotAfter.
    destruct (halfedges mesh !! _) as [o|] eqn:Ho; [|by left].
    destruct (Z.leb_spec 0 o); cbn [andb]; [|by left].
    destruct (_ <? _)%nat; [|by left]. right.
    specialize (Hin _ _ Ho). split; [by apply Z.div_pos|].
    apply Z.div_lt_upper_bound; lia. }
  rewrite !elem_of_cons, elem_of_nil in Hu.
  destruct Hu as [->|[->|[->|[]]]]; apply Hslot.
Qed.

Lemma createMesh_neighbors_in_range_witness :
  (25 = -1 \/ 0 <= 25 < Z.of_nat (numTriangles Examples.gridMesh))%Z.
Proof.
  apply (createMesh_neighbors_in_range Examples.gridHost
           Examples.gridPointsData (int 5) (int 5) Examples.gridMesh 22 25).
  - vm_compute. reflexivity.
  - intros e o Ho.
    assert (Hall : forallb (fun o => (o <? 150)%Z)
                     (halfedges Examples.gridMesh) = true)
      by (vm_compute; reflexivity).
    rewrite forallb_forall in Hall.
    apply list_elem_of_lookup_2, list_elem_of_In, Hall in Ho.
    change (numTriangles Examples.gridMesh) with 50%nat. lia.
  - vm_compute. apply list_elem_of_further, list_elem_of_further, list_elem_of_here.
Defined.

(** The coordinates of point [p] in the flat array of coordinates. *)
Lemma flatPoints_lookup (pts : list Point) (p : nat) (pt : Point) :
  pts !! p = Some pt ->
  getNum (flat_map (fun p => [px p; py p]) pts) (p * 2 + 0) = px pt /\
  getNum (flat_map (fun p => [px p; py p]) pts) (p * 2 + 1) = py pt.
Proof.
  revert p. induction pts as [|q pts IH]; intros p Hp; [done|].
  destruct p as [|p].
  - injection Hp as ->. done.
  - apply IH in Hp as [Hx Hy]. split; [exact Hx|exact Hy].
Qed.

Lemma mean_in_range (lo hi a b c : Q) :
  lo <= a <= hi -> lo <= b <= hi -> lo <= c <= hi ->
  exists q, ((Fin a + Fin b + Fin c) / int 3)%num = Fin q /\ lo <= q <= hi.
Proof.
  intros Ha Hb Hc. exists ((a + b + c) / 3). split; [done|].
  split.
  - apply Qle_shift_div_l; lra.
  - apply Qle_shift_div_r; lra.
Qed.

(** The centre of a triangle whose corners are points of the map rectangle
    is a point of the map rectangle. *)
Theorem createMesh_centers_in_map host pd Wm Hm mesh (W H : Q) (t : nat) :
  createMesh host pd Wm Hm = Returns mesh ->
  Forall (inMap W H) (points pd) ->
  (forall i p, triangles mesh !! i = Some p -> (p < length (points pd))%nat) ->
  (t < numTriangles mesh)%nat ->
  inMap W H (t_center mesh (Z.of_nat t)).
Proof.
  intros Hmesh Hpts Hidx Ht.
  destruct (createMesh_fields _ _ _ _ _ Hmesh)
    as (HnumT & Hmod & _ & _ & Hflat & Hc).
  unfold t_center. rewrite zlookup_of_nat, Hc, list_lookup_fmap.
  rewrite lookup_seq_lt by done. cbn [fmap option_fmap option_map default].
  assert (Hlen : (3 * numTriangles mesh = length (triangles mesh))%nat).
  { pose proof (Nat.div_mod_eq (length (triangles mesh)) 3). lia. }
  assert (Hcorner : forall k, (k < 3)%nat ->
            exists p pt, triangles mesh !! (t * 3 + k)%nat = Some p
                         /\ points pd !! p = Some pt /\ inMap W H pt).
  { intros k Hk.
    destruct (lookup_lt_is_Some_2 (triangles mesh) (t * 3 + k)%nat ltac:(lia))
      as [p Hp].
    destruct (lookup_lt_is_Some_2 (points pd) p (Hidx _ _ Hp)) as [pt Hpt].
    exists p, pt. split; [done|]. split; [done|].
    rewrite Forall_lookup in Hpts. by eapply Hpts. }
  destruct (Hcorner 0%nat ltac:(lia)) as (p0 & pt0 & Hp0 & Hpt0 & Hin0).
  destruct (Hcorner 1%nat ltac:(lia)) as (p1 & pt1 & Hp1 & Hpt1 & Hin1).
  destruct (Hcorner 2%nat ltac:(lia)) as (p2 & pt2 & Hp2 & Hpt2 & Hin2).
  unfold calculateTriangleCenter. cbv beta zeta. change (0 + t)%nat with t.
  rewrite Hp0, Hp1, Hp2, Hflat.
  destruct (flatPoints_lookup _ _ _ Hpt0) as [-> ->].
  destruct (flatPoints_lookup _ _ _ Hpt1) as [-> ->].
  destruct (flatPoints_lookup _ _ _ Hpt2) as [-> ->].
  destruct Hin0 as (x0 & y0 & -> & -> & ?).
  destruct Hin1 as (x1 & y1 & -> & -> & ?).
  destruct Hin2 as (x2 & y2 & -> & -> & ?).
  destruct (mean_in_range 0 W x0 x1 x2) as (x & Hx & ?); [lra..|].
  destruct (mean_in_range 0 H y0 y1 y2) as (y & Hy & ?); [lra..|].
  exists x, y. cbn [px py]. split; [exact Hx|]. split; [exact Hy|]. lra.
Qed.

(** The centre of triangle 24 of the lattice is a point of the 5 x 5
    square. *)
Lemma createMesh_centers_in_map_witness :
  inMap 5 5 (t_center Examples.gridMesh 24).
Proof.
  apply (createMesh_centers_in_map Examples.gridHost Examples.gridPointsData
           (int 5) (int 5) Examples.gridMesh 5 5 24).
  - vm_compute. reflexivity.
  - assert (Hall : forallb
                     (fun p =>
                        match px p, py p with
                        | Fin x, Fin y =>
                            Qle_bool 0 x && Qle_bool x 5
                            && Qle_bool 0 y && Qle_bool y 5
                        | _, _ => false
                        end)
                     (points Examples.gridPointsData) = true)
      by (vm_compute; reflexivity).
    rewrite forallb_forall in Hall. apply Forall_forall. intros p Hp.
    apply list_elem_of_In, Hall in Hp.
    destruct (px p) as [| | |x] eqn:Ex; try done.
    destruct (py p) as [| | |y] eqn:Ey; try done.
    apply andb_prop in Hp as [Hp H4]. apply andb_prop in Hp as [Hp H3].
    apply andb_prop in Hp as [H1 H2].
    apply Qle_bool_iff in H1, H2, H3, H4. exists x, y. done.
  - intros i p Hp.
    assert (Hall : forallb (fun p => (p <? 36)%nat)
                     (triangles Examples.gridMesh) = true)
      by (vm_compute; reflexivity).
    rewrite forallb_forall in Hall.
    apply list_elem_of_lookup_2, list_elem_of_In, Hall in Hp.
    apply Nat.ltb_lt in Hp. exact Hp.
  - vm_compute. lia.
Defined.

(** ** Terrain, continued *)

(** Arithmetic on a number that is not finite never gives a finite
    number. *)
Lemma inf_of_sign_not_finite s : isFiniteNum (Num.inf_of_sign s) = false.
Proof. by destruct s. Qed.

Lemma add_not_finite_l a b : isFiniteNum a = false -> isFiniteNum (a + b) = false.
Proof. destruct a, b; done. Qed.

Lemma add_not_finite_r a b : isFiniteNum b = false -> isFiniteNum (a + b) = false.
Proof. destruct a, b; done. Qed.

Lemma sub_not_finite_l a b : isFiniteNum a = false -> isFiniteNum (a - b) = false.
Proof. destruct a, b; done. Qed.

Lemma mul_not_finite_l a b : isFiniteNum a = false -> isFiniteNum (a * b) = false.
Proof.
  destruct a, b; try done; intros _; apply inf_of_sign_not_finite.
Qed.

Lemma div_not_finite_l a b : isFiniteNum a = false -> isFiniteNum (a / b) = false.
Proof.
  destruct a, b; try done; intros _; apply inf_of_sign_not_finite.
Qed.

Lemma fround_not_finite a :
  isFiniteNum a = false -> isFiniteNum (Num.fround a) = false.
Proof. by destruct a. Qed.

(** The raw elevation of a triangle at infinite distance from the peaks is
    not finite. *)
Lemma rawElevation_not_finite mesh continentMask mountainDistance noiseData
    config (t : nat) :
  getNum mountainDistance t = PosInf ->
  isFiniteNum
    (rawElevation mesh continentMask mountainDistance noiseData config t)
  = false.
Proof.
  intros Hdist. unfold rawElevation. rewrite Hdist. cbv zeta.
  match goal with
  | |- isFiniteNum (if _ then (?e * _)%num else ?e) = false =>
      assert (He : isFiniteNum e = false)
  end.
  { apply add_not_finite_l, add_not_finite_r, mul_not_finite_l.
    unfold square. by apply mul_not_finite_l. }
  destruct (_ <? _)%num; [by apply mul_not_finite_l|done].
Qed.

(** The array after the first loop of [generateElevation]: 0 for a
    boundary triangle and the raw elevation for the others. *)
Lemma passUpTo_content mesh raw k :
  (k <= numTriangles mesh)%nat ->
  length (ev_elevation (passUpTo mesh raw k)) = numTriangles mesh /\
  forall t, (t < k)%nat ->
    ev_elevation (passUpTo mesh raw k) !! t
    = Some (if flag (is_boundary_t mesh) t then int 0
            else Num.fround (raw t)).
Proof.
  induction k as [|k IH]; intros Hk.
  - unfold passUpTo. simpl. split; [apply length_replicate|lia].
  - rewrite passUpTo_S. destruct (IH ltac:(lia)) as [Hlen Hrows].
    unfold elevationStep.
    destruct (flag (is_boundary_t mesh) k) eqn:Hb; cbn [ev_elevation];
      (split; [by rewrite length_insert|]);
      intros t Ht; (destruct (decide (t = k)) as [->|Hne];
        [rewrite list_lookup_insert_eq by lia; by rewrite Hb
        |rewrite list_lookup_insert_ne by done; apply Hrows; lia]).
Qed.

Lemma elevationPass_content mesh raw (t : nat) :
  (t < numTriangles mesh)%nat ->
  ev_elevation (elevationPass mesh raw) !! t
  = Some (if flag (is_boundary_t mesh) t then int 0 else Num.fround (raw t)).
Proof.
  intros Ht.
  destruct (passUpTo_content mesh raw (numTriangles mesh) ltac:(lia)) as [_ H].
  by apply H.
Qed.

(** Without a finite distance to a peak there is no finite elevation: a
    non-boundary triangle whose mountain distance is infinite (as it is for
    every triangle when no peak was selected) gets an elevation that is
    infinite or NaN. *)
Theorem generateElevation_not_finite mesh continentMask mountainDistance
    noiseData config (t : nat) :
  interior mesh t ->
  getNum mountainDistance t = PosInf ->
  exists e,
    generateElevation mesh continentMask mountainDistance noiseData config !! t
    = Some e
    /\ isFiniteNum e = false.
Proof.
  intros [Ht Hb] Hdist.
  pose proof (rawElevation_not_finite mesh continentMask mountainDistance
                noiseData config t Hdist) as Hraw.
  pose proof (elevationPass_content mesh
                (rawElevation mesh continentMask mountainDistance noiseData
                   config) t Ht) as Hpass.
  rewrite Hb in Hpass.
  unfold generateElevation, normalise.
  destruct (_ >? _)%num.
  - rewrite list_lookup_fmap, Hpass. eexists. split; [done|].
    by apply fround_not_finite, div_not_finite_l, sub_not_finite_l,
      fround_not_finite.
  - rewrite Hpass. eexists. split; [done|]. by apply fround_not_finite.
Qed.

Lemma generateElevation_not_finite_witness :
  exists e,
    generateElevation Examples.gridMesh Examples.flatMask
      (replicate 50 PosInf) Examples.calmNoise Examples.baseConfig !! 24%nat
    = Some e
    /\ isFiniteNum e = false.
Proof.
  apply (generateElevation_not_finite Examples.gridMesh Examples.flatMask
           (replicate 50 PosInf) Examples.calmNoise Examples.baseConfig 24).
  - split; [vm_compute; lia|by vm_compute].
  - reflexivity.
Defined.

(** A mesh all of whose triangles are on the boundary gets elevation 0
    everywhere: nothing is tracked and nothing is rescaled. *)
Theorem generateElevation_all_boundary mesh continentMask mountainDistance
    noiseData config :
  (forall t, (t < numTriangles mesh)%nat ->
     flag (is_boundary_t mesh) t = true) ->
  generateElevation mesh continentMask mountainDistance noiseData config
  = replicate (numTriangles mesh) (int 0).
Proof.
  intros Hall. unfold generateElevation, elevationPass.
  set (raw := rawElevation _ _ _ _ _).
  assert (Hpass : forall k, (k <= numTriangles mesh)%nat ->
            passUpTo mesh raw k
            = {| ev_elevation := replicate (numTriangles mesh) (int 0);
                 ev_min := PosInf; ev_max := NegInf |}).
  { induction k as [|k IH]; intros Hk; [done|].
    rewrite passUpTo_S, IH by lia. unfold elevationStep.
    rewrite Hall by lia. cbn [ev_elevation ev_min ev_max].
    by rewrite insert_replicate. }
  specialize (Hpass (numTriangles mesh) ltac:(lia)).
  unfold passUpTo in Hpass. rewrite Hpass. reflexivity.
Qed.

Lemma generateElevation_all_boundary_witness :
  generateElevation Samples.fanMesh (replicate 16 (lit 5 10))
    (replicate 16 (int 1)) Examples.calmNoise Examples.baseConfig
  = replicate 16 (int 0).
Proof.
  apply (generateElevation_all_boundary Samples.fanMesh
           (replicate 16 (lit 5 10)) (replicate 16 (int 1))
           Examples.calmNoise Examples.baseConfig).
  apply (below_bound (fun t => flag (is_boundary_t Samples.fanMesh) t = true)).
  vm_compute. repeat constructor.
Defined.

(** The greatest finite distance, as the loop of
    [calculateMountainDistance] finds it. *)
Lemma maxDist_bounds (distances : list num) (m0 : Q) :
  exists mq,
    fold_left (fun m d => if (d <? PosInf)%num then Num.max m d else m)
      distances (Fin m0) = Fin mq
    /\ m0 <= mq
    /\ Forall (fun d => forall q, d = Fin q -> q <= mq) distances.
Proof.
  revert m0. induction distances as [|d ds IH]; intros m0.
  - exists m0. split; [done|]. split; [lra|constructor].
  - cbn [fold_left]. destruct d as [| | |q]; cbn [Num.ltb Num.max].
    + destruct (IH m0) as (mq & E & Hle & Hall). exists mq.
      split; [done|]. split; [done|]. by constructor.
    + destruct (IH m0) as (mq & E & Hle & Hall). exists mq.
      split; [done|]. split; [done|]. by constructor.
    + destruct (IH m0) as (mq & E & Hle & Hall). exists mq.
      split; [done|]. split; [done|]. by constructor.
    + destruct (Num.Qlt_bool m0 q) eqn:Hlt.
      * apply Qlt_bool_iff in Hlt.
        destruct (IH q) as (mq & E & Hle & Hall). exists mq.
        split; [done|]. split; [lra|]. constructor; [|done].
        by intros q' [= <-].
      * apply Qlt_bool_false in Hlt.
        destruct (IH m0) as (mq & E & Hle & Hall). exists mq.
        split; [done|]. split; [done|]. constructor; [|done].
        intros q' [= <-]. lra.
Qed.

(** No distance that [calculateMountainDistance] returns is a finite
    number above 1. *)
Theorem calculateMountainDistance_at_most_1 host mesh config random draws :
  Forall (fun d => forall q, d = Fin q -> q <= 1)
    (fst (fst (calculateMountainDistance host mesh config random draws))).
Proof.
  unfold calculateMountainDistance.
  destruct (fold_left _ (triangleIds mesh) _) as [peaks rng].
  cbn [fst].
  generalize (sr_distances host
                (mountainSearch host (searchFuel mesh) mesh config random
                   (startSearch host mesh peaks draws))).
  intros distances.
  destruct (maxDist_bounds distances 0) as (mq & E & Hpos & Hall).
  change (int 0) with (Fin 0). rewrite E.
  change (Fin mq >? Fin 0)%num with (Num.Qlt_bool 0 mq).
  destruct (Num.Qlt_bool 0 mq) eqn:Hm.
  - apply Qlt_bool_iff in Hm. apply Forall_fmap.
    eapply Forall_impl; [exact Hall|]. intros d Hd q. cbn.
    destruct d as [| | |qd]; cbn [Num.ltb].
    + intros [= <-]. apply Qle_refl.
    + intros Hq. apply (f_equal isFiniteNum) in Hq.
      by rewrite div_not_finite_l in Hq.
    + intros [= <-]. apply Qle_refl.
    + cbn. destruct (Qeq_bool mq 0) eqn:E0.
      * intros Hq. apply (f_equal isFiniteNum) in Hq.
        by rewrite inf_of_sign_not_finite in Hq.
      * intros [= <-].
        apply Qle_shift_div_r; [done|]. specialize (Hd qd eq_refl). lra.
  - apply Qlt_bool_false in Hm.
    eapply Forall_impl; [exact Hall|]. intros d Hd q Hq.
    specialize (Hd q Hq). lra.
Qed.

Section NoPeaks.
Context (host : Host).
Hypothesis length_new : queue_length host (queue_new host) = 0%nat.

(** The greatest finite distance of an array of infinite distances is 0. *)
Lemma maxDist_infinite n :
  fold_left (fun m d => if (d <? PosInf)%num then Num.max m d else m)
    (replicate n PosInf) (int 0) = int 0.
Proof. induction n as [|n IH]; [done|exact IH]. Qed.

(** When no peak is selected the search has nothing to start from: every
    distance returned is infinite, and no value of [Math.random] is
    drawn. *)
Theorem calculateMountainDistance_no_peaks mesh config random draws :
  snd (fst (calculateMountainDistance host mesh config random draws)) = [] ->
  calculateMountainDistance host mesh config random draws
  = ((replicate (numTriangles mesh) PosInf, []), draws).
Proof.
  unfold calculateMountainDistance.
  destruct (fold_left _ (triangleIds mesh) _) as [peaks rng].
  cbn [fst snd]. intros ->.
  unfold startSearch, searchFuel. cbn [fold_left mountainSearch sr_queue].
  rewrite length_new. cbn [Nat.ltb Nat.leb sr_distances sr_draws].
  rewrite maxDist_infinite. reflexivity.
Qed.

End NoPeaks.

(** On the lattice with flat noise no peak is selected. *)
Lemma calculateMountainDistance_no_peaks_witness :
  calculateMountainDistance Examples.gridHost Examples.gridMesh
    Examples.baseConfig Examples.lowDraws 0
  = ((replicate 50 PosInf, []), 0%nat).
Proof.
  apply (calculateMountainDistance_no_peaks Examples.gridHost eq_refl
           Examples.gridMesh Examples.baseConfig Examples.lowDraws 0).
  vm_compute. reflexivity.
Defined.

(** ** Climate *)

(** [Math.max(0, Math.min(1, v))]. *)
Lemma clamp_unit (v : num) : unitOrNaN (Num.max (int 0) (Num.min (int 1) v)).
Proof.
  destruct v as [| | |q].
  - by left.
  - right. exists 0. split; [done|lra].
  - right. exists 1. split; [done|lra].
  - right. destruct (clamp_Fin 0 1 q ltac:(lra)) as (q' & E & ?).
    exists q'. split; [exact E|lra].
Qed.

(** Every temperature is clamped to [0, 1], and there is one for each
    triangle. *)
Theorem generateTemperature_range host mesh elevation_t config :
  length (generateTemperature host mesh elevation_t config)
  = numTriangles mesh /\
  Forall unitOrNaN (generateTemperature host mesh elevation_t config).
Proof.
  unfold generateTemperature. split.
  - by rewrite length_map, length_triangleIds.
  - apply Forall_fmap, Forall_forall. intros t _. apply clamp_unit.
Qed.

(** Sorting keeps the elements, each as often as it occurs. *)
Lemma sortInsert_Permutation {A} (cmp : A -> A -> num) (x : A) (l : list A) :
  sortInsert cmp x l ≡ₚ x :: l.
Proof.
  induction l as [|y l IH]; [done|]. cbn.
  destruct (_ <? _)%num; [done|]. rewrite IH. apply Permutation_swap.
Qed.

Lemma sortBy_Permutation {A} (cmp : A -> A -> num) (l : list A) :
  sortBy cmp l ≡ₚ l.
Proof.
  unfold sortBy.
  enough (Hgen : forall acc, fold_left (fun acc x => sortInsert cmp x acc) l acc
                             ≡ₚ l ++ acc).
  { rewrite Hgen. by rewrite app_nil_r. }
  induction l as [|x l IH]; intros acc; [done|].
  cbn [fold_left]. rewrite IH, sortInsert_Permutation.
  symmetry. apply Permutation_middle.
Qed.

(** The wind order lists every triangle of the mesh exactly once. *)
Theorem calculateWindOrder_Permutation host mesh config :
  calculateWindOrder host mesh config ≡ₚ triangleIds mesh.
Proof.
  unfold calculateWindOrder. destruct (windVector host config) as [wx wy].
  apply sortBy_Permutation.
Qed.

(** Storing a clamped value keeps an array clamped. *)
Lemma Forall_zinsert {A} (P : A -> Prop) (i : Z) (v : A) (l : list A) :
  Forall P l -> P v -> Forall P (zinsert i v l).
Proof.
  intros Hl Hv. unfold zinsert. destruct (i <? 0)%Z; [done|].
  by apply Forall_insert.
Qed.

Lemma zinsert_zinsert {A} (i : Z) (a b : A) (l : list A) :
  zinsert i a (zinsert i b l) = zinsert i a l.
Proof.
  unfold zinsert. destruct (i <? 0)%Z; [done|]. apply list_insert_insert_eq.
Qed.

(** A read of the slot just stored: the value, or NaN outside the array. *)
Lemma zgetNum_zinsert (i : Z) (v : num) (l : list num) :
  zgetNum (zinsert i v l) i = v \/ zgetNum (zinsert i v l) i = NaN.
Proof.
  unfold zgetNum, zlookup, zinsert.
  destruct (Z.ltb_spec i 0); [by right|].
  destruct (decide (Z.to_nat i < length l)%nat).
  - left. by rewrite list_lookup_insert_eq.
  - right. rewrite lookup_ge_None_2; [done|]. rewrite length_insert. lia.
Qed.

(** The loop over the neighbours of [t] stores moisture at [t] only. *)
Lemma moistureFromNeighbor_moisture mesh el config t wx wy w nb :
  let w' := moistureFromNeighbor mesh el config t wx wy w nb in
  moisture_t w' = moisture_t w
  \/ exists v, moisture_t w' = zinsert t v (moisture_t w).
Proof.
  cbv zeta. unfold moistureFromNeighbor.
  repeat case_match; cbn [moisture_t]; auto; right;
    rewrite ?zinsert_zinsert; eauto.
Qed.

Lemma moistureFromNeighbors_moisture mesh el config t wx wy nbs w :
  let w' := fold_left (moistureFromNeighbor mesh el config t wx wy) nbs w in
  moisture_t w' = moisture_t w
  \/ exists v, moisture_t w' = zinsert t v (moisture_t w).
Proof.
  cbv zeta. revert w. induction nbs as [|nb nbs IH]; intros w; [by left|].
  cbn [fold_left].
  destruct (IH (moistureFromNeighbor mesh el config t wx wy w nb))
    as [->|[v ->]];
    destruct (moistureFromNeighbor_moisture mesh el config t wx wy w nb)
      as [->|[v' ->]]; rewrite ?zinsert_zinsert; eauto.
Qed.

(** Moisture that evaporates from rainfall is added to a clamped value and
    the sum is capped at 1. *)
Lemma evaporation_unit (c rain : num) (evap : Q) :
  unitOrNaN c -> (rain >? int 0)%num = true -> 0 <= evap ->
  unitOrNaN (Num.min (int 1) (c + rain * Fin evap * lit 3 10)%num).
Proof.
  intros [->|(q & -> & Hq0 & Hq1)] Hrain Hevap.
  { by left. }
  destruct rain as [| | |r]; try done.
  - cbn. destruct (Z.sgn (Qnum evap)) eqn:Hs; cbn.
    + by left.
    + right. exists 1. split; [done|lra].
    + exfalso. destruct evap as [[|n|n] d]; cbn in Hs; try discriminate.
      unfold Qle in Hevap. cbn in Hevap. lia.
  - apply (proj1 (ltb_Fin 0 r)) in Hrain.
    assert (Hadd : 0 <= r * evap * (3 # 10)).
    { apply Qmult_le_0_compat; [|lra]. apply Qmult_le_0_compat; lra. }
    change (Num.min (int 1) (Fin q + Fin r * Fin evap * lit 3 10)%num)
      with (if Num.Qlt_bool (q + r * evap * (3 # 10)) 1
            then Fin (q + r * evap * (3 # 10)) else Fin 1).
    destruct (Num.Qlt_bool _ _) eqn:E; right.
    + apply Qlt_bool_iff in E. eexists. split; [done|]. lra.
    + exists 1. split; [done|lra].
Qed.

(** One round of the loop over the wind order keeps the moisture array
    within [0, 1]. *)
Lemma moistureStep_unit host mesh el config noise wx wy w t :
  0 <= evaporation config ->
  Forall unitOrNaN (moisture_t w) ->
  Forall unitOrNaN
    (moisture_t (moistureStep host mesh el config noise wx wy w t)).
Proof.
  intros Hevap Hw. unfold moistureStep.
  destruct (zflag _ _); [done|]. destruct (_ <? _)%num; [done|].
  cbv zeta.
  match goal with
  | |- context [fold_left (moistureFromNeighbor mesh el config t ?a ?b) ?nbs w] =>
      pose proof (moistureFromNeighbors_moisture mesh el config t a b nbs w)
        as Hfold;
      cbv zeta in Hfold;
      generalize dependent
        (fold_left (moistureFromNeighbor mesh el config t a b) nbs w)
  end.
  intros w1 Hfold.
  set (c := Num.max (int 0) (Num.min (int 1) (zgetNum (moisture_t w1) t))).
  assert (Hm : Forall unitOrNaN (zinsert t c (moisture_t w1))).
  { destruct Hfold as [->|[v ->]]; rewrite ?zinsert_zinsert;
      (apply Forall_zinsert; [done|apply clamp_unit]). }
  assert (Hc : unitOrNaN (zgetNum (zinsert t c (moisture_t w1)) t)).
  { destruct (zgetNum_zinsert t c (moisture_t w1)) as [->| ->];
      [apply clamp_unit|by left]. }
  destruct (_ <? _)%num; cbn [moisture_t].
  - apply Forall_zinsert; [done|]. right. exists 1. split; [done|lra].
  - destruct (_ >? _)%num eqn:Hrain; cbn [moisture_t rainfall_t]; [|done].
    rewrite zinsert_zinsert. apply Forall_zinsert; [done|].
    match goal with
    | |- unitOrNaN (Num.min _ (zgetNum (zinsert t ?x ?m) t)) =>
        destruct (zgetNum_zinsert t x m) as [->| ->]
    end.
    + by apply evaporation_unit.
    + by left.
Qed.

(** Every moisture that [calculateMoisture] returns is clamped to [0, 1],
    provided the evaporation parameter is not negative. *)
Theorem calculateMoisture_range host mesh elevation_t windOrder config :
  0 <= evaporation config ->
  Forall unitOrNaN
    (moisture_t (calculateMoisture host mesh elevation_t windOrder config)).
Proof.
  intros Hevap. unfold calculateMoisture.
  destruct (windVector host config) as [wx wy]. cbn [moisture_t].
  match goal with
  | |- context [fold_left ?f windOrder ?start] =>
      assert (Hstart : Forall unitOrNaN (moisture_t start));
      [|generalize dependent start]
  end.
  { cbn [moisture_t]. apply Forall_fmap, Forall_forall. intros t _. cbn.
    destruct (_ <? _)%num; right; [exists 1|exists (1 # 10)];
      (split; [done|lra]). }
  induction windOrder as [|t ts IH]; intros w Hw; [done|].
  cbn [fold_left]. apply IH. by apply moistureStep_unit.
Qed.

Lemma calculateMoisture_range_witness :
  Forall unitOrNaN
    (moisture_t
       (calculateMoisture Examples.gridHost Examples.gridMesh
          Examples.plateauElevation
          (calculateWindOrder Examples.gridHost Examples.gridMesh
             Examples.baseConfig)
          Examples.baseConfig)).
Proof.
  apply (calculateMoisture_range Examples.gridHost Examples.gridMesh
           Examples.plateauElevation
           (calculateWindOrder Examples.gridHost Examples.gridMesh
              Examples.baseConfig)
           Examples.baseConfig).
  cbn. lra.
Defined.

(** ** Hydrology, continued *)

(** The order of the comparison [<] on numbers. *)
Lemma ltb_irrefl (a : num) : (a <? a)%num = false.
Proof.
  destruct a as [| | |q]; try done. apply Qlt_bool_false. apply Qle_refl.
Qed.

Lemma ltb_trans (a b c : num) :
  (a <? b)%num = true -> (b <? c)%num = true -> (a <? c)%num = true.
Proof.
  destruct a as [| | |x], b as [| | |y], c as [| | |z]; try done.
  rewrite !ltb_Fin. apply Qlt_trans.
Qed.

(** What is not below [b] is not below anything below [b]. *)
Lemma ltb_below (y a b : num) :
  (a <? b)%num = true -> (y <? b)%num = false -> (y <? a)%num = false.
Proof.
  destruct y as [| | |u], a as [| | |x], b as [| | |z]; try done.
  intros Hab Hyb. apply ltb_Fin in Hab. apply Qlt_bool_false in Hyb.
  apply Qlt_bool_false. lra.
Qed.

(** The loop that looks for the lowest neighbour, from any state [acc] of
    its two variables: it ends on the state it started from or on a
    neighbour lower than it, and no neighbour is lower than where it
    ends. *)
Lemma lowest_fold (el : list num) (nbs : list Z) (acc : Z * num) :
  let step := fun (acc : Z * num) neighbor =>
                if (neighbor =? -1)%Z then acc
                else if (zgetNum el neighbor <? snd acc)%num
                     then (neighbor, zgetNum el neighbor)
                     else acc in
  let final := fold_left step nbs acc in
  (final = acc
   \/ (fst final ∈ nbs /\ fst final <> (-1)%Z
       /\ snd final = zgetNum el (fst final)
       /\ (snd final <? snd acc)%num = true)) /\
  (forall y, (y <? snd acc)%num = false -> (y <? snd final)%num = false) /\
  (forall n, n ∈ nbs -> n <> (-1)%Z ->
     (zgetNum el n <? snd final)%num = false).
Proof.
  cbv zeta. revert acc. induction nbs as [|nb nbs IH]; intros acc.
  - cbn. split; [by left|]. split; [done|]. intros n Hn. by apply elem_of_nil in Hn.
  - cbn [fold_left].
    match goal with
    | |- context [fold_left ?f nbs ?acc1] =>
        destruct (IH acc1) as (Hend & Hmono & Hmin);
        set (final := fold_left f nbs acc1) in *
    end.
    destruct (Z.eqb_spec nb (-1)) as [->|Hnb].
    + split; [|split].
      * destruct Hend as [Hend|(Hin & Hrest)]; [by left|right].
        split; [by apply list_elem_of_further|done].
      * done.
      * intros n Hn Hne. apply elem_of_cons in Hn as [->|Hn]; [done|].
        by apply Hmin.
    + destruct (zgetNum el nb <? snd acc)%num eqn:Hlt.
      * cbn [snd] in Hmono. split; [|split].
        -- right. destruct Hend as [->|(Hin & Hne & Hkey & Hlow)].
           ++ cbn [fst snd]. split; [apply list_elem_of_here|done].
           ++ split; [by apply list_elem_of_further|].
              split; [done|]. split; [done|].
              cbn [snd] in Hlow. by eapply ltb_trans.
        -- intros y Hy. apply Hmono. by eapply ltb_below.
        -- intros n Hn Hne. apply elem_of_cons in Hn as [->|Hn];
             [|by apply Hmin].
           apply Hmono. apply ltb_irrefl.
      * split; [|split].
        -- destruct Hend as [Hend|(Hin & Hrest)]; [by left|right].
           split; [by apply list_elem_of_further|done].
        -- done.
        -- intros n Hn Hne. apply elem_of_cons in Hn as [->|Hn];
             [|by apply Hmin].
           by apply Hmono.
Qed.

Lemma calculateDownslope_length host mesh el :
  length (calculateDownslope host mesh el) = numTriangles mesh.
Proof.
  unfold calculateDownslope.
  enough (Hgen : forall ts ds,
            length (fold_left (resolveSink host mesh el) ts ds) = length ds).
  { by rewrite Hgen, length_map, length_triangleIds. }
  induction ts as [|t ts IH]; intros ds; [done|].
  cbn [fold_left]. by rewrite IH, resolveSink_length.
Qed.

(** Water flows down the steepest way: a triangle with a lower neighbour
    drains to a neighbour that is lower than the triangle, and than which
    no neighbour is lower. *)
Theorem calculateDownslope_downhill host mesh el (t : nat) (n : Z) :
  (t < numTriangles mesh)%nat ->
  n ∈ neighborsOf mesh (Z.of_nat t) -> n <> (-1)%Z ->
  (zgetNum el n <? zgetNum el (Z.of_nat t))%num = true ->
  exists b,
    zlookup (calculateDownslope host mesh el) (Z.of_nat t) = Some b
    /\ b ∈ neighborsOf mesh (Z.of_nat t) /\ b <> (-1)%Z
    /\ (zgetNum el b <? zgetNum el (Z.of_nat t))%num = true
    /\ forall n', n' ∈ neighborsOf mesh (Z.of_nat t) -> n' <> (-1)%Z ->
         (zgetNum el n' <? zgetNum el b)%num = false.
Proof.
  intros Ht Hn Hne Hlow.
  destruct (lowest_fold el (neighborsOf mesh (Z.of_nat t))
              (-1, zgetNum el (Z.of_nat t))%Z) as (Hend & _ & Hmin).
  cbv zeta in Hend, Hmin. cbn [snd] in Hend.
  match type of Hmin with
  | context [fold_left ?f ?l ?a] => set (final := fold_left f l a) in *
  end.
  assert (Hb : fst final = lowestNeighbor mesh el (Z.of_nat t)) by done.
  destruct Hend as [Hend|(Hin & Hne' & Hkey & Hlt)].
  { specialize (Hmin n Hn Hne). rewrite Hend in Hmin. cbn [snd] in Hmin.
    congruence. }
  destruct (lookup_lt_is_Some_2 (calculateDownslope host mesh el) t
              ltac:(by rewrite calculateDownslope_length)) as [b Hlook].
  rewrite <- (zlookup_of_nat (calculateDownslope host mesh el) t) in Hlook.
  rewrite Hb in Hin, Hne', Hkey.
  pose proof (calculateDownslope_steepest host mesh el _ _ Hlook Hne') as ->.
  exists (lowestNeighbor mesh el (Z.of_nat t)).
  split; [done|]. split; [done|]. split; [done|]. split.
  - by rewrite <- Hkey.
  - intros n' Hn' Hne''. rewrite <- Hkey. by apply Hmin.
Qed.

(** On the plateau the triangle 15 (at 0.9) has the neighbour 14 (at 0.8)
    below it. *)
Lemma calculateDownslope_downhill_witness :
  exists b,
    zlookup (calculateDownslope Examples.gridHost Examples.gridMesh
               Examples.plateauElevation) 15 = Some b
    /\ b ∈ neighborsOf Examples.gridMesh 15 /\ b <> (-1)%Z
    /\ (zgetNum Examples.plateauElevation b
        <? zgetNum Examples.plateauElevation 15)%num = true
    /\ forall n', n' ∈ neighborsOf Examples.gridMesh 15 -> n' <> (-1)%Z ->
         (zgetNum Examples.plateauElevation n'
          <? zgetNum Examples.plateauElevation b)%num = false.
Proof.
  apply (calculateDownslope_downhill Examples.gridHost Examples.gridMesh
           Examples.plateauElevation 15 14).
  - vm_compute. lia.
  - vm_compute. apply list_elem_of_here.
  - lia.
  - reflexivity.
Defined.

(** The tracing of a river only appends triangles, and only triangles on
    land. *)
Lemma traceRiver_extends fuel mesh el ds sea path current p :
  traceRiver fuel mesh el ds sea path current = Traced p ->
  exists ext, p = path ++ ext /\ Forall (onLand mesh el sea) ext.
Proof.
  revert path current. induction fuel as [|fuel IH]; intros path current;
    [done|].
  cbn [traceRiver].
  destruct (zlookup ds current) as [next|]; [|done].
  destruct (_ || _) eqn:Hstop.
  { intros [= <-]. exists []. by rewrite app_nil_r. }
  destruct (_ <? _)%num eqn:Hsea.
  { intros [= <-]. exists []. by rewrite app_nil_r. }
  destruct (zmember next path); [done|].
  intros Htrace. apply IH in Htrace as (ext & -> & Hext).
  exists (next :: ext). split; [by rewrite <- app_assoc|].
  constructor; [|done]. split; [|done].
  by apply orb_false_elim in Hstop as [_ ?].
Qed.

(** The river that the loop over the sources adds for [t], if any. *)
Lemma riverFrom_cases mesh el ds sea flow paths t p :
  p ∈ riverFrom mesh el ds sea flow paths t ->
  p ∈ paths
  \/ (sourceTriangle p = t /\ rp_flow p = zgetNum flow t
      /\ (zgetNum el t >=? sea)%num = true
      /\ (zgetNum flow t >=? riverSourceThreshold)%num = true
      /\ (zgetNum el t >? lit 5 10)%num = true
      /\ exists rest, rp_triangles p = t :: rest
                      /\ Forall (onLand mesh el sea) rest).
Proof.
  unfold riverFrom.
  destruct (_ && _) eqn:Hsrc; [|by left].
  apply andb_prop in Hsrc as [Hsrc H3]. apply andb_prop in Hsrc as [H1 H2].
  destruct (traceRiver _ _ _ _ _ _ _) as [path| |] eqn:Htrace;
    [|by left|by left].
  destruct (_ <? _)%nat; [|by left].
  intros Hp. apply elem_of_app in Hp as [Hp|Hp]; [by left|right].
  apply list_elem_of_singleton in Hp as ->. cbn.
  apply traceRiver_extends in Htrace as (ext & -> & Hext).
  repeat split; try done. by exists ext.
Qed.

(** What holds of the rivers that the loop over the sources adds holds of
    every river of its result. *)
Lemma riverFold_cases mesh el ds sea flow (P : RiverPath -> Prop) :
  (forall paths t p,
     p ∈ riverFrom mesh el ds sea flow paths t -> p ∈ paths \/ P p) ->
  forall ts paths p,
    p ∈ fold_left (riverFrom mesh el ds sea flow) ts paths ->
    p ∈ paths \/ P p.
Proof.
  intros Hstep. induction ts as [|t ts IH]; intros paths p Hp; [by left|].
  cbn [fold_left] in Hp. apply IH in Hp as [Hp|Hp]; [|by right].
  by apply Hstep in Hp.
Qed.

(** Every retained river starts at its source, which is a land triangle
    above 0.5 whose flow, at least 0.1, is the flow of the river; from
    there on it runs through triangles that are neither on the boundary nor
    below the sea level. *)
Theorem river_on_land mesh el rain ds cfg path :
  path ∈ riverPaths (calculateFlowAccumulation mesh el rain ds cfg) ->
  let sea := Fin (seaLevel cfg) in
  let source := sourceTriangle path in
  (zgetNum el source >=? sea)%num = true /\
  (zgetNum el source >? lit 5 10)%num = true /\
  (rp_flow path >=? lit 1 10)%num = true /\
  exists rest, rp_triangles path = source :: rest
               /\ Forall (onLand mesh el sea) rest.
Proof.
  unfold calculateFlowAccumulation. cbn [riverPaths]. intros Hin.
  apply elem_of_take in Hin as (i & Hin & _).
  apply list_elem_of_lookup_2, elem_of_sortBy in Hin.
  cbv zeta.
  eapply (riverFold_cases mesh el ds _ _
            (fun p =>
               (zgetNum el (sourceTriangle p) >=? Fin (seaLevel cfg))%num = true
               /\ (zgetNum el (sourceTriangle p) >? lit 5 10)%num = true
               /\ (rp_flow p >=? lit 1 10)%num = true
               /\ exists rest, rp_triangles p = sourceTriangle p :: rest
                    /\ Forall (onLand mesh el (Fin (seaLevel cfg))) rest))
    in Hin.
  - destruct Hin as [Hin|Hin]; [by apply elem_of_nil in Hin|exact Hin].
  - intros paths t p Hp.
    apply riverFrom_cases in Hp as [Hp|Hp]; [by left|right].
    destruct Hp as (-> & -> & H1 & H2 & H3 & rest & Hrest & Hland).
    split; [done|]. split; [done|]. split; [done|]. by exists rest.
Qed.

(** The river 22, 15, 14, 5 of the plateau. *)
Lemma river_on_land_witness :
  let path :=
    {| rp_triangles := [22; 15; 14; 5]%Z; sourceTriangle := 22;
       rp_flow := Fin (210000000 # 100000000) |} in
  let sea := Fin (seaLevel Examples.baseConfig) in
  (zgetNum Examples.plateauElevation 22 >=? sea)%num = true /\
  (zgetNum Examples.plateauElevation 22 >? lit 5 10)%num = true /\
  (rp_flow path >=? lit 1 10)%num = true /\
  exists rest, rp_triangles path = 22%Z :: rest
               /\ Forall (onLand Examples.gridMesh Examples.plateauElevation
                            sea) rest.
Proof.
  apply (river_on_land Examples.gridMesh Examples.plateauElevation
           Examples.evenRainfall
           (calculateDownslope Examples.gridHost Examples.gridMesh
              Examples.plateauElevation)
           Examples.baseConfig
           {| rp_triangles := [22; 15; 14; 5]%Z; sourceTriangle := 22;
              rp_flow := Fin (210000000 # 100000000) |}).
  vm_compute. apply list_elem_of_here.
Defined.

(** ** The arrays of the stages *)

Lemma generateElevation_length mesh cm md nd config :
  length (generateElevation mesh cm md nd config) = numTriangles mesh.
Proof.
  unfold generateElevation, normalise, elevationPass.
  destruct (passUpTo_content mesh (rawElevation mesh cm md nd config)
              (numTriangles mesh) ltac:(lia)) as [Hlen _].
  unfold passUpTo in Hlen.
  destruct (_ >? _)%num; [by rewrite length_map|done].
Qed.

Lemma relaxNeighbor_length host mesh config random current nbs s :
  length (sr_distances host
            (fold_left (relaxNeighbor host mesh config random current) nbs s))
  = length (sr_distances host s).
Proof.
  revert s. induction nbs as [|nb nbs IH]; intros s; [done|].
  cbn [fold_left]. rewrite IH. unfold relaxNeighbor.
  repeat case_match; cbn [sr_distances]; by rewrite ?zinsert_length.
Qed.

Lemma mountainSearch_length host fuel mesh config random s :
  length (sr_distances host (mountainSearch host fuel mesh config random s))
  = length (sr_distances host s).
Proof.
  revert s. induction fuel as [|fuel IH]; intros s; [done|].
  cbn [mountainSearch].
  destruct (0 <? _)%nat; [|done].
  destruct (queue_pop host _) as [[current q']|]; [|done].
  cbn [sr_visited]. destruct (zflag _ _); rewrite IH; [done|].
  by rewrite relaxNeighbor_length.
Qed.

Lemma startSearch_length host mesh peaks draws :
  length (sr_distances host (startSearch host mesh peaks draws))
  = numTriangles mesh.
Proof.
  unfold startSearch.
  match goal with
  | |- context [fold_left ?f peaks ?s0] =>
      enough (Hgen : forall s,
                length (sr_distances host (fold_left f peaks s))
                = length (sr_distances host s))
  end.
  { rewrite Hgen. cbn [sr_distances]. apply length_replicate. }
  induction peaks as [|t peaks IH]; intros s; [done|].
  cbn [fold_left]. rewrite IH. cbn [sr_distances]. apply zinsert_length.
Qed.

Lemma calculateMountainDistance_length host mesh config random draws :
  length (fst (fst (calculateMountainDistance host mesh config random draws)))
  = numTriangles mesh.
Proof.
  unfold calculateMountainDistance.
  destruct (fold_left _ (triangleIds mesh) _) as [peaks rng]. cbn [fst].
  destruct (_ >? _)%num; rewrite ?length_map;
    by rewrite mountainSearch_length, startSearch_length.
Qed.

Lemma moistureFromNeighbor_lengths mesh el config t wx wy nbs w :
  let w' := fold_left (moistureFromNeighbor mesh el config t wx wy) nbs w in
  length (moisture_t w') = length (moisture_t w)
  /\ length (rainfall_t w') = length (rainfall_t w).
Proof.
  cbv zeta. revert w. induction nbs as [|nb nbs IH]; intros w; [done|].
  cbn [fold_left].
  destruct (IH (moistureFromNeighbor mesh el config t wx wy w nb)) as [-> ->].
  unfold moistureFromNeighbor.
  repeat case_match; cbn [moisture_t rainfall_t];
    by rewrite ?zinsert_length.
Qed.

Lemma moistureStep_lengths host mesh el config noise wx wy w t :
  let w' := moistureStep host mesh el config noise wx wy w t in
  length (moisture_t w') = length (moisture_t w)
  /\ length (rainfall_t w') = length (rainfall_t w).
Proof.
  cbv zeta. unfold moistureStep.
  destruct (zflag _ _); [done|]. destruct (_ <? _)%num; [done|].
  cbv zeta.
  match goal with
  | |- context [fold_left (moistureFromNeighbor mesh el config t ?a ?b) ?nbs w] =>
      destruct (moistureFromNeighbor_lengths mesh el config t a b nbs w)
        as [Hm Hr];
      cbv zeta in Hm, Hr;
      generalize dependent
        (fold_left (moistureFromNeighbor mesh el config t a b) nbs w)
  end.
  intros w1 Hm Hr.
  repeat case_match; cbn [moisture_t rainfall_t];
    by rewrite ?zinsert_length.
Qed.

Lemma calculateMoisture_lengths host mesh el windOrder config :
  let w := calculateMoisture host mesh el windOrder config in
  length (moisture_t w) = numTriangles mesh
  /\ length (rainfall_t w) = numTriangles mesh.
Proof.
  cbv zeta. unfold calculateMoisture.
  destruct (windVector host config) as [wx wy].
  match goal with
  | |- context [fold_left ?f windOrder ?start] =>
      assert (Hgen : forall ts w,
                length (moisture_t (fold_left f ts w)) = length (moisture_t w)
                /\ length (rainfall_t (fold_left f ts w))
                   = length (rainfall_t w));
      [|destruct (Hgen windOrder start) as [Hm Hr]]
  end.
  { induction ts as [|t ts IH]; intros w; [done|].
    cbn [fold_left].
    match goal with
    | |- context [moistureStep ?h ?m ?e ?c ?n ?a ?b w t] =>
        destruct (IH (moistureStep h m e c n a b w t)) as [-> ->];
        apply (moistureStep_lengths h m e c n a b w t)
    end. }
  cbn [moisture_t rainfall_t] in *.
  rewrite length_map, length_triangleIds in Hm.
  rewrite length_replicate in Hr.
  split; [done|]. destruct (_ >? _)%num; by rewrite ?length_map.
Qed.

Lemma calculateFlowAccumulation_length mesh el rain ds cfg :
  length (flow_t (calculateFlowAccumulation mesh el rain ds cfg))
  = numTriangles mesh.
Proof.
  unfold calculateFlowAccumulation. cbn [flow_t].
  match goal with
  | |- length (fold_left ?f _ _) = _ =>
      enough (Hgen : forall ts flow,
                length (fold_left f ts flow) = length flow)
  end.
  { by rewrite Hgen, length_map, length_triangleIds. }
  induction ts as [|t ts IH]; intros flow; [done|].
  cbn [fold_left]. rewrite IH. unfold accumulateStep.
  repeat case_match; by rewrite ?zinsert_length.
Qed.

Lemma assignBiomes_length mesh el mo te sea :
  length (assignBiomes mesh el mo te sea) = numTriangles mesh.
Proof.
  unfold assignBiomes. destruct (mapM _ _) as [bs|] eqn:Hm.
  - apply length_mapM in Hm. by rewrite <- Hm, length_triangleIds.
  - apply length_replicate.
Qed.

(** Every array that a stage computes per triangle has one entry for each
    triangle of the mesh, and at most 100 rivers are kept. *)
Theorem per_triangle_arrays host mesh config random draws noiseData
    continentMask elevation_t windOrder rainfall downslope_t moisture
    temperature_t :
  let n := numTriangles mesh in
  let weather := calculateMoisture host mesh elevation_t windOrder config in
  let flow :=
    calculateFlowAccumulation mesh elevation_t rainfall downslope_t config in
  length (fst (fst (calculateMountainDistance host mesh config random draws)))
  = n /\
  length (generateContinentMask host mesh config noiseData) = n /\
  length (generateElevation mesh continentMask
            (fst (fst (calculateMountainDistance host mesh config random
                         draws)))
            noiseData config) = n /\
  length (generateTemperature host mesh elevation_t config) = n /\
  length (calculateWindOrder host mesh config) = n /\
  length (moisture_t weather) = n /\
  length (rainfall_t weather) = n /\
  length (calculateDownslope host mesh elevation_t) = n /\
  length (flow_t flow) = n /\
  (length (riverPaths flow) <= 100)%nat /\
  length (assignBiomes mesh elevation_t moisture temperature_t
            (Fin (seaLevel config))) = n.
Proof.
  cbv zeta.
  split; [apply calculateMountainDistance_length|].
  split.
  { unfold generateContinentMask.
    destruct (fold_left placeIsland _ _) as [continents rng].
    by rewrite length_map, length_triangleIds. }
  split; [apply generateElevation_length|].
  split.
  { unfold generateTemperature. by rewrite length_map, length_triangleIds. }
  split.
  { unfold calculateWindOrder. destruct (windVector host config) as [wx wy].
    by rewrite sortBy_Permutation, length_triangleIds. }
  split; [apply calculateMoisture_lengths|].
  split; [apply calculateMoisture_lengths|].
  split; [apply calculateDownslope_length|].
  split; [apply calculateFlowAccumulation_length|].
  split; [|apply assignBiomes_length].
  unfold calculateFlowAccumulation. cbn [riverPaths].
  rewrite length_take. unfold maxRivers. lia.
Qed.

(** ** A mesh without triangles *)

Lemma map_seq_const {C} (c : C) (start n : nat) :
  map (fun _ => c) (seq start n) = replicate n c.
Proof.
  revert start. induction n as [|n IH]; intros start; [done|].
  cbn. by rewrite IH.
Qed.

Lemma rasterize_no_values {A} mesh (values : list A) W H (w h : nat) :
  length values = 0%nat ->
  gridSize W H = Returns (w, h) ->
  rasterize mesh values W H = Returns (constGrid w h None).
Proof.
  intros Hlen Hsize. destruct values; [|done].
  unfold rasterize. rewrite Hsize. cbn [mbind Outcome_bind]. f_equal.
  unfold constGrid. rewrite <- (map_seq_const _ 0 h).
  apply map_ext. intros y. rewrite <- (map_seq_const _ 0 w).
  apply map_ext. intros x. unfold zlookup. by destruct (_ <? _)%Z.
Qed.

(** C6 (as amended): generation does not surface a mesh with zero
    triangles as a failure.  When the mesh has no triangle (a degenerate
    point set) and the output grids can be allocated, [generateMap] returns
    a map of the requested size whose elevation, moisture, temperature and
    biome are undefined at every pixel and whose river grid is 0
    everywhere. *)
Theorem generateMap_zero_triangles host config random mesh (w h : nat) :
  createMesh host (fst (generatePoints host config random 0))
    (Fin (width config)) (Fin (height config)) = Returns mesh ->
  numTriangles mesh = 0%nat ->
  gridSize (width config) (height config) = Returns (w, h) ->
  generateMap host config random
  = Returns
      {| md_width := width config; md_height := height config;
         md_elevation := constGrid w h None;
         md_moisture := constGrid w h None;
         md_temperature := constGrid w h None;
         md_biomes := constGrid w h None;
         md_rivers := constGrid w h (int 0) |}.
Proof.
  intros Hmesh Hzero Hsize. unfold generateMap.
  destruct (generatePoints host config random 0) as [pd draws].
  cbn [fst] in Hmesh. rewrite Hmesh. cbn [mbind Outcome_bind].
  destruct (calculateMountainDistance host mesh config random draws)
    as [[distances peaks] draws'].
  unfold rasterizeElevation, rasterizeClimate, rasterizeBiomes.
  rewrite (rasterize_no_values mesh (generateElevation _ _ _ _ _) _ _ w h);
    [|by rewrite generateElevation_length|done].
  cbn [mbind Outcome_bind].
  rewrite (rasterize_no_values mesh (moisture_t _) _ _ w h);
    [|by rewrite (proj1 (calculateMoisture_lengths _ _ _ _ _))|done].
  cbn [mbind Outcome_bind].
  rewrite (rasterize_no_values mesh (generateTemperature _ _ _ _) _ _ w h);
    [|unfold generateTemperature;
      by rewrite length_map, length_triangleIds|done].
  cbn [mbind Outcome_bind fst snd].
  rewrite (rasterize_no_values mesh (assignBiomes _ _ _ _ _) _ _ w h);
    [|by rewrite assignBiomes_length|done].
  assert (Hids : triangleIds mesh = []).
  { apply length_zero_iff_nil. by rewrite length_triangleIds. }
  unfold rasterizeRivers, calculateFlowAccumulation. rewrite Hsize, Hids.
  reflexivity.
Qed.

(** The 64 x 48 map sampled with cell size 200: the corner (0, 0) is the
    only point and Delaunator finds no triangle. *)
Lemma generateMap_zero_triangles_witness :
  generateMap Examples.degenerateHost Examples.sparseConfig
    Examples.highDraws
  = Returns
      {| md_width := 64; md_height := 48;
         md_elevation := constGrid 64 48 None;
         md_moisture := constGrid 64 48 None;
         md_temperature := constGrid 64 48 None;
         md_biomes := constGrid 64 48 None;
         md_rivers := constGrid 64 48 (int 0) |}.
Proof.
  eapply (generateMap_zero_triangles Examples.degenerateHost
            Examples.sparseConfig Examples.highDraws _ 64 48).
  - vm_compute. reflexivity.
  - reflexivity.
  - vm_compute. reflexivity.
Defined.

(** ** Biomes, continued *)

Lemma hasNeighborBelow_true mesh (t n : Z) el sea :
  n ∈ neighborsOf mesh t -> n <> (-1)%Z -> (zgetNum el n <? sea)%num = true ->
  hasNeighborBelow mesh t el sea = Some true.
Proof.
  unfold neighborsOf, hasNeighborBelow. intros Hn Hne Hlow.
  destruct (zlookup (neighbors mesh) t) as [ns|]; [|by apply elem_of_nil in Hn].
  f_equal. apply existsb_exists. exists n. split; [by apply list_elem_of_In|].
  rewrite Hlow, andb_true_r. by destruct (Z.eqb_spec n (-1)).
Qed.

(** A triangle that is neither on the boundary nor below the sea level
    never gets one of the four water biomes. *)
Theorem assignBiomes_land mesh elevation_t moisture temperature_t s (t : nat) :
  length (neighbors mesh) = numTriangles mesh ->
  (t < numTriangles mesh)%nat ->
  flag (is_boundary_t mesh) t = false ->
  (getNum elevation_t t <? s)%num = false ->
  exists b,
    assignBiomes mesh elevation_t moisture temperature_t s !! t = Some b
    /\ isWaterBiome b = false.
Proof.
  intros Hlen Ht Hb He.
  rewrite <- (assignBiomes_lookup mesh elevation_t moisture temperature_t s t
                Hlen Ht).
  destruct (biomeOf_total mesh elevation_t moisture temperature_t s t
              ltac:(by rewrite Hlen)) as [b Hbiome].
  exists b. split; [done|]. revert Hbiome.
  unfold biomeOf, zflag, zgetNum. rewrite !zlookup_of_nat.
  fold (flag (is_boundary_t mesh) t). fold (getNum elevation_t t).
  rewrite Hb, He. cbv zeta.
  destruct (_ >? _)%num; [repeat case_match; by intros [= <-]|].
  destruct (_ >? _)%num; [repeat case_match; by intros [= <-]|].
  destruct (hasNeighborBelow _ _ _ _) as [coastal|]; [|done].
  cbn [mbind option_bind]. unfold lowlandBiome.
  repeat case_match; by intros [= <-].
Qed.

(** The plateau triangle 24 of the lattice gets a land biome. *)
Lemma assignBiomes_land_witness :
  exists b,
    assignBiomes Examples.gridMesh Examples.plateauElevation Examples.mild
      Examples.mild Examples.sea !! 24%nat = Some b
    /\ isWaterBiome b = false.
Proof.
  apply (assignBiomes_land Examples.gridMesh Examples.plateauElevation
           Examples.mild Examples.mild Examples.sea 24).
  - reflexivity.
  - vm_compute. lia.
  - reflexivity.
  - reflexivity.
Defined.

(** The coastal rule: a land triangle less than 0.05 above the sea level
    that has a neighbour below the sea level is a BEACH. *)
Theorem assignBiomes_beach mesh elevation_t moisture temperature_t
    (t : nat) (n : Z) (e s : Q) :
  length (neighbors mesh) = numTriangles mesh ->
  (t < numTriangles mesh)%nat ->
  flag (is_boundary_t mesh) t = false ->
  getNum elevation_t t = Fin e -> s <= e -> e - s < 5 # 100 ->
  n ∈ neighborsOf mesh (Z.of_nat t) -> n <> (-1)%Z ->
  (zgetNum elevation_t n <? Fin s)%num = true ->
  assignBiomes mesh elevation_t moisture temperature_t (Fin s) !! t
  = Some BEACH.
Proof.
  intros Hlen Ht Hb He Hse Hnear Hn Hne Hlow.
  rewrite <- (assignBiomes_lookup mesh elevation_t moisture temperature_t
                (Fin s) t Hlen Ht).
  assert (Hz : zgetNum elevation_t (Z.of_nat t) = Fin e)
    by (unfold zgetNum; rewrite zlookup_of_nat; exact He).
  assert (Hf : zflag (is_boundary_t mesh) (Z.of_nat t) = false)
    by (unfold zflag; rewrite zlookup_of_nat; exact Hb).
  unfold biomeOf. cbv zeta. rewrite Hf, !Hz.
  rewrite (hasNeighborBelow_true mesh _ n) by done.
  cbn [mbind option_bind].
  replace (Fin e <? Fin s)%num with false
    by (symmetry; apply Qlt_bool_false; lra).
  change (Fin e - Fin s)%num with (Fin (e - s)).
  replace (Fin (e - s) >? lit 7 10)%num with false
    by (symmetry; apply Qlt_bool_false; lra).
  replace (Fin (e - s) >? lit 4 10)%num with false
    by (symmetry; apply Qlt_bool_false; lra).
  replace (Fin (e - s) <? lit 5 100)%num with true
    by (symmetry; apply Qlt_bool_iff; lra).
  reflexivity.
Qed.

(** On the shore of the lake 24 the triangle 15, at 0.42, is a BEACH. *)
Lemma assignBiomes_beach_witness :
  assignBiomes Examples.gridMesh Samples.shoreElevation Examples.mild
    Examples.mild (Fin (4 # 10)) !! 15%nat
  = Some BEACH.
Proof.
  apply (assignBiomes_beach Examples.gridMesh Samples.shoreElevation
           Examples.mild Examples.mild 15 24 (42 # 100) (4 # 10)).
  - reflexivity.
  - vm_compute. lia.
  - reflexivity.
  - reflexivity.
  - lra.
  - lra.
  - vm_compute. apply list_elem_of_further, list_elem_of_here.
  - lia.
  - reflexivity.
Defined.

(** ** Rasterisation *)

(** The grid of a rasteriser has [height] rows of [width] cells. *)
Theorem rasterize_dimensions {A} mesh (values : list A) (W H : nat) :
  (Z.of_nat W < 2 ^ 32)%Z -> (Z.of_nat H < 2 ^ 32)%Z -> (0 < H)%nat ->
  exists grid,
    rasterize mesh values (inject_Z (Z.of_nat W)) (inject_Z (Z.of_nat H))
    = Returns grid
    /\ hasSize W H grid.
Proof.
  intros HW HH Hpos. unfold rasterize. rewrite gridSize_Returns by done.
  destruct (Nat.eqb_spec H 0) as [->|_]; [lia|].
  cbn [mbind Outcome_bind]. eexists. split; [done|]. split.
  - by rewrite length_map, length_seq.
  - apply Forall_fmap, Forall_forall. intros y _. cbn.
    by rewrite length_map, length_seq.
Qed.

Lemma rasterize_dimensions_witness :
  exists grid,
    rasterize Examples.gridMesh Examples.lakeElevation 5 5 = Returns grid
    /\ hasSize 5 5 grid.
Proof.
  apply (rasterize_dimensions Examples.gridMesh Examples.lakeElevation 5 5);
    lia.
Defined.

Lemma gridSet_size w h (grid : list (list num)) x y v :
  hasSize w h grid -> hasSize w h (gridSet grid x y v).
Proof.
  intros [Hlen Hrows]. unfold gridSet.
  destruct (zlookup grid y) as [row|] eqn:Hrow; [|done].
  split; [by rewrite zinsert_length|].
  apply Forall_zinsert; [done|]. rewrite zinsert_length.
  apply zlookup_Some in Hrow as [_ Hrow].
  rewrite Forall_lookup in Hrows. by eapply Hrows.
Qed.

Lemma fold_left_preserves {A B} (P : A -> Prop) (f : A -> B -> A)
    (l : list B) (a : A) :
  (forall a b, P a -> P (f a b)) -> P a -> P (fold_left f l a).
Proof.
  intros Hf. revert a. induction l as [|b l IH]; intros a Ha; [done|].
  cbn [fold_left]. by apply IH, Hf.
Qed.

Lemma paintDisk_size host w h x y sw radius grid :
  hasSize w h grid -> hasSize w h (paintDisk host w h x y sw radius grid).
Proof.
  intros Hgrid. unfold paintDisk.
  apply fold_left_preserves; [|done]. intros g dy Hg.
  apply fold_left_preserves; [|done]. intros g' dx Hg'.
  repeat case_match; try done. by apply gridSet_size.
Qed.

Lemma paintRiverPoint_size host mesh config w h flow len acc it grid :
  (forall g, acc = Returns g -> hasSize w h g) ->
  paintRiverPoint host mesh config w h flow len acc it = Returns grid ->
  hasSize w h grid.
Proof.
  intros Hacc. unfold paintRiverPoint.
  destruct acc as [g|e|]; cbn [mbind Outcome_bind]; [|done|done].
  specialize (Hacc g eq_refl). destruct it as [i t].
  repeat case_match; try done; intros [= <-]; try done.
  by apply paintDisk_size.
Qed.

Lemma rasterizeRivers_size host mesh paths config (W H : nat) grid :
  (Z.of_nat W < 2 ^ 32)%Z -> (Z.of_nat H < 2 ^ 32)%Z -> (0 < H)%nat ->
  rasterizeRivers host mesh paths (inject_Z (Z.of_nat W))
    (inject_Z (Z.of_nat H)) config = Returns grid ->
  hasSize W H grid.
Proof.
  intros HW HH Hpos. unfold rasterizeRivers.
  rewrite gridSize_Returns by done.
  destruct (Nat.eqb_spec H 0) as [->|_]; [lia|].
  cbn [mbind Outcome_bind].
  assert (Hstart : forall g,
            @Returns (list (list num)) (replicate H (replicate W (int 0)))
            = Returns g -> hasSize W H g).
  { intros g [= <-]. split; [apply length_replicate|].
    apply Forall_replicate. apply length_replicate. }
  revert Hstart grid.
  generalize (@Returns (list (list num)) (replicate H (replicate W (int 0)))).
  induction paths as [|path paths IH]; intros acc Hacc grid;
    [by apply Hacc|].
  cbn [fold_left]. apply IH. intros g.
  destruct (_ <? _)%nat; [by apply Hacc|].
  generalize (imap (fun i t => (i, t)) (rp_triangles path)).
  intros its. revert acc Hacc g.
  induction its as [|it its IHi]; intros acc Hacc g; [by apply Hacc|].
  cbn [fold_left]. apply IHi. intros g'.
  by apply paintRiverPoint_size.
Qed.

(** On a map of integral sizes, for rivers that run through triangles
    whose centres are in the cache of the mesh and finite, [rasterizeRivers]
    does not throw, and the river grid, when it returns one, has [height]
    rows of [width] cells. *)
Theorem rasterizeRivers_dimensions host mesh paths config (W H : nat) :
  (Z.of_nat W < 2 ^ 32)%Z -> (Z.of_nat H < 2 ^ 32)%Z -> (0 < H)%nat ->
  Forall (fun path => Forall (centred mesh) (rp_triangles path)) paths ->
  match
    rasterizeRivers host mesh paths (inject_Z (Z.of_nat W))
      (inject_Z (Z.of_nat H)) config
  with
  | Returns grid => hasSize W H grid
  | Throws _ => False
  | Diverges => True
  end.
Proof.
  intros HW HH Hpos _.
  destruct (rasterizeRivers _ _ _ _ _ _) as [grid|e|] eqn:Hr; [| |done].
  - by eapply rasterizeRivers_size.
  - eapply rasterizeRivers_not_Throws; [|exact Hr].
    by apply gridSize_Returns.
Qed.

(** The river of the plateau on a 5 x 5 map. *)
Lemma rasterizeRivers_dimensions_witness :
  match
    rasterizeRivers Examples.gridHost Examples.gridMesh
      [{| rp_triangles := [22; 15; 14; 5]%Z; sourceTriangle := 22;
          rp_flow := Fin (210000000 # 100000000) |}]
      5 5 Examples.baseConfig
  with
  | Returns grid => hasSize 5 5 grid
  | Throws _ => False
  | Diverges => True
  end.
Proof.
  apply (rasterizeRivers_dimensions Examples.gridHost Examples.gridMesh
           [{| rp_triangles := [22; 15; 14; 5]%Z; sourceTriangle := 22;
               rp_flow := Fin (210000000 # 100000000) |}]
           Examples.baseConfig 5 5); [lia|lia|lia|].
  repeat constructor; vm_compute; eexists _, _; reflexivity.
Defined.

(** The loop that looks for the closest triangle, from any state of its two
    variables. *)
Lemma closest_fold mesh (x y : nat) (cands : list Z) (acc : num * Z) :
  let step := fun (acc : num * Z) t =>
                let dx := (x_of_t mesh t - Num.of_nat x)%num in
                let dy := (y_of_t mesh t - Num.of_nat y)%num in
                let distSquared := (dx * dx + dy * dy)%num in
                if (distSquared <? fst acc)%num then (distSquared, t)
                else acc in
  let final := fold_left step cands acc in
  (final = acc
   \/ (snd final ∈ cands
       /\ fst final = distSquaredTo mesh x y (snd final)
       /\ (fst final <? fst acc)%num = true)) /\
  (forall d, (d <? fst acc)%num = false -> (d <? fst final)%num = false) /\
  (forall c, c ∈ cands ->
     (distSquaredTo mesh x y c <? fst final)%num = false).
Proof.
  cbv zeta. revert acc. induction cands as [|t ts IH]; intros acc.
  - cbn. split; [by left|]. split; [done|]. intros c Hc.
    by apply elem_of_nil in Hc.
  - cbn [fold_left]. fold (distSquaredTo mesh x y t).
    match goal with
    | |- context [fold_left ?f ts ?acc1] =>
        destruct (IH acc1) as (Hend & Hmono & Hmin);
        set (final := fold_left f ts acc1) in *
    end.
    destruct (distSquaredTo mesh x y t <? fst acc)%num eqn:Hlt.
    + cbn [fst] in Hmono. split; [|split].
      * right. destruct Hend as [->|(Hin & Hkey & Hlow)].
        -- cbn [fst snd]. split; [apply list_elem_of_here|done].
        -- split; [by apply list_elem_of_further|]. split; [done|].
           cbn [fst] in Hlow. by eapply ltb_trans.
      * intros d Hd. apply Hmono. by eapply ltb_below.
      * intros c Hc. apply elem_of_cons in Hc as [->|Hc]; [|by apply Hmin].
        apply Hmono. apply ltb_irrefl.
    + split; [|split].
      * destruct Hend as [Hend|(Hin & Hrest)]; [by left|right].
        split; [by apply list_elem_of_further|done].
      * done.
      * intros c Hc. apply elem_of_cons in Hc as [->|Hc]; [|by apply Hmin].
        by apply Hmono.
Qed.

(** The triangle that a rasteriser takes for a pixel is the closest of the
    candidates: no candidate is strictly closer to the pixel.  When no
    candidate is at a finite distance (there is none, or the distances are
    not numbers) it is the triangle 0. *)
Theorem closestTriangle_nearest mesh hash gridWidth gridHeight (x y : nat) :
  let closest := closestTriangle mesh hash gridWidth gridHeight x y in
  let candidates := candidatesAt hash gridWidth gridHeight x y in
  (closest ∈ candidates
   /\ forall c, c ∈ candidates ->
        (distSquaredTo mesh x y c <? distSquaredTo mesh x y closest)%num
        = false)
  \/ (closest = 0%Z
      /\ forall c, c ∈ candidates ->
           (distSquaredTo mesh x y c <? PosInf)%num = false).
Proof.
  cbv zeta. unfold closestTriangle. cbv zeta.
  fold (candidatesAt hash gridWidth gridHeight x y).
  destruct (closest_fold mesh x y (candidatesAt hash gridWidth gridHeight x y)
              (PosInf, 0%Z)) as (Hend & _ & Hmin).
  cbv zeta in Hend, Hmin.
  match type of Hmin with
  | context [fold_left ?f ?l ?a] => set (final := fold_left f l a) in *
  end.
  destruct Hend as [Hend|(Hin & Hkey & _)].
  - right. rewrite Hend in Hmin |- *. cbn [fst snd] in *. by split.
  - left. split; [done|]. intros c Hc. rewrite <- Hkey. by apply Hmin.
Qed.

(** ** The helpers of the renderer *)

Lemma hexDigit_range c d : hexDigit c = Some d -> (0 <= d <= 15)%Z.
Proof.
  unfold hexDigit.
  repeat case_match; intros [= <-]; lia.
Qed.

Lemma parseHexPair_range a b v : parseHexPair a b = Some v -> (0 <= v <= 255)%Z.
Proof.
  unfold parseHexPair.
  destruct (hexDigit a) as [hi|] eqn:Ha; [|done].
  destruct (hexDigit b) as [lo|] eqn:Hb; [|done].
  intros [= <-]. apply hexDigit_range in Ha, Hb. lia.
Qed.

Lemma hexToRgb_bounds (hex : string) (r g b : Z) :
  hexToRgb hex = (r, g, b) ->
  (0 <= r <= 255 /\ 0 <= g <= 255 /\ 0 <= b <= 255)%Z.
Proof.
  unfold hexToRgb.
  repeat case_match; intros [= <- <- <-];
    repeat match goal with
           | H : parseHexPair _ _ = Some _ |- _ =>
               apply parseHexPair_range in H
           end; lia.
Qed.

(** Whatever the string is, [hexToRgb] returns three integers of
    [0, 255]. *)
Theorem hexToRgb_range (hex : string) :
  let '(r, g, b) := hexToRgb hex in
  (0 <= r <= 255 /\ 0 <= g <= 255 /\ 0 <= b <= 255)%Z.
Proof.
  destruct (hexToRgb hex) as [[r g] b] eqn:E. by eapply hexToRgb_bounds.
Qed.

Lemma channels_round_trip : forallb channelRoundTrip (seq 0 256) = true.
Proof. vm_compute. reflexivity. Qed.

Lemma channel_round_trip (q : Q) :
  let z := Qfloor (q + (1 # 2)) in
  (0 <= z <= 255)%Z ->
  exists a b,
    padStart2 (toString16 (round (Fin q))) = String a (String b EmptyString)
    /\ parseHexPair a b = Some z.
Proof.
  intros z Hz.
  pose proof channels_round_trip as Hall. rewrite forallb_forall in Hall.
  specialize (Hall (Z.to_nat z)).
  assert (Hin : In (Z.to_nat z) (seq 0 256)) by (apply in_seq; lia).
  apply Hall in Hin. unfold channelRoundTrip in Hin.
  rewrite Z2Nat.id in Hin by lia.
  change (round (Fin q)) with (int z).
  destruct (padStart2 _) as [|a [|b [|]]]; try done.
  exists a, b. split; [done|]. by apply bool_decide_eq_true_1 in Hin.
Qed.

Lemma rgb_read_back (r g b : Q) :
  let zr := Qfloor (r + (1 # 2)) in
  let zg := Qfloor (g + (1 # 2)) in
  let zb := Qfloor (b + (1 # 2)) in
  (0 <= zr <= 255)%Z -> (0 <= zg <= 255)%Z -> (0 <= zb <= 255)%Z ->
  hexToRgb (rgbToHex (Fin r) (Fin g) (Fin b)) = (zr, zg, zb).
Proof.
  intros zr zg zb Hr Hg Hb. unfold rgbToHex.
  destruct (channel_round_trip r Hr) as (r1 & r2 & -> & Hpr).
  destruct (channel_round_trip g Hg) as (g1 & g2 & -> & Hpg).
  destruct (channel_round_trip b Hb) as (b1 & b2 & -> & Hpb).
  cbn [String.append]. unfold hexToRgb.
  fold zr in Hpr. fold zg in Hpg. fold zb in Hpb.
  by rewrite Hpr, Hpg, Hpb.
Qed.

(** A colour written by [rgbToHex] is read back by [hexToRgb]: the three
    channels rounded, provided each rounds to an integer of [0, 255]. *)
Theorem hexToRgb_rgbToHex (r g b : Q) :
  let zr := Qfloor (r + (1 # 2)) in
  let zg := Qfloor (g + (1 # 2)) in
  let zb := Qfloor (b + (1 # 2)) in
  (0 <= zr <= 255)%Z -> (0 <= zg <= 255)%Z -> (0 <= zb <= 255)%Z ->
  hexToRgb (rgbToHex (Fin r) (Fin g) (Fin b)) = (zr, zg, zb).
Proof. apply rgb_read_back. Qed.

(** The colour (255, 119.5, 0) is written as #ff7800. *)
Lemma hexToRgb_rgbToHex_witness :
  hexToRgb (rgbToHex (Fin 255) (Fin (239 # 2)) (Fin 0)) = (255, 120, 0)%Z.
Proof.
  apply (hexToRgb_rgbToHex 255 (239 # 2) 0); vm_compute; split; discriminate.
Defined.

(** Rounding to a double: the error of one operation. *)

Lemma roundEven_near (m : Q) : Qabs (inject_Z (Num.roundEven m) - m) <= 1 # 2.
Proof.
  unfold Num.roundEven.
  pose proof (Qfloor_le m) as Hlo. pose proof (Qlt_floor m) as Hhi.
  rewrite inject_Z_plus in Hhi. change (inject_Z 1) with 1 in Hhi.
  apply Qabs_Qle_condition.
  destruct (Qcompare_spec (m - inject_Z (Qfloor m)) (1 # 2)) as [He|Hl|Hg];
    [destruct (Z.even _)| |];
    rewrite ?inject_Z_plus; change (inject_Z 1) with 1; split; lra.
Qed.

Lemma binade_le (q : Q) (j : Z) :
  (0 <= j)%Z -> Qabs q <= inject_Z (2 ^ j) -> (Num.binade q <= j)%Z.
Proof.
  intros Hj Hq. unfold Num.binade.
  assert (He : (Z.log2 (Z.abs (Qnum q)) - Z.log2 (Zpos (Qden q)) <= j)%Z).
  { destruct q as [n d]. unfold Qle in Hq. cbn in Hq.
    cbn [Qnum Qden].
    assert (Hle : (Z.log2 (Z.abs n) <= Z.log2 (Zpos d * 2 ^ j))%Z)
      by (apply Z.log2_le_mono; lia).
    rewrite Z.log2_mul_pow2 in Hle by lia. lia. }
  destruct (Qle_bool _ _); lia.
Qed.

Lemma pow2_pos (e : Z) : 0 < Num.pow2 e.
Proof. apply Qpower_0_lt. reflexivity. Qed.

Lemma pow2_le (a b : Z) : (a <= b)%Z -> Num.pow2 a <= Num.pow2 b.
Proof. intros Hab. apply Qpower_le_compat_l; [done|]. discriminate. Qed.

(** An operation on doubles whose exact result is at most 512 in absolute
    value is off by at most 2^-44. *)
Lemma double_near (q : Q) :
  Qabs q <= 512 ->
  exists r, Num.double (Fin q) = Fin r /\ Qabs (r - q) <= 1 # 2 ^ 44.
Proof.
  intros Hq. unfold Num.double, Num.roundBinary.
  destruct (Qeq_bool q 0) eqn:E0.
  { apply Qeq_bool_iff in E0. exists 0. split; [done|].
    apply Qabs_Qle_condition. split; [rewrite E0; done|rewrite E0; done]. }
  set (e := (Z.max (Num.binade q) (-1022) - (53 - 1))%Z).
  set (ulp := Num.pow2 e).
  set (r := inject_Z (Num.roundEven (q / ulp)) * ulp).
  assert (Hulp : 0 < ulp) by apply pow2_pos.
  assert (Hsmall : ulp <= 1 # 2 ^ 43).
  { change (1 # 2 ^ 43) with (Num.pow2 (-43)). apply pow2_le. subst e.
    pose proof (binade_le q 9 ltac:(lia) Hq). lia. }
  assert (Herr : Qabs (r - q) <= 1 # 2 ^ 44).
  { assert (Heq : r - q == (inject_Z (Num.roundEven (q / ulp)) - q / ulp) * ulp)
      by (subst r; field; lra).
    rewrite Heq, Qabs_Qmult, (Qabs_pos ulp) by lra.
    pose proof (roundEven_near (q / ulp)) as Hn.
    pose proof (Qabs_nonneg (inject_Z (Num.roundEven (q / ulp)) - q / ulp)).
    assert ((1 # 2 ^ 44) == (1 # 2) * (1 # 2 ^ 43)) as -> by reflexivity.
    apply Qmult_le_compat_nonneg; split; lra. }
  assert (Hr : Qabs r <= 513).
  { assert (Hsum : r == q + (r - q)) by ring.
    rewrite Hsum. eapply Qle_trans; [apply Qabs_triangle|].
    assert ((1 # 2 ^ 44) <= 1) by done. lra. }
  exists (Qred r). split.
  - destruct (Qle_bool _ _) eqn:E; [exfalso|done].
    apply Qle_bool_iff in E. rewrite Qred_correct in E.
    pose proof (pow2_le 10 (1023 + 1) ltac:(lia)) as Hp.
    change (Num.pow2 10) with 1024 in Hp. lra.
  - by rewrite Qred_correct.
Qed.

Lemma double_nonneg (q r : Q) :
  0 <= q -> Num.double (Fin q) = Fin r -> 0 <= r.
Proof.
  unfold Num.double, Num.roundBinary. intros Hq.
  destruct (Qeq_bool q 0); [by intros [= <-]|].
  destruct (Qle_bool _ _); [by destruct (Qle_bool 0 q)|]. intros [= <-].
  rewrite Qred_correct.
  match goal with |- 0 <= inject_Z (Num.roundEven (q / ?u)) * ?u => set (ulp := u) end.
  assert (Hulp : 0 < ulp) by apply pow2_pos.
  apply Qmult_le_0_compat; [|lra].
  change 0 with (inject_Z 0). rewrite <- Zle_Qle.
  assert (Hm : 0 <= q / ulp) by (apply Qle_shift_div_l; lra).
  assert (Hf : (0 <= Qfloor (q / ulp))%Z)
    by (change 0%Z with (Qfloor 0); by apply Qfloor_resp_le).
  unfold Num.roundEven. repeat case_match; lia.
Qed.

Lemma channel_bounds (c : Z) :
  (0 <= c <= 255)%Z -> 0 <= inject_Z c /\ inject_Z c <= 255.
Proof.
  intros Hc. split; [change 0 with (inject_Z 0)|change 255 with (inject_Z 255)];
    rewrite <- Zle_Qle; lia.
Qed.

(** The blend of two channels on doubles is within 258 * 2^-44 of the exact
    weighted mean. *)
Lemma mix_near (c0 c1 : Z) (a : Q) :
  (0 <= c0 <= 255)%Z -> (0 <= c1 <= 255)%Z -> 0 <= a -> a <= 1 ->
  exists s,
    mix c0 c1 (Fin a) = Fin s /\ 0 <= s /\
    Qabs (s - (inject_Z c0 * (1 - a) + inject_Z c1 * a)) <= 258 # 2 ^ 44.
Proof.
  intros H0 H1 Ha0 Ha1.
  apply channel_bounds in H0 as [H0 H0'], H1 as [H1 H1'].
  set (E := 1 # 2 ^ 44).
  assert (HE : 0 < E /\ E <= 1 # 1000) by (split; reflexivity || discriminate).
  unfold mix.
  change (int 1 - Fin a)%num with (Fin (1 - a)).
  destruct (double_near (1 - a)) as (c & Hc & Hce);
    [apply Qabs_Qle_condition; split; lra|].
  pose proof (double_nonneg (1 - a) c ltac:(lra) Hc) as Hc0.
  rewrite Hc. apply Qabs_Qle_condition in Hce. fold E in Hce.
  change (int c0 * Fin c)%num with (Fin (inject_Z c0 * c)).
  destruct (double_near (inject_Z c0 * c)) as (x & Hx & Hxe);
    [apply Qabs_Qle_condition; split; nra|].
  pose proof (double_nonneg (inject_Z c0 * c) x ltac:(nra) Hx) as Hx0.
  rewrite Hx. apply Qabs_Qle_condition in Hxe. fold E in Hxe.
  change (int c1 * Fin a)%num with (Fin (inject_Z c1 * a)).
  destruct (double_near (inject_Z c1 * a)) as (y & Hy & Hye);
    [apply Qabs_Qle_condition; split; nra|].
  pose proof (double_nonneg (inject_Z c1 * a) y ltac:(nra) Hy) as Hy0.
  rewrite Hy. apply Qabs_Qle_condition in Hye. fold E in Hye.
  change (Fin x + Fin y)%num with (Fin (x + y)).
  assert (Hxa : - (256 * E) <= x - inject_Z c0 * (1 - a)
                /\ x - inject_Z c0 * (1 - a) <= 256 * E) by (split; nra).
  assert (Hya : inject_Z c1 * a <= 255) by nra.
  assert (Hxb : inject_Z c0 * (1 - a) <= 255 * (1 - a)) by nra.
  assert (Hyb : inject_Z c1 * a <= 255 * a) by nra.
  destruct (double_near (x + y)) as (s & Hs & Hse);
    [apply Qabs_Qle_condition; split; lra|].
  pose proof (double_nonneg (x + y) s ltac:(lra) Hs) as Hs0.
  apply Qabs_Qle_condition in Hse. fold E in Hse.
  exists s. split; [done|]. split; [done|].
  apply Qabs_Qle_condition.
  assert (HE258 : (258 # 2 ^ 44) == 258 * E) by reflexivity.
  rewrite HE258. split; lra.
Qed.

Lemma mix_rounded (c0 c1 : Z) (a s : Q) :
  (0 <= c0 <= 255)%Z -> (0 <= c1 <= 255)%Z -> 0 <= a -> a <= 1 ->
  0 <= s ->
  Qabs (s - (inject_Z c0 * (1 - a) + inject_Z c1 * a)) <= 258 # 2 ^ 44 ->
  blendOf a c0 c1 (Qfloor (s + (1 # 2))).
Proof.
  intros H0 H1 Ha0 Ha1 Hs0 Hs.
  apply channel_bounds in H0 as [H0 H0'], H1 as [H1 H1'].
  apply Qabs_Qle_condition in Hs.
  assert (HE : (258 # 2 ^ 44) <= 1 # 1000000000) by discriminate.
  assert (Hxb : inject_Z c0 * (1 - a) <= 255 * (1 - a)) by nra.
  assert (Hyb : inject_Z c1 * a <= 255 * a) by nra.
  assert (Hxc : 0 <= inject_Z c0 * (1 - a)) by nra.
  assert (Hyc : 0 <= inject_Z c1 * a) by nra.
  pose proof (Qfloor_le (s + (1 # 2))) as Hlo.
  pose proof (Qlt_floor (s + (1 # 2))) as Hhi.
  rewrite inject_Z_plus in Hhi. change (inject_Z 1) with 1 in Hhi.
  split.
  - split.
    + change 0%Z with (Qfloor 0). apply Qfloor_resp_le. lra.
    + assert (Hlt : (Qfloor (s + (1 # 2)) < 256)%Z); [|lia].
      rewrite Zlt_Qlt. change (inject_Z 256) with 256. lra.
  - apply Qabs_Qle_condition. split; lra.
Qed.

(** Blending two colours with a weight of [0, 1] gives a colour: read back,
    each channel is an integer of [0, 255] within 1/2 (and the rounding
    errors of the doubles, less than 10^-9) of the weighted mean of the two
    channels. *)
Theorem hexToRgb_blendColors (baseColor overlayColor : string) (alpha : Q) :
  0 <= alpha -> alpha <= 1 ->
  let '(r0, g0, b0) := hexToRgb baseColor in
  let '(r1, g1, b1) := hexToRgb overlayColor in
  let '(r, g, b) :=
    hexToRgb (blendColors baseColor overlayColor (Fin alpha)) in
  blendOf alpha r0 r1 r /\ blendOf alpha g0 g1 g /\ blendOf alpha b0 b1 b.
Proof.
  intros Ha0 Ha1. unfold blendColors.
  destruct (hexToRgb baseColor) as [[r0 g0] b0] eqn:E0.
  destruct (hexToRgb overlayColor) as [[r1 g1] b1] eqn:E1.
  apply hexToRgb_bounds in E0 as (Hr0 & Hg0 & Hb0).
  apply hexToRgb_bounds in E1 as (Hr1 & Hg1 & Hb1).
  cbv zeta.
  destruct (mix_near r0 r1 alpha) as (r & -> & Hrp & Hr); [done..|].
  destruct (mix_near g0 g1 alpha) as (g & -> & Hgp & Hg); [done..|].
  destruct (mix_near b0 b1 alpha) as (b & -> & Hbp & Hb); [done..|].
  pose proof (mix_rounded r0 r1 alpha r Hr0 Hr1 Ha0 Ha1 Hrp Hr) as Hzr.
  pose proof (mix_rounded g0 g1 alpha g Hg0 Hg1 Ha0 Ha1 Hgp Hg) as Hzg.
  pose proof (mix_rounded b0 b1 alpha b Hb0 Hb1 Ha0 Ha1 Hbp Hb) as Hzb.
  rewrite (rgb_read_back r g b); [done|apply Hzr|apply Hzg|apply Hzb].
Qed.

(** Half way from #000080 to #0099cc. *)
Lemma hexToRgb_blendColors_witness :
  let '(r0, g0, b0) := hexToRgb "#000080" in
  let '(r1, g1, b1) := hexToRgb "#0099cc" in
  let '(r, g, b) := hexToRgb (blendColors "#000080" "#0099cc" (Fin (1 # 2))) in
  blendOf (1 # 2) r0 r1 r /\ blendOf (1 # 2) g0 g1 g
  /\ blendOf (1 # 2) b0 b1 b.
Proof.
  apply (hexToRgb_blendColors "#000080" "#0099cc" (1 # 2)); lra.
Defined.

Lemma padStart2_length (s : string) : (2 <= String.length (padStart2 s))%nat.
Proof.
  unfold padStart2. destruct s as [|a [|b s]]; cbn; lia.
Qed.

(** A string that does not start with a hexadecimal digit or [#] is read
    as black. *)
Lemma hexToRgb_bad_start (c : ascii) (rest : string) :
  hexDigit c = None -> hexToRgb (String "#" (String c rest)) = (0, 0, 0)%Z.
Proof.
  intros Hc. unfold hexToRgb, parseHexPair. rewrite Hc.
  cbn [mbind option_bind]. by repeat case_match.
Qed.

(** [rgbToHex] does not check its arguments: a red channel that is not
    finite, or that rounds to a negative integer, gives a string that
    [hexToRgb] reads as black, whatever the other channels are. *)
Theorem rgbToHex_not_a_colour (r g b : num) :
  isFiniteNum r = false
  \/ (exists q, r = Fin q /\ (Qfloor (q + (1 # 2)) < 0)%Z) ->
  hexToRgb (rgbToHex r g b) = (0, 0, 0)%Z.
Proof.
  intros Hr. unfold rgbToHex.
  assert (Hstart : exists c rest,
            padStart2 (toString16 (round r)) = String c rest
            /\ hexDigit c = None).
  { destruct Hr as [Hr|(q & -> & Hq)].
    - destruct r; try done; cbn; eauto.
    - cbn [round toString16]. rewrite Qfloor_Z.
      destruct (Qfloor (q + (1 # 2))) as [|p|p] eqn:E; try lia.
      cbn [Z.to_hex_int HexadecimalString.NilZero.string_of_int].
      destruct (HexadecimalString.NilZero.string_of_uint _) as [|d ds] eqn:Ed.
      { by destruct (Pos.to_hex_uint p). }
      by exists "-"%char, (String d ds). }
  destruct Hstart as (c & rest & -> & Hc).
  cbn [String.append]. by apply hexToRgb_bad_start.
Qed.

Lemma rgbToHex_not_a_colour_witness :
  hexToRgb (rgbToHex NaN (Fin 10) (Fin 20)) = (0, 0, 0)%Z.
Proof.
  apply (rgbToHex_not_a_colour NaN (Fin 10) (Fin 20)). by left.
Defined.

(** [calculateHillshade] returns 1 on the border of the map, and elsewhere
    a shade clamped to [0, 1]; it throws, a TypeError, only when a row of
    the elevation grid is missing. *)
Theorem calculateHillshade_range host (x y : Z) elevation (width height : Z)
    lightDir :
  ((x <= 0 \/ y <= 0 \/ width - 1 <= x \/ height - 1 <= y)%Z ->
   calculateHillshade host x y elevation width height lightDir
   = Returns (int 1)) /\
  match calculateHillshade host x y elevation width height lightDir with
  | Returns shade => unitOrNaN shade
  | Throws e => exists message, e = TypeError message
  | Diverges => False
  end.
Proof.
  unfold calculateHillshade. split.
  - intros Hedge.
    destruct (Z.leb_spec x 0), (Z.leb_spec y 0), (Z.geb_spec x (width - 1)),
      (Z.geb_spec y (height - 1)); cbn [orb]; try done; lia.
  - destruct (_ || _).
    + right. exists 1. split; [done|lra].
    + unfold cellAt.
      destruct (zlookup elevation y); cbn [mbind Outcome_bind];
        [|by eexists].
      destruct (zlookup elevation (y - 1)); cbn [mbind Outcome_bind];
        [|by eexists].
      destruct (zlookup elevation (y + 1)); cbn [mbind Outcome_bind];
        [|by eexists].
      destruct lightDir as [[? ?] ?]. apply clamp_unit.
Qed.

(** ** The names of the biomes *)

(** Distinct biomes have distinct names, and the name is [Unknown] exactly
    for the codes that are not the code of a biome. *)
Theorem getBiomeName_names :
  (forall b1 b2,
     getBiomeName (biomeCode b1) = getBiomeName (biomeCode b2) -> b1 = b2) /\
  (forall code,
     getBiomeName code = "Unknown"%string <-> forall b, biomeCode b <> code).
Proof.
  split.
  - intros b1 b2. destruct b1, b2; cbn; (done || discriminate).
  - intros code. split.
    + intros Hname b <-. by destruct b.
    + intros Hnot.
      assert (Hout : (code < 0 \/ 18 < code)%Z).
      { destruct (Z.ltb_spec code 0); [by left|].
        destruct (Z.ltb_spec 18 code); [by right|]. exfalso.
        assert (Hcases : code ∈ map biomeCode
                  [OCEAN; DEEP_OCEAN; SHALLOW_OCEAN; SHALLOW_WATER; BEACH;
                   SNOW; TUNDRA; TAIGA; GRASSLAND; SHRUBLAND;
                   TEMPERATE_DECIDUOUS_FOREST; TEMPERATE_RAIN_FOREST;
                   TEMPERATE_DESERT; SUBTROPICAL_DESERT;
                   TROPICAL_SEASONAL_FOREST; TROPICAL_RAIN_FOREST;
                   MOUNTAIN; BARE; SCORCHED]).
        { cbn. rewrite !elem_of_cons. lia. }
        apply list_elem_of_fmap in Hcases as (b & -> & _). by apply (Hnot b). }
      destruct code as [|p|p]; [lia| |done].
      do 5 (destruct p as [p|p|]; try lia; try reflexivity).
Qed.

(** ** The range of the downslope *)

(** The triangle that the search for a way out of a sink finds is an entry
    of a row of neighbours, and not [-1]. *)
Lemma probeNeighbor_found host el ds visited nbs acc found :
  snd (fold_left (probeNeighbor host el ds visited) nbs acc) = Some found ->
  snd acc = Some found \/ (found ∈ nbs /\ found <> (-1)%Z).
Proof.
  revert acc. induction nbs as [|nb nbs IH]; intros acc Hf; [by left|].
  cbn [fold_left] in Hf. apply IH in Hf as [Hf|[Hin Hne]].
  - unfold probeNeighbor in Hf. destruct (snd acc) as [u|] eqn:Hacc.
    + left. by rewrite Hacc in Hf.
    + destruct (Z.eqb_spec nb (-1)) as [->|Hnb]; cbn [orb] in Hf.
      { by rewrite Hacc in Hf. }
      destruct (zflag visited nb); [by rewrite Hacc in Hf|].
      destruct (isDrained ds nb); cbn [snd] in Hf; [|done].
      injection Hf as <-. right. split; [apply list_elem_of_here|done].
  - right. split; [by apply list_elem_of_further|done].
Qed.

Lemma sinkSearch_found host fuel mesh el ds queue visited found :
  sinkSearch host fuel mesh el ds queue visited = Some found ->
  exists current, found ∈ neighborsOf mesh current /\ found <> (-1)%Z.
Proof.
  revert queue visited. induction fuel as [|fuel IH]; intros queue visited;
    [done|].
  cbn [sinkSearch]. destruct (0 <? _)%nat; [|done].
  destruct (queue_pop host queue) as [[current q']|]; [|done].
  destruct (zflag visited current); [apply IH|].
  destruct (fold_left _ _ _) as [q'' [u|]] eqn:Hfold; [|apply IH].
  intros [= ->]. exists current.
  pose proof (probeNeighbor_found host el ds (zinsert current true visited)
                (neighborsOf mesh current) (q', None) found) as Hp.
  rewrite Hfold in Hp. destruct (Hp eq_refl) as [|]; done.
Qed.

(** When the neighbour slots of the mesh hold [-1] or indices of triangles,
    so does the downslope: following it never leaves the arrays. *)
Theorem calculateDownslope_in_range host mesh el (d : Z) :
  (forall t u, u ∈ neighborsOf mesh t ->
     u = (-1)%Z \/ (0 <= u < Z.of_nat (numTriangles mesh))%Z) ->
  d ∈ calculateDownslope host mesh el ->
  d = (-1)%Z \/ (0 <= d < Z.of_nat (numTriangles mesh))%Z.
Proof.
  intros Hnb. unfold calculateDownslope.
  set (ok := fun d : Z =>
               d = (-1)%Z \/ (0 <= d < Z.of_nat (numTriangles mesh))%Z).
  enough (Hall : Forall ok
                   (fold_left (resolveSink host mesh el) (triangleIds mesh)
                      (map (lowestNeighbor mesh el) (triangleIds mesh)))).
  { intros Hd. rewrite Forall_forall in Hall. by apply Hall. }
  apply fold_left_preserves.
  - intros ds t Hds. unfold resolveSink.
    destruct (zlookup ds t) as [[|p|[p|p|]]|]; try done.
    destruct (sinkSearch _ _ _ _ _ _ _) as [found|] eqn:Hs; [|done].
    apply Forall_zinsert; [done|].
    apply sinkSearch_found in Hs as (current & Hin & Hne).
    by eapply Hnb.
  - apply Forall_fmap, Forall_forall. intros t _. cbn.
    destruct (Z.eq_dec (lowestNeighbor mesh el t) (-1)%Z) as [->|Hne];
      [by left|].
    eapply Hnb. by apply lowestNeighbor_elem.
Qed.

(** The downslope of the crater on the lattice. *)
Lemma calculateDownslope_in_range_witness :
  (15 = -1 \/ 0 <= 15 < Z.of_nat (numTriangles Examples.gridMesh))%Z.
Proof.
  apply (calculateDownslope_in_range Examples.gridHost Examples.gridMesh
           Examples.craterElevation 15).
  - intros t u Hu.
    assert (Hall : forallb
                     (forallb (fun u => (u =? -1)%Z
                                        || ((0 <=? u)%Z && (u <? 50)%Z)))
                     (neighbors Examples.gridMesh) = true)
      by (vm_compute; reflexivity).
    rewrite forallb_forall in Hall.
    unfold neighborsOf in Hu.
    destruct (zlookup _ t) as [row|] eqn:Hrow;
      [|by apply elem_of_nil in Hu].
    apply zlookup_Some in Hrow as [_ Hrow].
    apply list_elem_of_lookup_2, list_elem_of_In, Hall in Hrow.
    rewrite forallb_forall in Hrow.
    apply list_elem_of_In, Hrow in Hu.
    change (numTriangles Examples.gridMesh) with 50%nat. lia.
  - vm_compute. do 24 apply list_elem_of_further. apply list_elem_of_here.
Defined.
